(** * The browser connection and page pool manager

    A shallow embedding of [packages/browser/src/browser.ts] (class
    [BrowserManager]): the registry of browser connections, the per-connection
    page pool, the checkout and return protocol, the health monitor, the
    reconnection loop and the shutdown handler.

    Playwright is the outside world.  Every call into it whose promise can
    reject draws its outcome from an oracle, is counted, and is recorded in a
    trace; what Playwright lets the manager observe afterwards (a page's
    [isClosed()], the browser behind a page) is kept in a small world state.
    The methods are first modelled as calls that run to completion, one
    after another.  Calls that overlap at an [await] are modelled for
    [returnPage], whose test of the pool and whose push lie on either side of
    one: see the part on calls that overlap. *)

From Stdlib Require Import List String Ascii Bool Arith ZArith Lia.
From Stdlib Require Import Permutation Sorted.
Import ListNotations.
Local Open Scope list_scope.

Set Implicit Arguments.

(** ** Data model *)

(** A Playwright [Page].  [pid] is the identity of the object; [pbrowser] is
    the browser that [page.context().browser()] answers. *)
Record Page := mkPage { pid : nat; pbrowser : nat }.

(** [interface BrowserInstance].  [browser] is the identity of the Playwright
    [Browser] object, fresh at every [chromium.connect]; since every instance
    is built around a browser of its own, it also identifies the instance
    object. *)
Record BrowserInstance := mkInstance {
  browser : nat;
  pagePool : list Page;
  endpoint : string;
  healthy : bool;
  lastHealthCheck : Z;
  markedForShutdown : option bool
}.

Definition PAGE_POOL_SIZE : nat := 10.
Definition HEALTH_CHECK_INTERVAL : Z := 5000.
Definition INITIAL_RECONNECT_DELAY : Z := 1000.
Definition MAX_RECONNECT_MULTIPLIER : Z := 3.
Definition DEFAULT_PAGE_TIMEOUT : Z := 5000.

(** What the manager can throw or let through. *)
Inductive Error :=
| NoEndpointsConfigured        (* 'No browser endpoints configured' *)
| AllConnectionsFailed         (* 'Failed to connect to any browser instances' *)
| InstanceNotProvided          (* 'Instance not provided' *)
| PageWithoutInstance          (* 'Page does not belong to any known browser instance' *)
| BrowserDisconnected          (* 'Browser disconnected' *)
| External (call : nat).       (* a rejected Playwright promise *)

(** The lines written through [logger]. *)
Inductive LogLine :=
| LogConnectFailed (e : string)          (* Failed to connect to browser at e *)
| LogConnected (e : string) (n : nat)    (* Connected to browser at e with n pages *)
| LogResetCreateFailed                   (* Failed to create new page after reset failure *)
| LogNoHealthy                           (* No healthy browser instances available *)
| LogCreateFailed (e : string)           (* Failed to create page from instance e *)
| LogAllFailed                           (* All browser instances failed to provide a page *)
| LogOrphanClose                         (* Error closing orphaned page *)
| LogReturnFailed                        (* Error returning page to pool *)
| LogUnhealthy (e : string)              (* Browser instance e is unhealthy *)
| LogReconnecting (e : string) (attempt : Z)
| LogReconnected (e : string)
| LogReconnectFailed (e : string) (attempt delay : Z)
| LogCleanup                             (* Cleaning up browser connections... *)
| LogCleanupError.                       (* Error during cleanup *)

(** Calls into Playwright and the runtime, with their outcome. *)
Inductive Event :=
| EConnect (e : string) (ok : bool)            (* chromium.connect(e) *)
| ENewPage (b : nat) (ok : bool)               (* browser.newPage(...) *)
| EGoto (p : Page) (timeout : option Z) (ok : bool)  (* page.goto('about:blank') *)
| EEvaluate (p : Page) (ok : bool)             (* page.evaluate(() => true) *)
| EClosePage (p : Page) (ok : bool)            (* page.close() *)
| ECloseBrowser (b : nat) (ok : bool)          (* browser.close() *)
| EIsConnected (b : nat) (r : bool)            (* browser.isConnected() *)
| ESleep (ms : Z)                              (* setTimeout(resolve, ms) *)
| ELog (l : LogLine).

(** What Playwright knows about a page: whether it is closed, and what
    [setupCoreSecurityControls] installed on it. *)
Record PageState := mkPageState {
  closed : bool;
  dismissesDialogs : bool;
  closesPopups : bool;
  defaultTimeout : option Z
}.

Record World := mkWorld {
  oracle : nat -> bool;          (* the world's answer to the n-th call *)
  calls : nat;                   (* calls answered so far *)
  nextBrowser : nat;             (* identity of the next Browser object *)
  pages : list PageState;        (* indexed by [pid]; a new page is appended *)
  clock : Z;                     (* milliseconds slept so far: [new Date()] *)
  BROWSER_ENDPOINTS : option string;   (* process.env.BROWSER_ENDPOINTS *)
  trace : list Event
}.

(** [browserInstances : Map<string, BrowserInstance>], in insertion order. *)
Definition Registry := list (string * BrowserInstance).

Record State := mkState {
  browserInstances : Registry;
  world : World
}.

(** ** The effect monad

    State passing with exceptions.  [OutOfFuel] is the outcome of a run cut
    short inside the unbounded reconnection loop; no handler catches it. *)
Inductive Outcome (A : Type) :=
| Ok (a : A)
| Throw (e : Error)
| OutOfFuel.
Arguments Throw {A} e.
Arguments OutOfFuel {A}.

Definition M (A : Type) := State -> Outcome A * State.

Definition ret {A} (a : A) : M A := fun s => (Ok a, s).

Definition bind {A B} (c : M A) (k : A -> M B) : M B :=
  fun s => match c s with
           | (Ok a, s') => k a s'
           | (Throw e, s') => (Throw e, s')
           | (OutOfFuel, s') => (OutOfFuel, s')
           end.

Definition throw {A} (e : Error) : M A := fun s => (Throw e, s).

(** [try { c } catch (error) { h error }] *)
Definition try_catch {A} (c : M A) (h : Error -> M A) : M A :=
  fun s => match c s with
           | (Throw e, s') => h e s'
           | r => r
           end.

(** [await c.catch(() => {})] *)
Definition swallow (c : M unit) : M unit := try_catch c (fun _ => ret tt).

Declare Scope m_scope.
Delimit Scope m_scope with m.
Notation "x <- c ;; k" := (bind c (fun x => k))
  (at level 61, c at next level, right associativity) : m_scope.
Notation "c ;; k" := (bind c (fun _ => k))
  (at level 61, right associativity) : m_scope.
Local Open Scope m_scope.

Definition getRegistry : M Registry := fun s => (Ok (browserInstances s), s).

Definition modifyRegistry (f : Registry -> Registry) : M unit :=
  fun s => (Ok tt, mkState (f (browserInstances s)) (world s)).

Definition getWorld : M World := fun s => (Ok (world s), s).

Definition modifyWorld (f : World -> World) : M unit :=
  fun s => (Ok tt, mkState (browserInstances s) (f (world s))).

(** ** The outside world *)

Definition record (ev : Event) (w : World) : World :=
  mkWorld (oracle w) (calls w) (nextBrowser w) (pages w) (clock w)
          (BROWSER_ENDPOINTS w) (trace w ++ [ev]).

Definition emit (ev : Event) : M unit := modifyWorld (record ev).

Definition log (l : LogLine) : M unit := emit (ELog l).

(** One fallible call: ask the oracle, count the call, record the event, and
    reject with [External] on failure. *)
Definition count_call (w : World) : World :=
  mkWorld (oracle w) (S (calls w)) (nextBrowser w) (pages w) (clock w)
          (BROWSER_ENDPOINTS w) (trace w).

Definition external (ev : bool -> Event) : M unit :=
  w <- getWorld ;;
  let ok := oracle w (calls w) in
  modifyWorld (fun w => record (ev ok) (count_call w)) ;;
  if ok then ret tt else throw (External (calls w)).

Definition set_pages (ps : list PageState) (w : World) : World :=
  mkWorld (oracle w) (calls w) (nextBrowser w) ps (clock w)
          (BROWSER_ENDPOINTS w) (trace w).

Fixpoint update_nth {A} (n : nat) (f : A -> A) (l : list A) : list A :=
  match l, n with
  | [], _ => []
  | x :: l', O => f x :: l'
  | x :: l', S n' => x :: update_nth n' f l'
  end.

(** [chromium.connect(endpoint, ...)] *)
Definition chromium_connect (e : string) : M nat :=
  external (EConnect e) ;;
  w <- getWorld ;;
  modifyWorld (fun w => mkWorld (oracle w) (calls w) (S (nextBrowser w))
                          (pages w) (clock w) (BROWSER_ENDPOINTS w) (trace w)) ;;
  ret (nextBrowser w).

(** [browser.newPage({acceptDownloads: false, serviceWorkers: 'block',
    userAgent: ...})]: a new, open page of that browser. *)
Definition browser_newPage (b : nat) : M Page :=
  external (ENewPage b) ;;
  w <- getWorld ;;
  modifyWorld (set_pages (pages w ++ [mkPageState false false false None])) ;;
  ret (mkPage (List.length (pages w)) b).

(** [page.goto('about:blank', {timeout})] *)
Definition page_goto (p : Page) (timeout : option Z) : M unit :=
  external (EGoto p timeout).

(** [page.evaluate(() => true)] *)
Definition page_evaluate (p : Page) : M unit := external (EEvaluate p).

(** [page.isClosed()]; a page Playwright never made counts as closed. *)
Definition isClosed (w : World) (p : Page) : bool :=
  match nth_error (pages w) (pid p) with
  | Some ps => closed ps
  | None => true
  end.

Definition page_isClosed (p : Page) : M bool :=
  w <- getWorld ;; ret (isClosed w p).

Definition mark_closed (ps : PageState) : PageState :=
  mkPageState true (dismissesDialogs ps) (closesPopups ps) (defaultTimeout ps).

(** [page.close()] *)
Definition page_close (p : Page) : M unit :=
  external (EClosePage p) ;;
  modifyWorld (fun w => set_pages (update_nth (pid p) mark_closed (pages w)) w).

(** [browser.close()] *)
Definition browser_close (b : nat) : M unit := external (ECloseBrowser b).

(** [browser.isConnected()]: synchronous, never throws; the answer is the
    world's. *)
Definition browser_isConnected (b : nat) : M bool :=
  w <- getWorld ;;
  let r := oracle w (calls w) in
  modifyWorld (fun w => record (EIsConnected b r) (count_call w)) ;;
  ret r.

(** [new Promise((resolve) => setTimeout(resolve, ms))] *)
Definition sleep (ms : Z) : M unit :=
  modifyWorld (fun w => mkWorld (oracle w) (calls w) (nextBrowser w) (pages w)
                          (clock w + ms) (BROWSER_ENDPOINTS w)
                          (trace w ++ [ESleep ms])).

(** [new Date()] *)
Definition now : M Z := w <- getWorld ;; ret (clock w).

(** ** The registry: a JavaScript [Map] in insertion order *)

Definition map_get (e : string) (r : Registry) : option BrowserInstance :=
  match find (fun kv => String.eqb (fst kv) e) r with
  | Some kv => Some (snd kv)
  | None => None
  end.

(** [Map.prototype.set]: an existing key keeps its place. *)
Fixpoint map_set (e : string) (i : BrowserInstance) (r : Registry) : Registry :=
  match r with
  | [] => [(e, i)]
  | kv :: r' => if String.eqb (fst kv) e then (e, i) :: r'
                else kv :: map_set e i r'
  end.

(** [Map.prototype.delete] *)
Definition map_delete (e : string) (r : Registry) : Registry :=
  filter (fun kv => negb (String.eqb (fst kv) e)) r.

(** [Array.from(map.values())] *)
Definition values (r : Registry) : list BrowserInstance := map snd r.

(** A write to a field of the instance object built around browser [b]: the
    registry holds that object once, and [findInstanceByPage] finds it as the
    first value with this browser. *)
Fixpoint update_instance (b : nat) (f : BrowserInstance -> BrowserInstance)
    (r : Registry) : Registry :=
  match r with
  | [] => []
  | kv :: r' =>
      if Nat.eqb (browser (snd kv)) b then (fst kv, f (snd kv)) :: r'
      else kv :: update_instance b f r'
  end.

Definition set_pagePool (pool : list Page) (i : BrowserInstance) : BrowserInstance :=
  mkInstance (browser i) pool (endpoint i) (healthy i) (lastHealthCheck i)
             (markedForShutdown i).

Definition set_healthy (h : bool) (i : BrowserInstance) : BrowserInstance :=
  mkInstance (browser i) (pagePool i) (endpoint i) h (lastHealthCheck i)
             (markedForShutdown i).

Definition set_lastHealthCheck (t : Z) (i : BrowserInstance) : BrowserInstance :=
  mkInstance (browser i) (pagePool i) (endpoint i) (healthy i) t
             (markedForShutdown i).

(** ** The manager *)

(** [String.prototype.split(',')]: never an empty array; the empty string
    gives one empty piece. *)
Fixpoint split_comma (s : string) : list string :=
  match s with
  | EmptyString => [EmptyString]
  | String c rest =>
      if Ascii.eqb c ","%char then EmptyString :: split_comma rest
      else match split_comma rest with
           | piece :: pieces => String c piece :: pieces
           | [] => [String c EmptyString]
           end
  end.

(** [process.env.BROWSER_ENDPOINTS?.split(',') || []], then the identity
    [map].  An array is truthy, so [[]] stands in only for [undefined]. *)
Definition getEndpoints : M (list string) :=
  w <- getWorld ;;
  let endpoints := match BROWSER_ENDPOINTS w with
                   | Some v => split_comma v
                   | None => []
                   end in
  ret (map (fun endpoint => endpoint) endpoints).

Definition createBasePage (b : nat) : M Page := browser_newPage b.

Definition secure (ps : PageState) : PageState :=
  mkPageState (closed ps) true true (Some DEFAULT_PAGE_TIMEOUT).

(** [instance] is [None] where the source would see a falsy argument. *)
Definition setupCoreSecurityControls (page : Page)
    (instance : option BrowserInstance) : M unit :=
  match instance with
  | None => throw InstanceNotProvided
  | Some _ =>
      modifyWorld (fun w => set_pages (update_nth (pid page) secure (pages w)) w)
  end.

Definition createAndSecurePage (b : nat) (instance : option BrowserInstance)
    : M Page :=
  page <- createBasePage b ;;
  setupCoreSecurityControls page instance ;;
  ret page.

(** The warm-up loop of [connectToBrowser]: [n] more rounds of
    [pagePool.push(await this.createAndSecurePage(browser, instance))]. *)
Fixpoint warm_pool (n : nat) (b : nat) (instance : BrowserInstance)
    (pagePool : list Page) : M (list Page) :=
  match n with
  | O => ret pagePool
  | S n' =>
      page <- createAndSecurePage b (Some instance) ;;
      warm_pool n' b instance (pagePool ++ [page])
  end.

Definition connectToBrowser (endpoint : string) : M unit :=
  try_catch
    (browser <- chromium_connect endpoint ;;
     t <- now ;;
     let instance := mkInstance browser [] endpoint true t None in
     modifyRegistry (map_set endpoint instance) ;;
     pagePool <- warm_pool PAGE_POOL_SIZE browser instance [] ;;
     modifyRegistry (update_instance browser (set_pagePool pagePool)) ;;
     log (LogConnected endpoint (List.length pagePool)))
    (fun error =>
     r <- getRegistry ;;
     match map_get endpoint r with
     | Some instance =>
         swallow (browser_close (browser instance)) ;;
         modifyRegistry (map_delete endpoint)
     | None => ret tt
     end ;;
     log (LogConnectFailed endpoint) ;;
     throw error).

(** The [for (const endpoint of endpoints)] loop of [initializeConnections]. *)
Fixpoint connect_each (endpoints : list string) : M unit :=
  match endpoints with
  | [] => ret tt
  | endpoint :: rest =>
      try_catch (connectToBrowser endpoint)
                (fun error => log (LogConnectFailed endpoint)) ;;
      connect_each rest
  end.

Definition initializeConnections : M unit :=
  endpoints <- getEndpoints ;;
  if Nat.eqb (List.length endpoints) 0 then throw NoEndpointsConfigured
  else
    connect_each endpoints ;;
    r <- getRegistry ;;
    if Nat.eqb (List.length r) 0 then throw AllConnectionsFailed else ret tt.

(** [page.context()?.browser() === instance.browser] over the values; the
    scan itself has nothing that throws here. *)
Definition findInstanceByPage (page : Page) : M (option BrowserInstance) :=
  r <- getRegistry ;;
  ret (find (fun instance => Nat.eqb (pbrowser page) (browser instance))
            (values r)).

Definition resetPage (page : Page) : M Page :=
  instance <- findInstanceByPage page ;;
  match instance with
  | None => throw PageWithoutInstance
  | Some instance =>
      try_catch
        (page_goto page (Some 500%Z) ;;
         ret page)
        (fun error =>
         try_catch
           (swallow (page_close page) ;;
            createAndSecurePage (browser instance) (Some instance))
           (fun createError =>
            log LogResetCreateFailed ;;
            throw createError))
  end.

Definition validatePage (page : Page) : M bool :=
  try_catch
    (c <- page_isClosed page ;;
     if c then ret false
     else page_evaluate page ;; ret true)
    (fun error => ret false).

Definition out_of_fuel {A} : M A := fun s => (OutOfFuel, s).

(** [pages.forEach((page) => page.close().catch(() => {}))] *)
Fixpoint close_all (l : list Page) : M unit :=
  match l with
  | [] => ret tt
  | page :: rest => swallow (page_close page) ;; close_all rest
  end.

(** The delay slept after failed attempt number [attempt].  The source
    computes it on doubles; every value below the cap is exact there, and
    above it (infinity included) [Math.min] answers the cap. *)
Definition reconnect_delay (attempt : Z) : Z :=
  let exponentialDelay := (INITIAL_RECONNECT_DELAY * 2 ^ (attempt - 1))%Z in
  Z.min exponentialDelay (INITIAL_RECONNECT_DELAY * MAX_RECONNECT_MULTIPLIER)%Z.

(** One round of the [while (true)] of [attemptRecovery]: [true] where the
    source reaches [break]. *)
Definition reconnect_once (instance : BrowserInstance) (attempt : Z) : M bool :=
  try_catch
    (log (LogReconnecting (endpoint instance) attempt) ;;
     modifyRegistry (map_delete (endpoint instance)) ;;
     close_all (pagePool instance) ;;
     swallow (browser_close (browser instance)) ;;
     connectToBrowser (endpoint instance) ;;
     log (LogReconnected (endpoint instance)) ;;
     ret true)
    (fun error =>
     let currentDelay := reconnect_delay attempt in
     log (LogReconnectFailed (endpoint instance) attempt currentDelay) ;;
     sleep currentDelay ;;
     ret false).

(** The loop itself, at most [fuel] rounds of it; [attempt++] between rounds. *)
Fixpoint reconnect_loop (fuel : nat) (instance : BrowserInstance) (attempt : Z)
    : M unit :=
  match fuel with
  | O => out_of_fuel
  | S fuel' =>
      connected <- reconnect_once instance attempt ;;
      if connected then ret tt
      else reconnect_loop fuel' instance (attempt + 1)%Z
  end.

Definition attemptRecovery (fuel : nat) (instance : option BrowserInstance)
    : M unit :=
  match instance with
  | Some instance => reconnect_loop fuel instance 1%Z
  | None => initializeConnections
  end.

(** [Array.prototype.sort((a, b) => b.pagePool.length - a.pagePool.length)]:
    stable, fullest pool first. *)
Fixpoint insert_by_pool (x : BrowserInstance) (l : list BrowserInstance)
    : list BrowserInstance :=
  match l with
  | [] => [x]
  | y :: l' =>
      if Nat.ltb (List.length (pagePool x)) (List.length (pagePool y))
      then y :: insert_by_pool x l'
      else x :: l
  end.

Definition sort_by_pool (l : list BrowserInstance) : list BrowserInstance :=
  fold_right insert_by_pool [] l.

(** The [for (const instance of healthyInstances)] loop of
    [getAvailablePage].  The objects of the array are those of the registry,
    and nothing has written to [instance] since the array was built, so the
    page that [shift()] takes off the pool is the head seen in [instance]. *)
Fixpoint try_instances (l : list BrowserInstance) : M (option Page) :=
  match l with
  | [] =>
      log LogAllFailed ;;
      ret None
  | instance :: rest =>
      pooled <-
        match pagePool instance with
        | [] => ret None
        | page :: pool' =>
            modifyRegistry
              (update_instance (browser instance)
                 (fun i => set_pagePool (tl (pagePool i)) i)) ;;
            isPageAccessible <- validatePage page ;;
            if isPageAccessible then ret (Some page)
            else swallow (page_close page) ;; ret None
        end ;;
      match pooled with
      | Some page => ret (Some page)
      | None =>
          created <-
            try_catch
              (page <- createAndSecurePage (browser instance) (Some instance) ;;
               ret (Some page))
              (fun error =>
               log (LogCreateFailed (endpoint instance)) ;;
               modifyRegistry
                 (update_instance (browser instance) (set_healthy false)) ;;
               ret None) ;;
          match created with
          | Some page => ret (Some page)
          | None => try_instances rest
          end
      end
  end.

(** [None] is the source's [null]. *)
Definition getAvailablePage : M (option Page) :=
  r <- getRegistry ;;
  let healthyInstances := sort_by_pool (filter healthy (values r)) in
  if Nat.eqb (List.length healthyInstances) 0 then
    log LogNoHealthy ;;
    attemptRecovery 0 None ;;
    ret None
  else try_instances healthyInstances.

Definition returnPage (page : Page) : M unit :=
  instance <- findInstanceByPage page ;;
  match instance with
  | None => try_catch (page_close page) (fun error => log LogOrphanClose)
  | Some instance =>
      try_catch
        (if Nat.ltb (List.length (pagePool instance)) PAGE_POOL_SIZE then
           resetPage' <- resetPage page ;;
           modifyRegistry
             (update_instance (browser instance)
                (fun i => set_pagePool (pagePool i ++ [resetPage']) i))
         else swallow (page_close page))
        (fun error =>
         log LogReturnFailed ;;
         swallow (page_close page))
  end.

Definition checkBrowserHealth (fuel : nat) (instance : BrowserInstance)
    : M unit :=
  try_catch
    (connected <- browser_isConnected (browser instance) ;;
     (if connected then ret tt else throw BrowserDisconnected) ;;
     testPage <- createAndSecurePage (browser instance) (Some instance) ;;
     page_goto testPage None ;;
     page_close testPage ;;
     t <- now ;;
     modifyRegistry
       (update_instance (browser instance)
          (fun i => set_lastHealthCheck t (set_healthy true i))))
    (fun error =>
     modifyRegistry (update_instance (browser instance) (set_healthy false)) ;;
     log (LogUnhealthy (endpoint instance)) ;;
     attemptRecovery fuel (Some instance)).

(** The callback [startHealthChecks] hands to [setInterval]: a [for ... of]
    over the live [browserInstances.values()].  [k] is the place of the
    iterator.  An entry deleted and set again during its own check has moved
    to the end of the map, where the iterator will still reach it, and the
    entry that followed it now sits at [k]. *)
Fixpoint health_tick (fuel : nat) (k : nat) : M unit :=
  match fuel with
  | O => out_of_fuel
  | S fuel' =>
      r <- getRegistry ;;
      match nth_error (values r) k with
      | None => ret tt
      | Some instance =>
          checkBrowserHealth fuel' instance ;;
          r' <- getRegistry ;;
          let stayed := match nth_error (values r') k with
                        | Some i => Nat.eqb (browser i) (browser instance)
                        | None => false
                        end in
          health_tick fuel' (if stayed then S k else k)
      end
  end.

Definition healthCheckTick (fuel : nat) : M unit := health_tick fuel 0.

(** The loop of the [cleanup] handler of [setupProcessHandlers]. *)
Fixpoint cleanup_each (l : list BrowserInstance) : M unit :=
  match l with
  | [] => ret tt
  | instance :: rest =>
      try_catch
        (close_all (pagePool instance) ;;
         swallow (browser_close (browser instance)))
        (fun error => log LogCleanupError) ;;
      cleanup_each rest
  end.

Definition cleanup : M unit :=
  log LogCleanup ;;
  r <- getRegistry ;;
  cleanup_each (values r) ;;
  modifyRegistry (fun _ => []).

(** The object that [getMetrics] returns. *)
Module Metrics.
Record t := mk {
  totalInstances : nat;
  healthyInstances : nat;
  totalPages : nat;
  availablePages : nat
}.
End Metrics.

(** The body of the loop of [getMetrics]. *)
Definition count_instance (metrics : Metrics.t) (instance : BrowserInstance)
    : Metrics.t :=
  if healthy instance
  then Metrics.mk (Metrics.totalInstances metrics)
                  (S (Metrics.healthyInstances metrics))
                  (Metrics.totalPages metrics + PAGE_POOL_SIZE)
                  (Metrics.availablePages metrics
                   + List.length (pagePool instance))
  else metrics.

(** [Map.prototype.size] is the length of the list: [map_set] never adds a
    key that the registry already holds. *)
Definition getMetrics : M Metrics.t :=
  r <- getRegistry ;;
  ret (fold_left count_instance (values r)
                 (Metrics.mk (List.length r) 0 0 0)).

(** ** Calls that overlap

    A call runs alone until it reaches an [await] on a Playwright promise;
    while it waits there, other calls may run.  [returnPage] tests the length
    of the pool before [await this.resetPage(page)] and pushes after it, so
    what lies between matters: the definitions below cut [resetPage] and
    [returnPage] at that [await].  The outcome of the awaited call is drawn
    when the call resumes. *)

(** [resetPage] up to its first [await]: the lookup and the guard. *)
Definition resetPage_enter (page : Page) : M BrowserInstance :=
  instance <- findInstanceByPage page ;;
  match instance with
  | None => throw PageWithoutInstance
  | Some instance => ret instance
  end.

(** [resetPage] from [await page.goto(...)] on. *)
Definition resetPage_resume (page : Page) (instance : BrowserInstance)
    : M Page :=
  try_catch
    (page_goto page (Some 500%Z) ;;
     ret page)
    (fun error =>
     try_catch
       (swallow (page_close page) ;;
        createAndSecurePage (browser instance) (Some instance))
       (fun createError =>
        log LogResetCreateFailed ;;
        throw createError)).

(** Where a call of [returnPage] waits. *)
Inductive Pending :=
| ClosingOrphan (page : Page)     (* no owner: at [await page.close()] *)
| ClosingUnpooled (page : Page)   (* the pool was full: at [await page.close()] *)
| ClosingFailed (page : Page)     (* in the [catch]: at [await page.close()] *)
| Resetting (page : Page) (instance owner : BrowserInstance).
    (* the test passed; inside [resetPage], at [await page.goto(...)];
       [instance] is what [returnPage] found, [owner] what [resetPage] found *)

(** [returnPage] up to its first [await]. *)
Definition returnPage_enter (page : Page) : M Pending :=
  instance <- findInstanceByPage page ;;
  match instance with
  | None => ret (ClosingOrphan page)
  | Some instance =>
      if Nat.ltb (List.length (pagePool instance)) PAGE_POOL_SIZE then
        try_catch
          (owner <- resetPage_enter page ;;
           ret (Resetting page instance owner))
          (fun error =>
           log LogReturnFailed ;;
           ret (ClosingFailed page))
      else ret (ClosingUnpooled page)
  end.

(** [returnPage] from that [await] on. *)
Definition returnPage_resume (t : Pending) : M unit :=
  match t with
  | ClosingOrphan page =>
      try_catch (page_close page) (fun error => log LogOrphanClose)
  | ClosingUnpooled page => swallow (page_close page)
  | ClosingFailed page => swallow (page_close page)
  | Resetting page instance owner =>
      try_catch
        (resetPage' <- resetPage_resume page owner ;;
         modifyRegistry
           (update_instance (browser instance)
              (fun i => set_pagePool (pagePool i ++ [resetPage']) i)))
        (fun error =>
         log LogReturnFailed ;;
         swallow (page_close page))
  end.

(** Calls of [returnPage] for the pages of [l], started one after the other
    before any of them resumes, as when several requests finish while the
    browser is busy. *)
Fixpoint enter_each (l : list Page) : M (list Pending) :=
  match l with
  | [] => ret []
  | page :: rest =>
      t <- returnPage_enter page ;;
      ts <- enter_each rest ;;
      ret (t :: ts)
  end.

Fixpoint resume_each (ts : list Pending) : M unit :=
  match ts with
  | [] => ret tt
  | t :: rest => returnPage_resume t ;; resume_each rest
  end.

Definition overlapping_returns (l : list Page) : M unit :=
  ts <- enter_each l ;;
  resume_each ts.

(** * Derived definitions

    What the run equations and the statements below name: the worlds and
    states that a step leads to, readings of the trace, and example states. *)

(** ** Invariants and outcomes *)

(** [c] keeps the invariant [I], however it ends. *)
Definition preserves {A} (I : State -> Prop) (c : M A) : Prop :=
  forall s, I s -> I (snd (c s)).


(** An invariant of the registry alone. *)
Definition world_blind (I : State -> Prop) : Prop :=
  forall r w w', I (mkState r w) -> I (mkState r w').

(** ** The world after a call *)

(** The world after one fallible call. *)
Definition call_done (ev : bool -> Event) (w : World) : World :=
  record (ev (oracle w (calls w))) (count_call w).

(** The state [s] with the world replaced. *)
Definition with_world (s : State) (w : World) : State :=
  mkState (browserInstances s) w.

(** What Playwright knows of a page that [createAndSecurePage] has just
    made: open, with the dialog and popup handlers and the default timeout of
    [setupCoreSecurityControls]. *)
Definition new_secured_page : PageState :=
  mkPageState false true true (Some DEFAULT_PAGE_TIMEOUT).

(** The world after a successful [createAndSecurePage] on browser [b]. *)
Definition page_created (b : nat) (w : World) : World :=
  set_pages (pages w ++ [new_secured_page]) (call_done (ENewPage b) w).

(** ** The pool bound *)

(** Every pool of the registry holds at most [PAGE_POOL_SIZE] pages. *)
Definition pool_bounded (r : Registry) : Prop :=
  Forall (fun kv => List.length (pagePool (snd kv)) <= PAGE_POOL_SIZE) r.

Definition pools_bounded (s : State) : Prop :=
  pool_bounded (browserInstances s).

(** ** Reset and return *)

(** The world after [await page.close().catch(() => {})]. *)
Definition close_attempted (p : Page) (w : World) : World :=
  if oracle w (calls w)
  then set_pages (update_nth (pid p) mark_closed (pages w))
                 (call_done (EClosePage p) w)
  else call_done (EClosePage p) w.

(** What [findInstanceByPage] finds for [p] in registry [r]. *)
Definition owner_of (p : Page) (r : Registry) : option BrowserInstance :=
  find (fun instance => Nat.eqb (pbrowser p) (browser instance)) (values r).

(** The navigation of [resetPage]: about:blank, 500 ms. *)
Definition goto_blank (p : Page) : bool -> Event := EGoto p (Some 500%Z).

(** What [resetPage] does for a page whose instance is [instance]. *)
Definition reset_owned (p : Page) (instance : BrowserInstance) (s : State)
    : Outcome Page * State :=
  let w := world s in
  if oracle w (calls w)
  then (Ok p, with_world s (call_done (goto_blank p) w))
  else
    let w2 := close_attempted p (call_done (goto_blank p) w) in
    if oracle w2 (calls w2)
    then (Ok (mkPage (List.length (pages w2)) (browser instance)),
          with_world s (page_created (browser instance) w2))
    else (Throw (External (calls w2)),
          with_world s (record (ELog LogResetCreateFailed)
                          (call_done (ENewPage (browser instance)) w2))).

(** [instance.pagePool.push(page)] *)
Definition push_page (page : Page) (i : BrowserInstance) : BrowserInstance :=
  set_pagePool (pagePool i ++ [page]) i.

(** ** Connecting *)

(** The world after a successful [chromium.connect(e)]. *)
Definition browser_connected (e : string) (w : World) : World :=
  mkWorld (oracle w) (S (calls w)) (S (nextBrowser w)) (pages w) (clock w)
          (BROWSER_ENDPOINTS w) (trace w ++ [EConnect e true]).

(** The [catch] of [connectToBrowser]. *)
Definition connect_failed (e : string) (error : Error) (s : State)
    : Outcome unit * State :=
  match map_get e (browserInstances s) with
  | Some instance =>
      (Throw error,
       mkState (map_delete e (browserInstances s))
               (record (ELog (LogConnectFailed e))
                  (call_done (ECloseBrowser (browser instance)) (world s))))
  | None =>
      (Throw error, with_world s (record (ELog (LogConnectFailed e)) (world s)))
  end.

(** The instance [connectToBrowser] registers before it warms the pool. *)
Definition new_instance (e : string) (w : World) : BrowserInstance :=
  mkInstance (nextBrowser w) [] e true (clock w) None.

(** The endpoints under which the registry holds an instance, in order. *)
Definition keys (r : Registry) : list string := map fst r.

(** The pages a successful warm-up makes, in the order it pools them. *)
Definition warm_pages (w : World) : list Page :=
  map (fun k => mkPage (List.length (pages w) + k) (nextBrowser w))
      (seq 0 PAGE_POOL_SIZE).

(** ** Reading the trace *)

(** The events of a trace that [keep] retains, in order. *)
Fixpoint observe {X} (keep : Event -> option X) (l : list Event) : list X :=
  match l with
  | [] => []
  | ev :: l' =>
      match keep ev with
      | Some x => x :: observe keep l'
      | None => observe keep l'
      end
  end.

(** What [keep] retains of the trace of [s]. *)
Definition observed {X} (keep : Event -> option X) (s : State) : list X :=
  observe keep (trace (world s)).

(** [c] records nothing that [keep] retains. *)
Definition silent {X A} (keep : Event -> option X) (c : M A) : Prop :=
  forall L, preserves (fun s => observed keep s = L) c.

(** ** The backoff of the reconnection loop *)

Inductive Backoff :=
| FailedAttempt (attempt : Z)   (* the loop logged that attempt number [attempt] failed *)
| Slept (ms : Z).               (* the loop slept [ms] milliseconds *)

(** The failures and sleeps of the loop, as a trace shows them. *)
Definition keep_backoff (ev : Event) : option Backoff :=
  match ev with
  | ELog (LogReconnectFailed _ attempt _) => Some (FailedAttempt attempt)
  | ESleep ms => Some (Slept ms)
  | _ => None
  end.

(** The world after [pages.forEach((page) => page.close().catch(() => {}))]. *)
Fixpoint closing_all (l : list Page) (w : World) : World :=
  match l with
  | [] => w
  | p :: l' => closing_all l' (close_attempted p w)
  end.

(** The state in which a round of the loop calls [connectToBrowser]. *)
Definition torn_down (instance : BrowserInstance) (attempt : Z) (s : State)
    : State :=
  mkState (map_delete (endpoint instance) (browserInstances s))
          (call_done (ECloseBrowser (browser instance))
             (closing_all (pagePool instance)
                (record (ELog (LogReconnecting (endpoint instance) attempt))
                   (world s)))).

(** The world after the [catch] of a round: failure logged, delay slept. *)
Definition backing_off (e : string) (attempt : Z) (w : World) : World :=
  mkWorld (oracle w) (calls w) (nextBrowser w) (pages w)
          (clock w + reconnect_delay attempt) (BROWSER_ENDPOINTS w)
          ((trace w ++ [ELog (LogReconnectFailed e attempt (reconnect_delay attempt))])
             ++ [ESleep (reconnect_delay attempt)]).

(** What the loop leaves in the trace for failed attempt number [n]: the
    failure, then the sleep of the delay computed for [n]. *)
Definition backoff_round (n : Z) : list Backoff :=
  [FailedAttempt n;
   Slept (Z.min (INITIAL_RECONNECT_DELAY * 2 ^ (n - 1))
                (INITIAL_RECONNECT_DELAY * MAX_RECONNECT_MULTIPLIER))].

(** The attempt numbers [a], [a + 1], ..., [k] of them. *)
Fixpoint attempts_from (a : Z) (k : nat) : list Z :=
  match k with
  | O => []
  | S k' => a :: attempts_from (a + 1) k'
  end.

(** ** Checkout *)

(** The candidates of [getAvailablePage]. *)
Definition healthyInstances (s : State) : list BrowserInstance :=
  sort_by_pool (filter healthy (values (browserInstances s))).

(** [instance.pagePool.shift()], as a write to the instance. *)
Definition shift_pool (i : BrowserInstance) : BrowserInstance :=
  set_pagePool (tl (pagePool i)) i.

(** What a round of the loop does once the pool of [instance] gave no usable
    page: hand out a new page, or mark the instance and go on with [next]. *)
Definition create_or_next (instance : BrowserInstance)
    (next : M (option Page)) (s : State) : Outcome (option Page) * State :=
  let w := world s in
  if oracle w (calls w)
  then (Ok (Some (mkPage (List.length (pages w)) (browser instance))),
        with_world s (page_created (browser instance) w))
  else next (mkState
               (update_instance (browser instance) (set_healthy false)
                  (browserInstances s))
               (record (ELog (LogCreateFailed (endpoint instance)))
                  (call_done (ENewPage (browser instance)) w))).

(** ** Start-up *)

(** The endpoints the environment names. *)
Definition endpoints_of (w : World) : list string :=
  match BROWSER_ENDPOINTS w with
  | Some v => split_comma v
  | None => []
  end.

(** One round of the loop of [initializeConnections]. *)
Definition connect_or_log (e : string) : M unit :=
  try_catch (connectToBrowser e) (fun error => log (LogConnectFailed e)).

(** Whether each endpoint of [l], attempted in turn from [s], connected. *)
Fixpoint connect_results (l : list string) (s : State) : list bool :=
  match l with
  | [] => []
  | e :: l' =>
      match fst (connectToBrowser e s) with
      | Ok _ => true
      | _ => false
      end :: connect_results l' (snd (connect_or_log e s))
  end.

(** The connection attempts a trace shows, with their outcome. *)
Definition keep_connect (ev : Event) : option (string * bool) :=
  match ev with
  | EConnect e ok => Some (e, ok)
  | _ => None
  end.

(** ** A checkout that finds no page *)

(** The instance object built around browser [b], as the registry holds it. *)
Definition instance_at (b : nat) (r : Registry) : option BrowserInstance :=
  find (fun i => Nat.eqb (browser i) b) (values r).

(** The registry holds the instance around [b], marked unhealthy. *)
Definition marked_unhealthy (b : nat) (s : State) : Prop :=
  exists j, instance_at b (browserInstances s) = Some j /\ healthy j = false.

(** The registry holds the instance around [b]. *)
Definition registered (b : nat) (s : State) : Prop :=
  instance_at b (browserInstances s) <> None.

(** ** The health monitor *)

(** The connections whose browser a trace shows probed. *)
Definition keep_probe (ev : Event) : option nat :=
  match ev with
  | EIsConnected b _ => Some b
  | _ => None
  end.

(** ** A world that has stopped answering *)


(** [w'] is [w] some calls later. *)
Definition later (w w' : World) : Prop :=
  oracle w' = oracle w /\ calls w <= calls w'.

(** [c] does not run out of fuel. *)
Definition terminates {A} (c : M A) : Prop :=
  forall s, fst (c s) <> OutOfFuel.


(** ** Example states *)

(** Two browser servers. *)
Definition endpoint_a : string := "ws://a:53444/playwright".

Definition endpoint_b : string := "ws://b:53444/playwright".

(** A fresh process whose environment names [endpoints], talking to a world
    that answers its calls as [o] says. *)
Definition fresh_process (o : nat -> bool) (endpoints : option string) : State :=
  mkState [] (mkWorld o 0 0 [] 0 endpoints []).

(** One endpoint, everything works: after start-up the registry holds one
    instance with ten pooled pages. *)
Definition started : State :=
  snd (initializeConnections (fresh_process (fun _ => true) (Some endpoint_a))).

(** The same start-up (one [connect], ten [newPage]), after which every call
    into the browser fails. *)
Definition started_then_dead : State :=
  snd (initializeConnections
         (fresh_process (fun n => Nat.ltb n 11) (Some endpoint_a))).

(** The first instance of the registry of [s]. *)
Definition first_instance (s : State) : BrowserInstance :=
  hd (mkInstance 0 [] endpoint_a false 0 None) (values (browserInstances s)).

(** The page that the first checkout after start-up hands out. *)
Definition first_page : Page := mkPage 0 0.

(** The process right after its first checkout, talking to a browser whose
    next call (the navigation of a reset) will fail. *)
Definition checked_out : State :=
  snd ((initializeConnections ;; getAvailablePage)
         (fresh_process (fun n => negb (Nat.eqb n 12)) (Some endpoint_a))).

(** [n] checkouts in a row. *)
Fixpoint checkouts (n : nat) : M unit :=
  match n with
  | O => ret tt
  | S n' => getAvailablePage ;; checkouts n'
  end.

(** [returnPage] on each page of [l] in turn. *)
Fixpoint returns (l : list Page) : M unit :=
  match l with
  | [] => ret tt
  | p :: l' => returnPage p ;; returns l'
  end.

(** Eleven checkouts from one instance (the eleventh page is made on demand),
    then the ten pooled pages returned: the pool is full again and the
    eleventh page is still out. *)
Definition pool_full_one_out : State :=
  snd ((initializeConnections ;;
        checkouts 11 ;;
        returns (map (fun k => mkPage k 0) (seq 0 10)))
         (fresh_process (fun _ => true) (Some endpoint_a))).

(** The page still out in [pool_full_one_out]. *)
Definition eleventh_page : Page := mkPage 10 0.


(** The process of [started_then_dead] after a checkout that found no page. *)
Definition exhausted : State := snd (getAvailablePage started_then_dead).


(** Whether a string holds a comma. *)
Definition has_comma (s : string) : bool :=
  existsb (Ascii.eqb ","%char) (list_ascii_of_string s).

(** The order of the comparator of [getAvailablePage]: [a] may come before
    [b] when the pool of [a] is at least as full. *)
Definition at_least_as_full (a b : BrowserInstance) : Prop :=
  List.length (pagePool b) <= List.length (pagePool a).

(** Whether the pool of [i] holds exactly [n] pages. *)
Definition pool_has (n : nat) (i : BrowserInstance) : bool :=
  Nat.eqb (List.length (pagePool i)) n.

(** ** Shutdown *)

(** What [cleanup] asks Playwright to close. *)
Inductive Closing :=
| ClosingPage (p : Page)
| ClosingBrowser (b : nat).

(** The close calls of a trace, whatever their outcome. *)
Definition keep_closing (ev : Event) : option Closing :=
  match ev with
  | EClosePage p _ => Some (ClosingPage p)
  | ECloseBrowser b _ => Some (ClosingBrowser b)
  | _ => None
  end.

(** The close calls that one instance takes: its pooled pages in pool
    order, then its browser. *)
Definition closings_of (instance : BrowserInstance) : list Closing :=
  map ClosingPage (pagePool instance) ++ [ClosingBrowser (browser instance)].

(** The error line of the [catch] of [cleanup]. *)
Definition keep_cleanup_error (ev : Event) : option unit :=
  match ev with
  | ELog LogCleanupError => Some tt
  | _ => None
  end.

(** Every call from now on succeeds. *)
Definition answering (w : World) : Prop :=
  forall m, calls w <= m -> oracle w m = true.

(** The world after the [try] block of [cleanup] for one instance, and for
    a list of them. *)
Definition shut_down (instance : BrowserInstance) (w : World) : World :=
  call_done (ECloseBrowser (browser instance))
            (closing_all (pagePool instance) w).

Fixpoint shut_down_all (l : list BrowserInstance) (w : World) : World :=
  match l with
  | [] => w
  | instance :: rest => shut_down_all rest (shut_down instance w)
  end.

(** ** Metrics *)

(** The pages in the pools of the healthy instances among [l]. *)
Definition pooled_in_healthy (l : list BrowserInstance) : nat :=
  list_sum (map (fun i => List.length (pagePool i)) (filter healthy l)).

(** ** A coherent registry *)

(** Every page in the pool of [i] was made by the browser of [i]. *)
Definition pool_owned (i : BrowserInstance) : Prop :=
  Forall (fun p => pbrowser p = browser i) (pagePool i).

(** An entry sits under the endpoint its instance was connected to, and the
    instance pools its own pages only. *)
Definition entry_coherent (kv : string * BrowserInstance) : Prop :=
  endpoint (snd kv) = fst kv /\ pool_owned (snd kv).

(** No endpoint is registered twice, and every entry is coherent. *)
Definition registry_coherent (r : Registry) : Prop :=
  NoDup (keys r) /\ Forall entry_coherent r.

Definition coherent (s : State) : Prop := registry_coherent (browserInstances s).

(** ** A connection that fails *)

(** The browser that the [catch] of [connectToBrowser e] closes: the one
    just connected, if the connection was made; otherwise the one registered
    under [e] before the call, if any. *)
Definition closed_on_failure (e : string) (s : State) : option nat :=
  if oracle (world s) (calls (world s)) then Some (nextBrowser (world s))
  else option_map browser (map_get e (browserInstances s)).

(** ** Checking a page out and returning it *)

(** No two registered instances hold the same browser. *)
Definition distinct_browsers (s : State) : Prop :=
  NoDup (map browser (values (browserInstances s))).

(** Two endpoints, everything works; after start-up one page has been
    checked out, so the first instance pools nine pages and the second
    ten. *)
Definition one_out_of_two : State :=
  snd ((initializeConnections ;; getAvailablePage)
         (fresh_process (fun _ => true)
            (Some (endpoint_a ++ "," ++ endpoint_b)%string))).

(** ** A health check that finds the browser well *)

(** What a successful health check writes to the instance. *)
Definition revive (t : Z) (i : BrowserInstance) : BrowserInstance :=
  set_lastHealthCheck t (set_healthy true i).

(** The test page of a health check of [instance] started in world [w]. *)
Definition test_page (instance : BrowserInstance) (w : World) : Page :=
  mkPage (List.length (pages w)) (browser instance).

(** The world after a probe of [instance] all of whose calls succeeded:
    asked whether connected, test page made, navigated, closed. *)
Definition probed (instance : BrowserInstance) (w : World) : World :=
  close_attempted (test_page instance w)
    (call_done (EGoto (test_page instance w) None)
       (page_created (browser instance)
          (call_done (EIsConnected (browser instance)) w))).

(** The next [n] calls succeed. *)
Definition answers (n : nat) (w : World) : Prop :=
  forall m, calls w <= m < calls w + n -> oracle w m = true.
(** The registry after the instances around the browsers [bs] have been
    found well at time [t], one after the other. *)
Definition revive_each (t : Z) (bs : list nat) (r : Registry) : Registry :=
  fold_left (fun r' b => update_instance b (revive t) r') bs r.

(** The browsers of the registered instances, in registry order. *)
Definition browsers (r : Registry) : list nat := map browser (values r).

(** One endpoint; after start-up a checkout finds the browser failing (the
    validation of the pooled page and the creation of a new one both fail)
    and marks the instance unhealthy; from then on the browser answers. *)
Definition marked_then_well : State :=
  snd ((initializeConnections ;; getAvailablePage)
         (fresh_process (fun n => negb (Nat.eqb n 11 || Nat.eqb n 13))
            (Some endpoint_a))).

(** ** Secured pages *)

(** A page with the handlers and the default timeout that
    [setupCoreSecurityControls] installs. *)
Definition secured (ps : PageState) : Prop :=
  dismissesDialogs ps = true /\ closesPopups ps = true /\
  defaultTimeout ps = Some DEFAULT_PAGE_TIMEOUT.

(** Every page that Playwright holds for the manager is secured. *)
Definition all_secured (s : State) : Prop := Forall secured (pages (world s)).

(** ** What a checkout leaves of the registry *)

(** [i] is [i0] after pages were taken off the front of its pool and,
    possibly, its health flag was lowered. *)
Definition taken_from (i0 i : BrowserInstance) : Prop :=
  browser i = browser i0 /\ endpoint i = endpoint i0 /\
  lastHealthCheck i = lastHealthCheck i0 /\
  (healthy i = true -> healthy i0 = true) /\
  exists k, pagePool i = skipn k (pagePool i0).

(** [r] is [r0], entry by entry, after such changes. *)
Definition only_taken (r0 r : Registry) : Prop :=
  Forall2 (fun kv0 kv => fst kv = fst kv0 /\ taken_from (snd kv0) (snd kv)) r0 r.

(** ** Returns that overlap *)

(** One endpoint, everything works; after start-up eleven pages have been
    checked out (the eleventh made on demand): the pool is empty. *)
Definition all_out : State :=
  snd ((initializeConnections ;; checkouts 11)
         (fresh_process (fun _ => true) (Some endpoint_a))).

(** The eleven pages that are out in [all_out]. *)
Definition pages_out : list Page := map (fun k => mkPage k 0) (seq 0 11).

(** The lengths of the registered pools, in registry order. *)
Definition pool_lengths (s : State) : list nat :=
  map (fun i => List.length (pagePool i)) (values (browserInstances s)).

(** The process of [pool_full_one_out], talking to a browser that will
    reject the next call (call number 32). *)
Definition pool_full_close_refused : State :=
  snd ((initializeConnections ;;
        checkouts 11 ;;
        returns (map (fun k => mkPage k 0) (seq 0 10)))
         (fresh_process (fun n => negb (Nat.eqb n 32)) (Some endpoint_a))).

(** ** Registered and configured endpoints *)


(** [c] keeps every property of the world that recording an event, counting
    a call, changing the page table, numbering a new browser and letting time
    pass keep. *)
Definition world_kept {A} (c : M A) : Prop :=
  forall Q : World -> Prop,
    (forall ev w, Q w -> Q (record ev w)) ->
    (forall w, Q w -> Q (count_call w)) ->
    (forall ps w, Q w -> Q (set_pages ps w)) ->
    (forall w, Q w -> Q (mkWorld (oracle w) (calls w) (S (nextBrowser w))
                                 (pages w) (clock w) (BROWSER_ENDPOINTS w)
                                 (trace w))) ->
    (forall ms w, Q w -> Q (mkWorld (oracle w) (calls w) (nextBrowser w)
                                    (pages w) (clock w + ms)
                                    (BROWSER_ENDPOINTS w)
                                    (trace w ++ [ESleep ms]))) ->
    preserves (fun s => Q (world s)) c.


(** ** A tick that returns *)



(** * Reasoning about runs *)

(** ** Invariants and outcomes of composed computations *)

Section Combinators.
Context {A B : Type}.
Variable I : State -> Prop.

Lemma preserves_ret (a : A) : preserves I (ret a).
Proof. intros s H; exact H. Qed.

Lemma preserves_throw (e : Error) : preserves I (@throw A e).
Proof. intros s H; exact H. Qed.

Lemma preserves_out_of_fuel : preserves I (@out_of_fuel A).
Proof. intros s H; exact H. Qed.

Lemma preserves_bind (c : M A) (k : A -> M B) :
  preserves I c -> (forall a, preserves I (k a)) -> preserves I (bind c k).
Proof.
  intros Hc Hk s Hs. unfold bind.
  specialize (Hc s Hs). destruct (c s) as [[a | e |] s']; simpl in *; auto.
  apply Hk; assumption.
Qed.

(** The same when the continuation needs to know something of the value. *)
Lemma preserves_bind_val (V : A -> Prop) (c : M A) (k : A -> M B) :
  preserves I c ->
  (forall s a, fst (c s) = Ok a -> V a) ->
  (forall a, V a -> preserves I (k a)) ->
  preserves I (bind c k).
Proof.
  intros Hc Hv Hk s Hs. unfold bind.
  specialize (Hc s Hs). specialize (Hv s).
  destruct (c s) as [[a | e |] s']; simpl in *; auto.
  apply (Hk a); auto.
Qed.

Lemma preserves_try_catch (c : M A) (h : Error -> M A) :
  preserves I c -> (forall e, preserves I (h e)) -> preserves I (try_catch c h).
Proof.
  intros Hc Hh s Hs. unfold try_catch.
  specialize (Hc s Hs). destruct (c s) as [[a | e |] s']; simpl in *; auto.
  apply Hh; assumption.
Qed.


End Combinators.

Lemma preserves_getRegistry I : preserves I getRegistry.
Proof. intros s H; exact H. Qed.

Lemma preserves_getWorld I : preserves I getWorld.
Proof. intros s H; exact H. Qed.

Lemma preserves_swallow I (c : M unit) : preserves I c -> preserves I (swallow c).
Proof. intro H. apply preserves_try_catch; [exact H | intro; apply preserves_ret]. Qed.




(** Takes a computation apart along its binds, handlers and branches; [tac]
    closes what is left of it. *)
Ltac preserving tac :=
  repeat first
    [ apply preserves_ret | apply preserves_throw | apply preserves_out_of_fuel
    | apply preserves_getRegistry | apply preserves_getWorld
    | match goal with
      | |- preserves _ (bind _ _) => apply preserves_bind; [ | intro ]
      | |- preserves _ (try_catch _ _) => apply preserves_try_catch; [ | intro ]
      | |- preserves _ (swallow _) => apply preserves_swallow
      | |- preserves _ (if ?b then _ else _) => destruct b
      | |- preserves _ (match ?x with _ => _ end) => destruct x
      end
    | progress cbv zeta
    | tac ].

(** ** Computations that only talk to the outside world *)

Section WorldOnly.
Variable I : State -> Prop.
Hypothesis blind : world_blind I.

Lemma preserves_modifyWorld f : preserves I (modifyWorld f).
Proof. intros [r w] H. simpl. eapply blind; exact H. Qed.

Ltac world_only :=
  preserving ltac:(first [ apply preserves_modifyWorld | assumption ]).

Lemma preserves_log l : preserves I (log l).
Proof. apply preserves_modifyWorld. Qed.

Lemma preserves_sleep ms : preserves I (sleep ms).
Proof. apply preserves_modifyWorld. Qed.


Lemma preserves_external ev : preserves I (external ev).
Proof. unfold external. world_only. Qed.

Lemma preserves_chromium_connect e : preserves I (chromium_connect e).
Proof. unfold chromium_connect. world_only. apply preserves_external. Qed.

Lemma preserves_browser_close b : preserves I (browser_close b).
Proof. apply preserves_external. Qed.

Lemma preserves_browser_isConnected b : preserves I (browser_isConnected b).
Proof. unfold browser_isConnected. world_only. Qed.


Lemma preserves_page_close p : preserves I (page_close p).
Proof. unfold page_close. world_only. apply preserves_external. Qed.

Lemma preserves_createAndSecurePage b i : preserves I (createAndSecurePage b i).
Proof.
  unfold createAndSecurePage, createBasePage, browser_newPage,
    setupCoreSecurityControls.
  world_only. apply preserves_external.
Qed.

Lemma preserves_validatePage p : preserves I (validatePage p).
Proof.
  unfold validatePage, page_isClosed, page_evaluate.
  world_only. apply preserves_external.
Qed.

Lemma preserves_close_all l : preserves I (close_all l).
Proof.
  induction l as [| p l IH]; simpl; world_only.
  apply preserves_page_close.
Qed.

Lemma preserves_warm_pool n b i : forall pool, preserves I (warm_pool n b i pool).
Proof.
  induction n as [| n IH]; intro pool; simpl; world_only.
  - apply preserves_createAndSecurePage.
  - apply IH.
Qed.

Lemma preserves_getEndpoints : preserves I getEndpoints.
Proof. unfold getEndpoints. world_only. Qed.


End WorldOnly.

(** ** Run equations of the small operations *)

Lemma external_run ev s :
  external ev s =
  (if oracle (world s) (calls (world s)) then Ok tt
   else Throw (External (calls (world s))),
   with_world s (call_done ev (world s))).
Proof.
  unfold external, bind, getWorld, modifyWorld, ret, throw, with_world, call_done.
  simpl. destruct (oracle (world s) (calls (world s))); reflexivity.
Qed.

Lemma update_nth_last {A} (f : A -> A) (l : list A) (x : A) :
  update_nth (List.length l) f (l ++ [x]) = l ++ [f x].
Proof. induction l as [| y l IH]; simpl; [reflexivity | now rewrite IH]. Qed.

Lemma createAndSecurePage_run b i s :
  createAndSecurePage b (Some i) s =
  if oracle (world s) (calls (world s))
  then (Ok (mkPage (List.length (pages (world s))) b),
        with_world s (page_created b (world s)))
  else (Throw (External (calls (world s))),
        with_world s (call_done (ENewPage b) (world s))).
Proof.
  unfold createAndSecurePage, createBasePage, browser_newPage,
    setupCoreSecurityControls, bind.
  rewrite external_run.
  unfold getWorld, modifyWorld, ret, with_world, page_created, call_done.
  destruct (oracle (world s) (calls (world s))); simpl; [| reflexivity].
  rewrite update_nth_last. reflexivity.
Qed.

Lemma page_close_run p s :
  page_close p s =
  if oracle (world s) (calls (world s))
  then (Ok tt,
        with_world s
          (set_pages (update_nth (pid p) mark_closed (pages (world s)))
                     (call_done (EClosePage p) (world s))))
  else (Throw (External (calls (world s))),
        with_world s (call_done (EClosePage p) (world s))).
Proof.
  unfold page_close, bind. rewrite external_run.
  unfold modifyWorld, with_world, call_done.
  destruct (oracle (world s) (calls (world s))); reflexivity.
Qed.

Lemma validatePage_run p s :
  validatePage p s =
  if isClosed (world s) p then (Ok false, s)
  else (Ok (oracle (world s) (calls (world s))),
        with_world s (call_done (EEvaluate p) (world s))).
Proof.
  unfold validatePage, page_isClosed, page_evaluate, try_catch, bind, getWorld.
  unfold ret at 1. simpl.
  destruct (isClosed (world s) p); [reflexivity |].
  rewrite external_run.
  destruct (oracle (world s) (calls (world s))); reflexivity.
Qed.

Lemma findInstanceByPage_run p s :
  findInstanceByPage p s =
  (Ok (find (fun instance => Nat.eqb (pbrowser p) (browser instance))
            (values (browserInstances s))), s).
Proof. reflexivity. Qed.

(** ** The pool bound *)

Lemma pools_bounded_blind : world_blind pools_bounded.
Proof. intros r w w' H; exact H. Qed.

Lemma preserves_modifyRegistry (P : Registry -> Prop) f :
  (forall r, P r -> P (f r)) ->
  preserves (fun s => P (browserInstances s)) (modifyRegistry f).
Proof. intros H s Hs. simpl. auto. Qed.

Lemma pool_bounded_map_set e i r :
  List.length (pagePool i) <= PAGE_POOL_SIZE ->
  pool_bounded r -> pool_bounded (map_set e i r).
Proof.
  intros Hi Hr. induction Hr as [| kv r Hkv Hr IH]; simpl.
  - constructor; [exact Hi | constructor].
  - destruct (String.eqb (fst kv) e); constructor; auto.
Qed.

Lemma pool_bounded_map_delete e r :
  pool_bounded r -> pool_bounded (map_delete e r).
Proof.
  intro Hr. induction Hr as [| kv r Hkv Hr IH]; simpl; [constructor |].
  destruct (negb (String.eqb (fst kv) e)); [constructor |]; auto.
Qed.

Lemma pool_bounded_update b f r :
  (forall i, List.length (pagePool i) <= PAGE_POOL_SIZE ->
             List.length (pagePool (f i)) <= PAGE_POOL_SIZE) ->
  pool_bounded r -> pool_bounded (update_instance b f r).
Proof.
  intros Hf Hr. induction Hr as [| kv r Hkv Hr IH]; simpl; [constructor |].
  destruct (Nat.eqb (browser (snd kv)) b); constructor; simpl; auto.
Qed.

(** The push of [returnPage] lands on the very instance whose pool length it
    tested. *)
Lemma pool_bounded_push p page' instance r :
  find (fun i => Nat.eqb (pbrowser p) (browser i)) (values r) = Some instance ->
  List.length (pagePool instance) < PAGE_POOL_SIZE ->
  pool_bounded r ->
  pool_bounded
    (update_instance (browser instance)
       (fun i => set_pagePool (pagePool i ++ [page']) i) r).
Proof.
  intros Hfind Hlt Hr. induction Hr as [| kv r Hkv Hr IH]; simpl in *.
  - discriminate.
  - destruct (Nat.eqb (pbrowser p) (browser (snd kv))) eqn:Hp.
    + injection Hfind as <-. rewrite Nat.eqb_refl.
      constructor; [| exact Hr]. simpl. rewrite length_app. simpl. lia.
    + destruct (Nat.eqb (browser (snd kv)) (browser instance)) eqn:Hb.
      * apply Nat.eqb_eq in Hb.
        assert (Hin : Nat.eqb (pbrowser p) (browser instance) = true).
        { apply find_some in Hfind. apply Hfind. }
        rewrite <- Hb in Hin. congruence.
      * constructor; [exact Hkv | exact (IH Hfind)].
Qed.

Lemma tl_length_le {A} (l : list A) n : List.length l <= n -> List.length (tl l) <= n.
Proof. destruct l; simpl; lia. Qed.

(** The warm-up loop gives back [n] more pages than it was given, all new. *)
Lemma warm_pool_pages n b i : forall pool s pool',
  fst (warm_pool n b i pool s) = Ok pool' ->
  pool' = pool ++ map (fun k => mkPage (List.length (pages (world s)) + k) b) (seq 0 n)
  /\ List.length (pages (world (snd (warm_pool n b i pool s))))
     = List.length (pages (world s)) + n
  /\ nextBrowser (world (snd (warm_pool n b i pool s))) = nextBrowser (world s)
  /\ browserInstances (snd (warm_pool n b i pool s)) = browserInstances s.
Proof.
  induction n as [| n IH]; intros pool s pool'; simpl.
  - intro H. injection H as <-. rewrite app_nil_r. repeat split; lia.
  - unfold bind at 1 2 3 4. rewrite createAndSecurePage_run.
    destruct (oracle (world s) (calls (world s))); [| discriminate].
    intro H. apply IH in H. destruct H as (Hp & Hlen & Hnb & Hreg).
    rewrite Hlen, Hnb, Hreg. simpl in *.
    rewrite length_app in *. simpl in *.
    repeat split; try lia.
    rewrite Hp, <- app_assoc. f_equal. simpl. f_equal.
    + f_equal. lia.
    + rewrite <- seq_shift, map_map. apply map_ext. intro k. f_equal. lia.
Qed.

Lemma warm_pool_length n b i pool s pool' :
  fst (warm_pool n b i pool s) = Ok pool' ->
  List.length pool' = List.length pool + n.
Proof.
  intro H. apply warm_pool_pages in H. destruct H as (-> & _).
  rewrite length_app, length_map, length_seq. reflexivity.
Qed.

Ltac bounded :=
  preserving ltac:(first
    [ apply preserves_modifyWorld; exact pools_bounded_blind
    | apply preserves_external; exact pools_bounded_blind
    | apply preserves_chromium_connect; exact pools_bounded_blind
    | apply preserves_createAndSecurePage; exact pools_bounded_blind
    | apply preserves_validatePage; exact pools_bounded_blind
    | apply preserves_page_close; exact pools_bounded_blind
    | apply preserves_close_all; exact pools_bounded_blind
    | apply preserves_getEndpoints; exact pools_bounded_blind
    | apply preserves_browser_isConnected; exact pools_bounded_blind
    | assumption ]).

Lemma connectToBrowser_bounded e : preserves pools_bounded (connectToBrowser e).
Proof.
  unfold connectToBrowser. apply preserves_try_catch.
  - apply preserves_bind; [bounded | intro b].
    apply preserves_bind; [bounded | intro t].
    apply preserves_bind.
    { apply (preserves_modifyRegistry pool_bounded).
      intros r Hr. apply pool_bounded_map_set; [simpl; unfold PAGE_POOL_SIZE; lia | exact Hr]. }
    intros _.
    apply preserves_bind_val with (V := fun pool => List.length pool = PAGE_POOL_SIZE).
    + apply preserves_warm_pool. exact pools_bounded_blind.
    + intros s pool H. apply warm_pool_length in H. exact H.
    + intros pool Hpool. apply preserves_bind; [| intro; bounded].
      apply (preserves_modifyRegistry pool_bounded).
      intros r Hr. apply pool_bounded_update; [| exact Hr].
      intros i _. simpl. lia.
  - intro error. bounded.
    apply (preserves_modifyRegistry pool_bounded).
    intros r Hr. apply pool_bounded_map_delete. exact Hr.
Qed.

Lemma connect_each_bounded l : preserves pools_bounded (connect_each l).
Proof.
  induction l as [| e l IH]; simpl; bounded.
  apply connectToBrowser_bounded.
Qed.

Lemma initializeConnections_bounded : preserves pools_bounded initializeConnections.
Proof.
  unfold initializeConnections. bounded. apply connect_each_bounded.
Qed.

Lemma reconnect_loop_bounded fuel instance :
  forall attempt, preserves pools_bounded (reconnect_loop fuel instance attempt).
Proof.
  induction fuel as [| fuel IH]; intro attempt; simpl; unfold reconnect_once;
    bounded.
  - apply (preserves_modifyRegistry pool_bounded).
    intros r Hr. apply pool_bounded_map_delete. exact Hr.
  - apply connectToBrowser_bounded.
  - apply IH.
Qed.

Lemma attemptRecovery_bounded fuel instance :
  preserves pools_bounded (attemptRecovery fuel instance).
Proof.
  destruct instance as [instance |]; simpl.
  - apply reconnect_loop_bounded.
  - apply initializeConnections_bounded.
Qed.

Lemma set_healthy_bounded b h r :
  pool_bounded r -> pool_bounded (update_instance b (set_healthy h) r).
Proof. apply pool_bounded_update. intros i H; exact H. Qed.

Lemma try_instances_bounded l : preserves pools_bounded (try_instances l).
Proof.
  induction l as [| instance l IH]; simpl; bounded.
  - apply (preserves_modifyRegistry pool_bounded).
    intros r Hr. apply pool_bounded_update; [| exact Hr].
    intros i Hi. simpl. apply tl_length_le. exact Hi.
  - apply (preserves_modifyRegistry pool_bounded).
    intros r Hr. apply set_healthy_bounded. exact Hr.
Qed.

Lemma getAvailablePage_bounded : preserves pools_bounded getAvailablePage.
Proof.
  unfold getAvailablePage. bounded.
  - apply initializeConnections_bounded.
  - apply try_instances_bounded.
Qed.

(** ** Run equations of [resetPage] and [returnPage] *)

Lemma swallow_page_close_run p s :
  swallow (page_close p) s = (Ok tt, with_world s (close_attempted p (world s))).
Proof.
  unfold swallow, try_catch, close_attempted. rewrite page_close_run.
  destruct (oracle (world s) (calls (world s))); reflexivity.
Qed.

Lemma resetPage_run p s :
  resetPage p s =
  match owner_of p (browserInstances s) with
  | None => (Throw PageWithoutInstance, s)
  | Some instance => reset_owned p instance s
  end.
Proof.
  unfold resetPage, bind at 1. rewrite findInstanceByPage_run.
  fold (owner_of p (browserInstances s)).
  destruct (owner_of p (browserInstances s)) as [instance |]; [| reflexivity].
  unfold reset_owned, try_catch at 1, bind at 1, page_goto.
  rewrite external_run. fold (goto_blank p).
  destruct (oracle (world s) (calls (world s))); [reflexivity |].
  unfold try_catch, bind. rewrite swallow_page_close_run.
  rewrite createAndSecurePage_run. simpl.
  match goal with |- context [oracle ?w (calls ?w)] =>
    lazymatch w with close_attempted _ _ => destruct (oracle w (calls w)) end
  end; reflexivity.
Qed.

Lemma returnPage_run p s :
  returnPage p s =
  match owner_of p (browserInstances s) with
  | None =>
      (Ok tt,
       with_world s
         (if oracle (world s) (calls (world s))
          then close_attempted p (world s)
          else record (ELog LogOrphanClose) (close_attempted p (world s))))
  | Some instance =>
      if Nat.ltb (List.length (pagePool instance)) PAGE_POOL_SIZE then
        match reset_owned p instance s with
        | (Ok page', s1) =>
            (Ok tt,
             mkState (update_instance (browser instance) (push_page page')
                        (browserInstances s1))
                     (world s1))
        | (Throw e, s1) =>
            (Ok tt,
             with_world s1
               (close_attempted p (record (ELog LogReturnFailed) (world s1))))
        | (OutOfFuel, s1) => (OutOfFuel, s1)
        end
      else (Ok tt, with_world s (close_attempted p (world s)))
  end.
Proof.
  unfold returnPage, bind at 1. rewrite findInstanceByPage_run.
  fold (owner_of p (browserInstances s)).
  destruct (owner_of p (browserInstances s)) as [instance |] eqn:Howner.
  - destruct (Nat.ltb (List.length (pagePool instance)) PAGE_POOL_SIZE).
    + unfold try_catch at 1, bind at 1. rewrite resetPage_run, Howner.
      destruct (reset_owned p instance s) as [[page' | e |] s1]; try reflexivity.
      unfold bind, log, emit. simpl. rewrite swallow_page_close_run. reflexivity.
    + unfold try_catch. rewrite swallow_page_close_run. reflexivity.
  - unfold try_catch, close_attempted. rewrite page_close_run.
    destruct (oracle (world s) (calls (world s))); reflexivity.
Qed.

Lemma reset_owned_registry p instance s :
  browserInstances (snd (reset_owned p instance s)) = browserInstances s.
Proof.
  unfold reset_owned.
  repeat match goal with |- context [if ?c then _ else _] => destruct c end;
    reflexivity.
Qed.

Lemma reset_owned_terminates p instance s :
  fst (reset_owned p instance s) <> OutOfFuel.
Proof.
  unfold reset_owned.
  repeat match goal with |- context [if ?c then _ else _] => destruct c end;
    discriminate.
Qed.

(** [returnPage] never lets an exception out, and changes the registry in one
    way only: by pushing one page onto the pool of the owning instance, which
    then had room. *)
Lemma returnPage_effect p s :
  fst (returnPage p s) = Ok tt /\
  (browserInstances (snd (returnPage p s)) = browserInstances s \/
   exists instance page',
     owner_of p (browserInstances s) = Some instance /\
     List.length (pagePool instance) < PAGE_POOL_SIZE /\
     fst (resetPage p s) = Ok page' /\
     browserInstances (snd (returnPage p s))
     = update_instance (browser instance) (push_page page') (browserInstances s)).
Proof.
  rewrite returnPage_run, resetPage_run.
  destruct (owner_of p (browserInstances s)) as [instance |] eqn:Howner.
  - destruct (Nat.ltb (List.length (pagePool instance)) PAGE_POOL_SIZE) eqn:Hlt.
    + pose proof (reset_owned_registry p instance s) as Hreg.
      pose proof (reset_owned_terminates p instance s) as Hterm.
      destruct (reset_owned p instance s) as [[page' | e |] s1]; simpl in *.
      * split; [reflexivity |]. right. exists instance, page'.
        apply Nat.ltb_lt in Hlt. rewrite Hreg. auto.
      * split; [reflexivity |]. left. exact Hreg.
      * congruence.
    + split; [reflexivity |]. left. reflexivity.
  - split; [reflexivity |]. left. reflexivity.
Qed.

Lemma returnPage_bounded p : preserves pools_bounded (returnPage p).
Proof.
  intros s Hs. unfold pools_bounded in *.
  destruct (returnPage_effect p s) as [_ [-> | (instance & page' & Ho & Hlt & _ & ->)]].
  - exact Hs.
  - eapply pool_bounded_push; eauto.
Qed.

Lemma checkBrowserHealth_bounded fuel instance :
  preserves pools_bounded (checkBrowserHealth fuel instance).
Proof.
  unfold checkBrowserHealth. bounded.
  - apply (preserves_modifyRegistry pool_bounded).
    intros r Hr. apply pool_bounded_update; [| exact Hr]. intros i Hi; exact Hi.
  - apply (preserves_modifyRegistry pool_bounded).
    intros r Hr. apply set_healthy_bounded. exact Hr.
  - apply attemptRecovery_bounded.
Qed.

Lemma health_tick_bounded fuel : forall k, preserves pools_bounded (health_tick fuel k).
Proof.
  induction fuel as [| fuel IH]; intro k; simpl; bounded.
  - apply checkBrowserHealth_bounded.
  - apply IH.
Qed.

Lemma cleanup_each_bounded l : preserves pools_bounded (cleanup_each l).
Proof. induction l as [| i l IH]; simpl; bounded. Qed.

Lemma cleanup_bounded : preserves pools_bounded cleanup.
Proof.
  unfold cleanup. bounded.
  - apply cleanup_each_bounded.
  - apply (preserves_modifyRegistry pool_bounded). intros r _. constructor.
Qed.

(** ** Run equation of [connectToBrowser] *)

Lemma chromium_connect_run e s :
  chromium_connect e s =
  if oracle (world s) (calls (world s))
  then (Ok (nextBrowser (world s)), with_world s (browser_connected e (world s)))
  else (Throw (External (calls (world s))),
        with_world s (call_done (EConnect e) (world s))).
Proof.
  unfold chromium_connect, bind. rewrite external_run.
  unfold getWorld, modifyWorld, ret, with_world, call_done, browser_connected,
    record, count_call.
  destruct (oracle (world s) (calls (world s))) eqn:Ho; simpl; rewrite ?Ho;
    reflexivity.
Qed.

Lemma swallow_browser_close_run b s :
  swallow (browser_close b) s
  = (Ok tt, with_world s (call_done (ECloseBrowser b) (world s))).
Proof.
  unfold swallow, try_catch, browser_close. rewrite external_run.
  destruct (oracle (world s) (calls (world s))); reflexivity.
Qed.

Lemma connectToBrowser_run e s :
  connectToBrowser e s =
  let w := world s in
  if oracle w (calls w) then
    match warm_pool PAGE_POOL_SIZE (nextBrowser w) (new_instance e w) []
            (mkState (map_set e (new_instance e w) (browserInstances s))
                     (browser_connected e w)) with
    | (Ok pool, s2) =>
        (Ok tt,
         mkState (update_instance (nextBrowser w) (set_pagePool pool)
                    (browserInstances s2))
                 (record (ELog (LogConnected e (List.length pool))) (world s2)))
    | (Throw error, s2) => connect_failed e error s2
    | (OutOfFuel, s2) => (OutOfFuel, s2)
    end
  else connect_failed e (External (calls w)) (with_world s (call_done (EConnect e) w)).
Proof.
  assert (Hcatch : forall error s',
    (r <- getRegistry ;;
     match map_get e r with
     | Some instance =>
         swallow (browser_close (browser instance)) ;;
         modifyRegistry (map_delete e)
     | None => ret tt
     end ;;
     log (LogConnectFailed e) ;;
     throw error) s' = connect_failed e error s' :> Outcome unit * State).
  { intros error s'. unfold connect_failed, bind at 1 2. unfold getRegistry.
    destruct (map_get e (browserInstances s')) as [instance |].
    - unfold bind. rewrite swallow_browser_close_run. reflexivity.
    - reflexivity. }
  cbv zeta. unfold connectToBrowser, try_catch. unfold bind at 1.
  rewrite chromium_connect_run.
  generalize PAGE_POOL_SIZE; intro n.
  destruct (oracle (world s) (calls (world s))).
  - unfold bind at 1, now at 1, bind at 1, getWorld at 1, ret at 1.
    unfold bind at 1, modifyRegistry at 1. unfold bind at 1. simpl.
    fold (new_instance e (world s)).
    destruct (warm_pool n (nextBrowser (world s))
                (new_instance e (world s)) []
                (mkState (map_set e (new_instance e (world s)) (browserInstances s))
                         (browser_connected e (world s))))
      as [[pool | error |] s2]; try reflexivity.
    apply Hcatch.
  - apply Hcatch.
Qed.

(** ** The registry as a map *)

Lemma map_get_set_same e i r : map_get e (map_set e i r) = Some i.
Proof.
  unfold map_get. induction r as [| kv r IH]; simpl.
  - now rewrite String.eqb_refl.
  - destruct (String.eqb (fst kv) e) eqn:He; simpl.
    + now rewrite String.eqb_refl.
    + rewrite He. exact IH.
Qed.

Lemma map_delete_set e i r : map_delete e (map_set e i r) = map_delete e r.
Proof.
  unfold map_delete. induction r as [| kv r IH]; simpl.
  - now rewrite String.eqb_refl.
  - destruct (String.eqb (fst kv) e) eqn:He; simpl.
    + now rewrite String.eqb_refl.
    + rewrite He. simpl. now rewrite IH.
Qed.

Lemma map_get_none_in e r : map_get e r = None <-> ~ In e (keys r).
Proof.
  unfold map_get, keys. induction r as [| kv r IH]; simpl.
  - tauto.
  - destruct (String.eqb (fst kv) e) eqn:He.
    + apply String.eqb_eq in He. split; [discriminate | tauto].
    + apply String.eqb_neq in He. tauto.
Qed.

Lemma map_delete_absent e r : map_get e r = None -> map_delete e r = r.
Proof.
  unfold map_get, map_delete. induction r as [| kv r IH]; simpl; [reflexivity |].
  destruct (String.eqb (fst kv) e); simpl; [discriminate |].
  intro H. now rewrite IH.
Qed.

Lemma keys_update_instance b f r : keys (update_instance b f r) = keys r.
Proof.
  unfold keys. induction r as [| kv r IH]; simpl; [reflexivity |].
  destruct (Nat.eqb (browser (snd kv)) b); simpl; [reflexivity | now rewrite IH].
Qed.

Lemma keys_map_set e i r :
  keys (map_set e i r) = if in_dec string_dec e (keys r) then keys r else keys r ++ [e].
Proof.
  unfold keys. induction r as [| kv r IH]; simpl; [reflexivity |].
  destruct (String.eqb (fst kv) e) eqn:He; simpl.
  - apply String.eqb_eq in He.
    destruct (string_dec (fst kv) e); [| contradiction].
    simpl. now rewrite He.
  - apply String.eqb_neq in He. rewrite IH.
    destruct (string_dec (fst kv) e); [contradiction |].
    destruct (in_dec string_dec e (map fst r)); reflexivity.
Qed.

Lemma connect_failed_registry e error s :
  fst (connect_failed e error s) = Throw error /\
  browserInstances (snd (connect_failed e error s)) = map_delete e (browserInstances s).
Proof.
  unfold connect_failed.
  destruct (map_get e (browserInstances s)) eqn:Hget; simpl.
  - auto.
  - split; [reflexivity |]. symmetry. now apply map_delete_absent.
Qed.

Lemma warm_pool_terminates n b i : forall pool s,
  fst (warm_pool n b i pool s) <> OutOfFuel.
Proof.
  induction n as [| n IH]; intros pool s; simpl; [discriminate |].
  unfold bind. rewrite createAndSecurePage_run.
  destruct (oracle (world s) (calls (world s))); [apply IH | discriminate].
Qed.

Lemma warm_pool_registry n b i pool s :
  browserInstances (snd (warm_pool n b i pool s)) = browserInstances s.
Proof.
  apply (@preserves_warm_pool (fun s' => browserInstances s' = browserInstances s)).
  - intros r w w' H; exact H.
  - reflexivity.
Qed.

(** What [connectToBrowser] leaves in the registry: on success the new
    instance with its warm pool under [e]; on failure nothing under [e]. *)
Lemma connectToBrowser_registry e s :
  let w := world s in
  let s' := snd (connectToBrowser e s) in
  match fst (connectToBrowser e s) with
  | Ok _ =>
      browserInstances s'
      = update_instance (nextBrowser w) (set_pagePool (warm_pages w))
          (map_set e (new_instance e w) (browserInstances s))
      /\ List.length (pages (world s')) = List.length (pages w) + PAGE_POOL_SIZE
      /\ nextBrowser (world s') = S (nextBrowser w)
  | Throw _ => browserInstances s' = map_delete e (browserInstances s)
  | OutOfFuel => False
  end.
Proof.
  cbv zeta. rewrite connectToBrowser_run. cbv zeta.
  destruct (oracle (world s) (calls (world s))).
  - set (s1 := mkState _ (browser_connected e (world s))).
    pose proof (warm_pool_pages PAGE_POOL_SIZE (nextBrowser (world s))
                  (new_instance e (world s)) [] s1) as Hok.
    pose proof (warm_pool_terminates PAGE_POOL_SIZE (nextBrowser (world s))
                  (new_instance e (world s)) [] s1) as Hterm.
    pose proof (warm_pool_registry PAGE_POOL_SIZE (nextBrowser (world s))
                  (new_instance e (world s)) [] s1) as Hreg.
    destruct (warm_pool PAGE_POOL_SIZE (nextBrowser (world s))
                (new_instance e (world s)) [] s1) as [[pool | error |] s2];
      simpl fst in *; simpl snd in *.
    + destruct (Hok pool eq_refl) as (Hp & Hlen & Hnb & _).
      simpl. rewrite Hreg, Hp, Hlen, Hnb. subst s1. simpl. auto.
    + destruct (connect_failed_registry e error s2) as [-> ->].
      rewrite Hreg. subst s1. simpl. apply map_delete_set.
    + congruence.
  - destruct (connect_failed_registry e (External (calls (world s)))
                (with_world s (call_done (EConnect e) (world s)))) as [-> ->].
    reflexivity.
Qed.

(** ** Reading the trace *)

Section Observing.
Context {X : Type}.
Variable keep : Event -> option X.

Lemma observe_app l1 l2 :
  observe keep (l1 ++ l2) = observe keep l1 ++ observe keep l2.
Proof.
  induction l1 as [| ev l1 IH]; simpl; [reflexivity |].
  destruct (keep ev); simpl; now rewrite IH.
Qed.

Lemma silent_run {A} (c : M A) s :
  silent keep c -> observed keep (snd (c s)) = observed keep s.
Proof. intro H. apply (H (observed keep s) s). reflexivity. Qed.

Lemma silent_modifyRegistry f L :
  preserves (fun s => observed keep s = L) (modifyRegistry f).
Proof. intros s H; exact H. Qed.

Lemma silent_modifyWorld f L :
  (forall w, observe keep (trace (f w)) = observe keep (trace w)) ->
  preserves (fun s => observed keep s = L) (modifyWorld f).
Proof. intros Hf s H. unfold observed in *. simpl. now rewrite Hf. Qed.

End Observing.

(** Closes [preserves (fun s => observed keep s = L) c] for a [c] whose events
    [keep] drops by computation; [tac] supplies the lemmas of the loops. *)
Ltac quiet tac :=
  preserving ltac:(first
    [ apply silent_modifyRegistry
    | apply silent_modifyWorld; intro; simpl;
      rewrite ?observe_app; simpl; rewrite ?app_nil_r; reflexivity
    | tac ]).

Ltac unfold_calls :=
  unfold createAndSecurePage, createBasePage, browser_newPage,
    setupCoreSecurityControls, validatePage, page_isClosed, page_evaluate,
    page_goto, page_close, browser_close, browser_isConnected,
    chromium_connect, external, log, emit, now.

(** ** The backoff of the reconnection loop *)

Lemma warm_pool_no_backoff n b i : forall pool, silent keep_backoff (warm_pool n b i pool).
Proof.
  induction n as [| n IH]; intros pool L; simpl; unfold_calls; quiet idtac.
  apply IH.
Qed.

Lemma connectToBrowser_no_backoff e : silent keep_backoff (connectToBrowser e).
Proof.
  intro L. unfold connectToBrowser. unfold_calls. unfold swallow.
  quiet ltac:(apply warm_pool_no_backoff).
Qed.

Lemma close_all_run l : forall s,
  close_all l s = (Ok tt, with_world s (closing_all l (world s))).
Proof.
  induction l as [| p l IH]; intro s; simpl.
  - destruct s; reflexivity.
  - unfold bind. rewrite swallow_page_close_run, IH. reflexivity.
Qed.

Lemma reconnect_once_run instance attempt s :
  reconnect_once instance attempt s =
  match connectToBrowser (endpoint instance) (torn_down instance attempt s) with
  | (Ok _, s') =>
      (Ok true,
       with_world s' (record (ELog (LogReconnected (endpoint instance))) (world s')))
  | (Throw _, s') =>
      (Ok false, with_world s' (backing_off (endpoint instance) attempt (world s')))
  | (OutOfFuel, s') => (OutOfFuel, s')
  end.
Proof.
  unfold reconnect_once, try_catch.
  unfold bind at 1. unfold log at 1, emit, modifyWorld at 1.
  unfold bind at 1. unfold modifyRegistry at 1.
  unfold bind at 1. rewrite close_all_run.
  unfold bind at 1. rewrite swallow_browser_close_run.
  unfold bind at 1.
  match goal with |- context [connectToBrowser _ ?st] =>
    change st with (torn_down instance attempt s)
  end.
  destruct (connectToBrowser (endpoint instance) (torn_down instance attempt s))
    as [[[] | error |] s']; reflexivity.
Qed.

Lemma closing_all_no_backoff l : forall w,
  observe keep_backoff (trace (closing_all l w)) = observe keep_backoff (trace w).
Proof.
  induction l as [| p l IH]; intro w; simpl; [reflexivity |].
  rewrite IH. unfold close_attempted.
  destruct (oracle w (calls w)); simpl; rewrite observe_app; simpl;
    apply app_nil_r.
Qed.

Lemma torn_down_no_backoff instance attempt s :
  observed keep_backoff (torn_down instance attempt s) = observed keep_backoff s.
Proof.
  unfold observed, torn_down. simpl. rewrite observe_app. simpl.
  rewrite app_nil_r, closing_all_no_backoff. simpl.
  rewrite observe_app. simpl. apply app_nil_r.
Qed.

Lemma attempts_from_seq k : forall a,
  attempts_from (Z.of_nat a) k = map Z.of_nat (seq a k).
Proof.
  induction k as [| k IH]; intro a; simpl; [reflexivity |].
  f_equal. rewrite <- IH. f_equal. lia.
Qed.

(** A round either connects and leaves no backoff in the trace, or fails and
    leaves one [backoff_round]; it neither throws nor runs out of fuel. *)
Lemma reconnect_once_backoff instance attempt s :
  (fst (reconnect_once instance attempt s) = Ok true /\
   observed keep_backoff (snd (reconnect_once instance attempt s))
   = observed keep_backoff s) \/
  (fst (reconnect_once instance attempt s) = Ok false /\
   observed keep_backoff (snd (reconnect_once instance attempt s))
   = observed keep_backoff s ++ backoff_round attempt).
Proof.
  rewrite reconnect_once_run.
  pose proof (silent_run (torn_down instance attempt s)
                (connectToBrowser_no_backoff (endpoint instance))) as Hsil.
  pose proof (connectToBrowser_registry (endpoint instance)
                (torn_down instance attempt s)) as Hreg. cbv zeta in Hreg.
  rewrite torn_down_no_backoff in Hsil.
  destruct (connectToBrowser (endpoint instance) (torn_down instance attempt s))
    as [[[] | error |] s']; simpl in *.
  - left. split; [reflexivity |].
    unfold observed in *. simpl. rewrite observe_app. simpl.
    rewrite app_nil_r. exact Hsil.
  - right. split; [reflexivity |].
    unfold observed in *. simpl. rewrite !observe_app. simpl.
    rewrite Hsil, <- app_assoc. reflexivity.
  - contradiction.
Qed.

Lemma reconnect_loop_backoff fuel instance : forall attempt s,
  exists k, k <= fuel /\
    observed keep_backoff (snd (reconnect_loop fuel instance attempt s))
    = observed keep_backoff s ++ flat_map backoff_round (attempts_from attempt k)
    /\ (fst (reconnect_loop fuel instance attempt s) = Ok tt /\ k < fuel \/
        fst (reconnect_loop fuel instance attempt s) = OutOfFuel /\ k = fuel).
Proof.
  induction fuel as [| fuel IH]; intros attempt s; simpl.
  - exists 0. simpl. rewrite app_nil_r. auto.
  - unfold bind.
    destruct (reconnect_once_backoff instance attempt s) as [[Ho Hobs] | [Ho Hobs]];
      destruct (reconnect_once instance attempt s) as [o s1]; simpl in *; subst o.
    + exists 0. simpl. rewrite app_nil_r. split; [lia |]. split; [exact Hobs |].
      left. split; [reflexivity | lia].
    + destruct (IH (attempt + 1)%Z s1) as (k & Hk & Hobs' & Hout).
      exists (S k). split; [lia |]. split.
      * rewrite Hobs', Hobs, <- app_assoc. reflexivity.
      * destruct Hout as [[-> ?] | [-> ?]]; [left | right]; split; auto; lia.
Qed.

(** ** Checkout *)

Lemma in_insert_by_pool x y l : In x (insert_by_pool y l) <-> x = y \/ In x l.
Proof.
  induction l as [| z l IH]; simpl.
  - intuition.
  - destruct (Nat.ltb (List.length (pagePool y)) (List.length (pagePool z)));
      simpl; intuition.
Qed.

Lemma in_sort_by_pool x l : In x (sort_by_pool l) <-> In x l.
Proof.
  unfold sort_by_pool. induction l as [| y l IH]; simpl; [tauto |].
  rewrite in_insert_by_pool, IH. intuition.
Qed.

Lemma in_healthyInstances i s :
  In i (healthyInstances s) <->
  In i (values (browserInstances s)) /\ healthy i = true.
Proof. unfold healthyInstances. rewrite in_sort_by_pool. apply filter_In. Qed.
Lemma getAvailablePage_run s :
  getAvailablePage s =
  match healthyInstances s with
  | [] =>
      match initializeConnections (with_world s (record (ELog LogNoHealthy) (world s))) with
      | (Ok _, s') => (Ok None, s')
      | (Throw e, s') => (Throw e, s')
      | (OutOfFuel, s') => (OutOfFuel, s')
      end
  | _ :: _ => try_instances (healthyInstances s) s
  end.
Proof.
  unfold getAvailablePage, bind at 1, getRegistry. fold (healthyInstances s).
  destruct (healthyInstances s) as [| i l]; [| reflexivity].
  cbn [List.length Nat.eqb]. unfold bind at 1. unfold log, emit, modifyWorld.
  unfold bind, attemptRecovery.
  change (mkState (browserInstances s) (record (ELog LogNoHealthy) (world s)))
    with (with_world s (record (ELog LogNoHealthy) (world s))).
  destruct (initializeConnections (with_world s (record (ELog LogNoHealthy) (world s)))) as [[[] | e |] s']; reflexivity.
Qed.

Lemma try_instances_step instance l s :
  try_instances (instance :: l) s =
  match pagePool instance with
  | [] => create_or_next instance (try_instances l) s
  | page :: _ =>
      let s1 := mkState (update_instance (browser instance) shift_pool
                           (browserInstances s)) (world s) in
      if isClosed (world s) page
      then create_or_next instance (try_instances l)
             (with_world s1 (close_attempted page (world s)))
      else if oracle (world s) (calls (world s))
      then (Ok (Some page), with_world s1 (call_done (EEvaluate page) (world s)))
      else create_or_next instance (try_instances l)
             (with_world s1
                (close_attempted page (call_done (EEvaluate page) (world s))))
  end.
Proof.
  assert (Hcreate : forall s2,
    (created <-
       try_catch
         (page <- createAndSecurePage (browser instance) (Some instance) ;;
          ret (Some page))
         (fun error =>
          log (LogCreateFailed (endpoint instance)) ;;
          modifyRegistry
            (update_instance (browser instance) (set_healthy false)) ;;
          ret None) ;;
     match created with
     | Some page => ret (Some page)
     | None => try_instances l
     end) s2 = create_or_next instance (try_instances l) s2).
  { intro s2. unfold create_or_next, bind at 1, try_catch, bind at 1.
    rewrite createAndSecurePage_run.
    destruct (oracle (world s2) (calls (world s2))); reflexivity. }
  cbn [try_instances].
  destruct (pagePool instance) as [| page pool'].
  - unfold bind at 1. unfold ret at 1. apply Hcreate.
  - cbv zeta. unfold bind at 1. unfold bind at 1. unfold modifyRegistry at 1.
    unfold bind at 1. rewrite validatePage_run. cbn [world fst snd].
    destruct (isClosed (world s) page).
    + unfold bind at 1. rewrite swallow_page_close_run. unfold ret at 1.
      apply Hcreate.
    + cbn [world browserInstances with_world].
      destruct (oracle (world s) (calls (world s))).
      * reflexivity.
      * unfold bind at 1. rewrite swallow_page_close_run. unfold ret at 1.
        apply Hcreate.
Qed.

Lemma isClosed_page_created b w :
  isClosed (page_created b w) (mkPage (List.length (pages w)) b) = false.
Proof.
  unfold isClosed, page_created. simpl.
  rewrite nth_error_app2, Nat.sub_diag by lia. reflexivity.
Qed.

Lemma page_created_secured b w :
  nth_error (pages (page_created b w)) (List.length (pages w))
  = Some new_secured_page.
Proof.
  unfold page_created. simpl.
  rewrite nth_error_app2, Nat.sub_diag by lia. reflexivity.
Qed.

Lemma update_nth_length {A} (f : A -> A) l : forall n,
  List.length (update_nth n f l) = List.length l.
Proof. induction l as [| x l IH]; intros [| n]; simpl; auto. Qed.

Lemma pages_close_attempted p w :
  List.length (pages (close_attempted p w)) = List.length (pages w).
Proof.
  unfold close_attempted. destruct (oracle w (calls w)); simpl; auto.
  apply update_nth_length.
Qed.

(** A page handed out by the loop is open; it is either the head of a
    candidate's pool that has just passed validation, or a page made and
    secured during the call. *)
Lemma try_instances_handed_out l : forall s p,
  fst (try_instances l s) = Ok (Some p) ->
  isClosed (world (snd (try_instances l s))) p = false /\
  ((exists instance pool' t,
      In instance l /\ pagePool instance = p :: pool' /\
      trace (world (snd (try_instances l s))) = t ++ [EEvaluate p true]) \/
   (exists instance t,
      In instance l /\ pbrowser p = browser instance /\
      List.length (pages (world s)) <= pid p /\
      nth_error (pages (world (snd (try_instances l s)))) (pid p)
      = Some new_secured_page /\
      trace (world (snd (try_instances l s)))
      = t ++ [ENewPage (browser instance) true])).
Proof.
  induction l as [| instance l IH]; intros s p.
  - discriminate.
  - assert (Hcreate : forall s2,
      List.length (pages (world s)) <= List.length (pages (world s2)) ->
      fst (create_or_next instance (try_instances l) s2) = Ok (Some p) ->
      isClosed (world (snd (create_or_next instance (try_instances l) s2))) p
      = false /\
      ((exists instance0 pool' t,
          In instance0 (instance :: l) /\ pagePool instance0 = p :: pool' /\
          trace (world (snd (create_or_next instance (try_instances l) s2)))
          = t ++ [EEvaluate p true]) \/
       (exists instance0 t,
          In instance0 (instance :: l) /\ pbrowser p = browser instance0 /\
          List.length (pages (world s)) <= pid p /\
          nth_error
            (pages (world (snd (create_or_next instance (try_instances l) s2))))
            (pid p) = Some new_secured_page /\
          trace (world (snd (create_or_next instance (try_instances l) s2)))
          = t ++ [ENewPage (browser instance0) true]))).
    { intros s2 Hlen. unfold create_or_next.
      destruct (oracle (world s2) (calls (world s2))) eqn:Ho.
      - intros [= <-]. split; [apply isClosed_page_created |].
        right. exists instance, (trace (world s2)).
        split; [left; reflexivity |]. split; [reflexivity |].
        split; [exact Hlen |]. split; [apply page_created_secured |].
        simpl. unfold call_done. simpl. now rewrite Ho.
      - intro H. destruct (IH _ p H) as [Hopen Hprov]. split; [exact Hopen |].
        destruct Hprov as [(i0 & pool' & t & Hin & Hhd & Htr)
                          | (i0 & t & Hin & Hb & Hnew & Hsec & Htr)].
        + left. exists i0, pool', t. simpl; auto.
        + right. exists i0, t. simpl in Hnew. simpl. repeat split; auto. lia. }
    rewrite try_instances_step.
    destruct (pagePool instance) as [| page pool'] eqn:Hpool.
    + apply Hcreate. lia.
    + cbv zeta. destruct (isClosed (world s) page) eqn:Hclosed.
      * apply Hcreate. simpl. rewrite pages_close_attempted. lia.
      * destruct (oracle (world s) (calls (world s))) eqn:Ho.
        -- intros [= <-]. split; [exact Hclosed |].
           left. exists instance, pool', (trace (world s)).
           split; [left; reflexivity |]. split; [exact Hpool |].
           simpl. now rewrite Ho.
        -- apply Hcreate. simpl. rewrite pages_close_attempted. simpl. lia.
Qed.

(** The write that follows the warm-up reaches the instance just registered:
    no other instance of the registry is built around the new browser. *)
Lemma update_instance_new e i f r :
  Forall (fun kv => browser (snd kv) <> browser i) r ->
  update_instance (browser i) f (map_set e i r) = map_set e (f i) r.
Proof.
  intro H. induction H as [| kv r Hkv Hr IH]; simpl.
  - now rewrite Nat.eqb_refl.
  - destruct (String.eqb (fst kv) e); simpl.
    + now rewrite Nat.eqb_refl.
    + apply Nat.eqb_neq in Hkv. rewrite Hkv. now rewrite IH.
Qed.

(** ** What a close leaves behind *)

Lemma trace_close_attempted p w :
  trace (close_attempted p w) = trace w ++ [EClosePage p (oracle w (calls w))].
Proof.
  unfold close_attempted, call_done.
  destruct (oracle w (calls w)); reflexivity.
Qed.

Lemma nth_error_update_nth {A} (f : A -> A) l : forall n x,
  nth_error l n = Some x -> nth_error (update_nth n f l) n = Some (f x).
Proof.
  induction l as [| y l IH]; intros [| n] x; simpl; try discriminate.
  - now intros [= ->].
  - apply IH.
Qed.

Lemma nth_error_update_nth_other {A} (f : A -> A) l : forall n m,
  n <> m -> nth_error (update_nth n f l) m = nth_error l m.
Proof.
  induction l as [| y l IH]; intros [| n] [| m] H; simpl; auto.
  congruence.
Qed.

(** A close that Playwright carries out leaves an existing page closed. *)
Lemma isClosed_close_attempted p w :
  oracle w (calls w) = true -> pid p < List.length (pages w) ->
  isClosed (close_attempted p w) p = true.
Proof.
  intros Ho Hp. unfold close_attempted, isClosed. rewrite Ho. simpl.
  destruct (nth_error (pages w) (pid p)) as [ps |] eqn:Hnth.
  - now rewrite (nth_error_update_nth _ _ _ Hnth).
  - apply nth_error_None in Hnth. lia.
Qed.

Lemma owner_of_browser p r instance :
  owner_of p r = Some instance -> pbrowser p = browser instance.
Proof.
  unfold owner_of. intro H. apply find_some in H. now apply Nat.eqb_eq.
Qed.

(** After a write to the owner of [p], the owner of [p] is the written
    object. *)
Lemma owner_of_update p f r instance :
  (forall i, browser (f i) = browser i) ->
  owner_of p r = Some instance ->
  owner_of p (update_instance (browser instance) f r) = Some (f instance).
Proof.
  intros Hf Ho. pose proof (owner_of_browser _ _ Ho) as Hb.
  unfold owner_of in *. induction r as [| kv r IH]; simpl in *; [discriminate |].
  destruct (Nat.eqb (pbrowser p) (browser (snd kv))) eqn:Hp.
  - injection Ho as <-. rewrite Nat.eqb_refl. simpl.
    now rewrite Hf, Hp.
  - assert (Hk : Nat.eqb (browser (snd kv)) (browser instance) = false).
    { rewrite <- Hb, Nat.eqb_sym. exact Hp. }
    rewrite Hk. simpl. rewrite Hp. now apply IH.
Qed.

Lemma trace_call_done ev w :
  trace (call_done ev w) = trace w ++ [ev (oracle w (calls w))].
Proof. reflexivity. Qed.

Lemma trace_page_created b w :
  trace (page_created b w) = trace w ++ [ENewPage b (oracle w (calls w))].
Proof. reflexivity. Qed.

(** The three ways [resetPage] can go for a page that has an owner: the
    navigation succeeds; it fails and a replacement is made; it fails and no
    replacement can be made. *)
Lemma reset_owned_cases p instance s :
  let w := world s in
  let w2 := close_attempted p (call_done (goto_blank p) w) in
  (oracle w (calls w) = true /\
   reset_owned p instance s = (Ok p, with_world s (call_done (goto_blank p) w))) \/
  (oracle w (calls w) = false /\ oracle w2 (calls w2) = true /\
   reset_owned p instance s
   = (Ok (mkPage (List.length (pages w2)) (browser instance)),
      with_world s (page_created (browser instance) w2))) \/
  (oracle w (calls w) = false /\ oracle w2 (calls w2) = false /\
   reset_owned p instance s
   = (Throw (External (calls w2)),
      with_world s (record (ELog LogResetCreateFailed)
                      (call_done (ENewPage (browser instance)) w2)))).
Proof.
  cbv zeta. unfold reset_owned.
  destruct (oracle (world s) (calls (world s))); [left; auto | right].
  cbv zeta.
  destruct (oracle (close_attempted p (call_done (goto_blank p) (world s)))
              (calls (close_attempted p (call_done (goto_blank p) (world s)))));
    [left | right]; auto.
Qed.

(** ** Start-up *)

Lemma split_comma_nonempty v : split_comma v <> [].
Proof.
  destruct v as [| c v]; simpl; [discriminate |].
  destruct (Ascii.eqb c ","%char); [discriminate |].
  destruct (split_comma v); discriminate.
Qed.

Lemma getEndpoints_run s : getEndpoints s = (Ok (endpoints_of (world s)), s).
Proof.
  unfold getEndpoints, bind, getWorld, ret, endpoints_of.
  now rewrite map_id.
Qed.

Lemma endpoints_of_nil w : endpoints_of w = [] <-> BROWSER_ENDPOINTS w = None.
Proof.
  unfold endpoints_of. destruct (BROWSER_ENDPOINTS w) as [v |].
  - split; [intro H; now apply split_comma_nonempty in H | discriminate].
  - tauto.
Qed.

Lemma connect_or_log_run e s :
  connect_or_log e s =
  match connectToBrowser e s with
  | (Ok _, s') => (Ok tt, s')
  | (Throw _, s') =>
      (Ok tt, with_world s' (record (ELog (LogConnectFailed e)) (world s')))
  | (OutOfFuel, s') => (OutOfFuel, s')
  end.
Proof.
  unfold connect_or_log, try_catch.
  destruct (connectToBrowser e s) as [[[] | error |] s']; reflexivity.
Qed.

Lemma connect_or_log_ok e s : fst (connect_or_log e s) = Ok tt.
Proof.
  rewrite connect_or_log_run.
  pose proof (connectToBrowser_registry e s) as H. cbv zeta in H.
  destruct (connectToBrowser e s) as [[[] | error |] s']; simpl in *;
    [reflexivity | reflexivity | contradiction].
Qed.

Lemma connect_each_cons e l s :
  connect_each (e :: l) s = connect_each l (snd (connect_or_log e s)).
Proof.
  simpl. unfold bind. fold (connect_or_log e).
  pose proof (connect_or_log_ok e s) as H.
  destruct (connect_or_log e s) as [o s']. simpl in H. subst o. reflexivity.
Qed.

(** The loop never stops early: a failed endpoint is logged and skipped. *)
Lemma connect_each_ok l : forall s, fst (connect_each l s) = Ok tt.
Proof.
  induction l as [| e l IH]; intro s; [reflexivity |].
  rewrite connect_each_cons. apply IH.
Qed.

Lemma initializeConnections_run s :
  initializeConnections s =
  match endpoints_of (world s) with
  | [] => (Throw NoEndpointsConfigured, s)
  | endpoints =>
      let s' := snd (connect_each endpoints s) in
      match browserInstances s' with
      | [] => (Throw AllConnectionsFailed, s')
      | _ :: _ => (Ok tt, s')
      end
  end.
Proof.
  unfold initializeConnections, bind at 1. rewrite getEndpoints_run.
  destruct (endpoints_of (world s)) as [| e l]; [reflexivity |].
  cbn [List.length Nat.eqb]. cbv zeta. unfold bind at 1.
  pose proof (connect_each_ok (e :: l) s) as H.
  destruct (connect_each (e :: l) s) as [o s']. simpl in H. subst o.
  unfold bind, getRegistry. cbn [snd].
  destruct (browserInstances s'); reflexivity.
Qed.

Lemma connect_or_log_registry e s :
  browserInstances (snd (connect_or_log e s))
  = browserInstances (snd (connectToBrowser e s)).
Proof.
  rewrite connect_or_log_run.
  destruct (connectToBrowser e s) as [[[] | error |] s']; reflexivity.
Qed.

(** The keys after one attempt on an endpoint that is not registered. *)
Lemma connect_or_log_keys e s :
  ~ In e (keys (browserInstances s)) ->
  keys (browserInstances (snd (connect_or_log e s)))
  = keys (browserInstances s)
    ++ (if match fst (connectToBrowser e s) with Ok _ => true | _ => false end
        then [e] else []).
Proof.
  intro Hnew. rewrite connect_or_log_registry.
  pose proof (connectToBrowser_registry e s) as H. cbv zeta in H.
  destruct (fst (connectToBrowser e s)) as [[] | error |].
  - destruct H as (-> & _). rewrite keys_update_instance, keys_map_set.
    destruct (in_dec string_dec e (keys (browserInstances s))); [contradiction |].
    reflexivity.
  - rewrite H, map_delete_absent, app_nil_r; [reflexivity |].
    now apply map_get_none_in.
  - contradiction.
Qed.

Lemma connect_each_keys l : forall s,
  NoDup l ->
  (forall e, In e l -> ~ In e (keys (browserInstances s))) ->
  keys (browserInstances (snd (connect_each l s)))
  = keys (browserInstances s)
    ++ map fst (filter snd (combine l (connect_results l s))).
Proof.
  induction l as [| e l IH]; intros s Hnd Hnew.
  - simpl. now rewrite app_nil_r.
  - rewrite connect_each_cons. inversion Hnd as [| ? ? He Hnd']; subst.
    pose proof (connect_or_log_keys e s (Hnew e (or_introl eq_refl))) as Hk.
    rewrite IH; [| exact Hnd' |].
    + rewrite Hk. cbn [connect_results combine filter].
      destruct (fst (connectToBrowser e s)) as [[] | error |]; simpl;
        rewrite <- app_assoc; reflexivity.
    + intros e' He' Hin. rewrite Hk in Hin. apply in_app_or in Hin.
      destruct Hin as [Hin | Hin].
      * apply (Hnew e' (or_intror He')). exact Hin.
      * destruct (fst (connectToBrowser e s)) as [[] | error |]; simpl in Hin;
          try contradiction.
        destruct Hin as [<- | []]. contradiction.
Qed.

Lemma filter_snd_combine_nil (l : list string) : forall bs,
  List.length bs = List.length l ->
  (map fst (filter snd (combine l bs)) = [] <-> existsb (fun b => b) bs = false).
Proof.
  induction l as [| e l IH]; intros [| b bs] Hlen; simpl in *; try discriminate.
  - tauto.
  - destruct b; simpl.
    + split; discriminate.
    + apply IH. lia.
Qed.


(** ** Connection attempts in the trace *)

Lemma warm_pool_no_connect n b i : forall pool, silent keep_connect (warm_pool n b i pool).
Proof.
  induction n as [| n IH]; intros pool L; simpl; unfold_calls; quiet idtac.
  apply IH.
Qed.

Lemma connect_failed_no_connect e error s :
  observed keep_connect (snd (connect_failed e error s)) = observed keep_connect s.
Proof.
  unfold connect_failed, observed.
  destruct (map_get e (browserInstances s)); simpl;
    rewrite !observe_app; simpl; now rewrite !app_nil_r.
Qed.

(** [connectToBrowser e] makes one connection attempt, to [e]. *)
Lemma connectToBrowser_connects_once e s :
  observed keep_connect (snd (connectToBrowser e s))
  = observed keep_connect s
    ++ [(e, oracle (world s) (calls (world s)))].
Proof.
  rewrite connectToBrowser_run. cbv zeta.
  destruct (oracle (world s) (calls (world s))) eqn:Ho.
  - set (s1 := mkState _ (browser_connected e (world s))).
    assert (H1 : observed keep_connect s1 = observed keep_connect s ++ [(e, true)]).
    { unfold observed. simpl. now rewrite observe_app. }
    pose proof (silent_run s1
                  (warm_pool_no_connect PAGE_POOL_SIZE (nextBrowser (world s))
                     (new_instance e (world s)) [])) as Hw.
    destruct (warm_pool PAGE_POOL_SIZE (nextBrowser (world s))
                (new_instance e (world s)) [] s1) as [[pool | error |] s2];
      simpl in Hw.
    + unfold observed in *. simpl. rewrite observe_app. simpl.
      now rewrite app_nil_r, Hw.
    + now rewrite connect_failed_no_connect, Hw.
    + simpl. now rewrite Hw.
  - rewrite connect_failed_no_connect. unfold observed. simpl.
    rewrite observe_app. simpl. now rewrite Ho.
Qed.



Lemma warm_pool_extends n b i : forall pool s,
  exists evs,
    trace (world (snd (warm_pool n b i pool s))) = trace (world s) ++ evs.
Proof.
  induction n as [| n IH]; intros pool s; simpl.
  - exists []. now rewrite app_nil_r.
  - unfold bind. rewrite createAndSecurePage_run.
    destruct (oracle (world s) (calls (world s))).
    + match goal with |- context [warm_pool n b i ?pl ?st] =>
        destruct (IH pl st) as [evs Hevs]
      end.
      rewrite Hevs. simpl. eexists. rewrite <- app_assoc. reflexivity.
    + simpl. eexists. reflexivity.
Qed.

(** The trace of [connectToBrowser e] starts with the connection attempt,
    and a failed call has logged its failure. *)
Lemma connectToBrowser_trace e s :
  exists rest,
    trace (world (snd (connectToBrowser e s)))
    = trace (world s) ++ EConnect e (oracle (world s) (calls (world s))) :: rest /\
    (fst (connectToBrowser e s) <> Ok tt -> In (ELog (LogConnectFailed e)) rest).
Proof.
  assert (Hfail : forall error s2 t,
    (exists evs, trace (world s2) = t ++ evs) ->
    exists rest,
      trace (world (snd (connect_failed e error s2))) = t ++ rest /\
      In (ELog (LogConnectFailed e)) rest).
  { intros error s2 t [evs Hevs]. unfold connect_failed.
    destruct (map_get e (browserInstances s2)) as [b |]; simpl; rewrite Hevs.
    - exists ((evs ++ [ECloseBrowser (browser b)
                         (oracle (world s2) (calls (world s2)))])
              ++ [ELog (LogConnectFailed e)]).
      split; [now rewrite !app_assoc | apply in_or_app; right; now left].
    - exists (evs ++ [ELog (LogConnectFailed e)]).
      split; [now rewrite app_assoc | apply in_or_app; right; now left]. }
  rewrite connectToBrowser_run. cbv zeta.
  destruct (oracle (world s) (calls (world s))) eqn:Ho.
  - set (s1 := mkState _ (browser_connected e (world s))).
    pose proof (warm_pool_extends PAGE_POOL_SIZE (nextBrowser (world s))
                  (new_instance e (world s)) [] s1) as Hext.
    pose proof (warm_pool_terminates PAGE_POOL_SIZE (nextBrowser (world s))
                  (new_instance e (world s)) [] s1) as Hterm.
    destruct (warm_pool PAGE_POOL_SIZE (nextBrowser (world s))
                (new_instance e (world s)) [] s1) as [[pool | error |] s2];
      simpl in Hext, Hterm.
    + destruct Hext as [evs Hevs]. simpl. rewrite Hevs.
      exists (evs ++ [ELog (LogConnected e (List.length pool))]).
      split; [now rewrite <- !app_assoc | intro H; now contradiction H].
    + destruct (Hfail error s2 _ Hext) as (rest & Hrest & Hin).
      exists rest. rewrite Hrest, <- app_assoc. auto.
    + congruence.
  - destruct (Hfail (External (calls (world s)))
                (with_world s (call_done (EConnect e) (world s)))
                (trace (world s) ++ [EConnect e false])) as (rest & Hrest & Hin).
    { exists []. simpl. now rewrite Ho, app_nil_r. }
    exists rest. rewrite Hrest, <- app_assoc. auto.
Qed.

(** ** A checkout that finds no page *)

Lemma try_instances_no_connect l : silent keep_connect (try_instances l).
Proof.
  intro L. induction l as [| instance l IH]; simpl; unfold_calls;
    unfold swallow; quiet idtac.
  exact IH.
Qed.

(** The loop neither throws nor runs out of fuel. *)
Lemma try_instances_returns l : forall s, exists r, fst (try_instances l s) = Ok r.
Proof.
  induction l as [| instance l IH]; intro s.
  - exists None. reflexivity.
  - assert (Hcreate : forall s2,
      exists r, fst (create_or_next instance (try_instances l) s2) = Ok r).
    { intro s2. unfold create_or_next.
      destruct (oracle (world s2) (calls (world s2))); [eexists; reflexivity |].
      apply IH. }
    rewrite try_instances_step.
    destruct (pagePool instance) as [| page pool']; [apply Hcreate |].
    cbv zeta. destruct (isClosed (world s) page); [apply Hcreate |].
    destruct (oracle (world s) (calls (world s))); [| apply Hcreate].
    eexists. reflexivity.
Qed.

Lemma instance_at_update b b' f r :
  (forall i, browser (f i) = browser i) ->
  instance_at b (update_instance b' f r)
  = if Nat.eqb b b' then option_map f (instance_at b r) else instance_at b r.
Proof.
  intro Hf. unfold instance_at. induction r as [| kv r IH]; simpl.
  - now destruct (Nat.eqb b b').
  - destruct (Nat.eqb (browser (snd kv)) b') eqn:Hk; simpl.
    + rewrite Hf. apply Nat.eqb_eq in Hk. rewrite Hk, (Nat.eqb_sym b' b).
      destruct (Nat.eqb b b'); reflexivity.
    + destruct (Nat.eqb (browser (snd kv)) b) eqn:Hb.
      * apply Nat.eqb_eq in Hb. subst b. rewrite Hk. reflexivity.
      * exact IH.
Qed.

Lemma instance_at_in i r : In i (values r) -> instance_at (browser i) r <> None.
Proof.
  intros Hin Hnone. unfold instance_at in Hnone.
  apply (find_none _ _ Hnone) in Hin. now rewrite Nat.eqb_refl in Hin.
Qed.

Lemma marked_unhealthy_update b b' f r w w' :
  (forall i, browser (f i) = browser i) ->
  (forall i, healthy i = false -> healthy (f i) = false) ->
  marked_unhealthy b (mkState r w) ->
  marked_unhealthy b (mkState (update_instance b' f r) w').
Proof.
  intros Hb Hh (j & Hj & Hf). unfold marked_unhealthy. simpl in *.
  rewrite instance_at_update by exact Hb. rewrite Hj.
  destruct (Nat.eqb b b'); simpl; eauto.
Qed.

Lemma registered_update b b' f r w w' :
  (forall i, browser (f i) = browser i) ->
  registered b (mkState r w) ->
  registered b (mkState (update_instance b' f r) w').
Proof.
  intros Hb H. unfold registered in *. simpl in *.
  rewrite instance_at_update by exact Hb.
  destruct (Nat.eqb b b'); [| exact H].
  destruct (instance_at b r); [discriminate | contradiction].
Qed.

Lemma try_instances_keeps_marked b l :
  preserves (marked_unhealthy b) (try_instances l).
Proof.
  assert (Hblind : world_blind (marked_unhealthy b)).
  { intros r w w' H; exact H. }
  induction l as [| instance l IH]; simpl;
    preserving ltac:(first
      [ apply preserves_modifyWorld; exact Hblind
      | apply preserves_validatePage; exact Hblind
      | apply preserves_page_close; exact Hblind
      | apply preserves_createAndSecurePage; exact Hblind
      | exact IH ]).
  - intros [r w] H. simpl. apply marked_unhealthy_update with (w := w); auto.
  - intros [r w] H. simpl. apply marked_unhealthy_update with (w := w); auto.
Qed.

(** When the loop over [l] finds no page, every instance of [l] that the
    registry held has been marked unhealthy. *)
Lemma try_instances_none l : forall s,
  (forall i, In i l -> registered (browser i) s) ->
  fst (try_instances l s) = Ok None ->
  forall i, In i l -> marked_unhealthy (browser i) (snd (try_instances l s)).
Proof.
  induction l as [| instance l IH]; intros s Hreg Hnone i Hin; [contradiction |].
  assert (Hcreate : forall s2,
    (forall i, In i (instance :: l) -> registered (browser i) s2) ->
    fst (create_or_next instance (try_instances l) s2) = Ok None ->
    marked_unhealthy (browser i)
      (snd (create_or_next instance (try_instances l) s2))).
  { intros s2 Hreg2. unfold create_or_next.
    destruct (oracle (world s2) (calls (world s2))); [discriminate |].
    set (s3 := mkState _ _). intro H3.
    destruct Hin as [<- | Hin].
    - apply try_instances_keeps_marked.
      pose proof (Hreg2 instance (or_introl eq_refl)) as Hr.
      unfold registered in Hr. subst s3. unfold marked_unhealthy. simpl.
      rewrite instance_at_update, Nat.eqb_refl by reflexivity.
      destruct (instance_at (browser instance) (browserInstances s2)) as [j |];
        [| contradiction].
      exists (set_healthy false j). auto.
    - apply IH; [| exact H3 | exact Hin].
      intros i' Hi'. subst s3. destruct s2 as [r2 w2].
      apply registered_update with (w := w2); [reflexivity |].
      apply (Hreg2 i'). now right. }
  rewrite try_instances_step in Hnone |- *.
  assert (Hshift : forall w',
    forall i, In i (instance :: l) ->
      registered (browser i)
        (with_world
           (mkState (update_instance (browser instance) shift_pool
                       (browserInstances s)) (world s)) w')).
  { intros w' i' Hi'. destruct s as [r w].
    apply registered_update with (w := w); [reflexivity | now apply Hreg]. }
  destruct (pagePool instance) as [| page pool']; [now apply Hcreate |].
  cbv zeta in *. destruct (isClosed (world s) page).
  - apply Hcreate; [apply Hshift | exact Hnone].
  - destruct (oracle (world s) (calls (world s))); [discriminate |].
    apply Hcreate; [apply Hshift | exact Hnone].
Qed.

(** ** The health monitor *)






Lemma browser_isConnected_run b s :
  browser_isConnected b s
  = (Ok (oracle (world s) (calls (world s))),
     with_world s (call_done (EIsConnected b) (world s))).
Proof. reflexivity. Qed.







(** ** A world that has stopped answering *)


Lemma later_refl w : later w w.
Proof. split; auto. Qed.

Lemma later_trans w1 w2 w3 : later w1 w2 -> later w2 w3 -> later w1 w3.
Proof. intros [H1 H2] [H3 H4]. split; [congruence | lia]. Qed.

Lemma later_close_attempted p w : later w (close_attempted p w).
Proof.
  unfold close_attempted, later. destruct (oracle w (calls w)); simpl; auto.
Qed.

Lemma later_closing_all l : forall w, later w (closing_all l w).
Proof.
  induction l as [| p l IH]; intro w; simpl; [apply later_refl |].
  eapply later_trans; [apply later_close_attempted | apply IH].
Qed.





(** ** Computations that use no fuel *)


Lemma terminates_try_catch {A} (c : M A) (h : Error -> M A) :
  terminates c -> (forall e, terminates (h e)) -> terminates (try_catch c h).
Proof.
  intros Hc Hh s. unfold try_catch. specialize (Hc s).
  destruct (c s) as [[a | e |] s']; simpl in *;
    [discriminate | apply Hh | contradiction].
Qed.






(** ** Splitting at commas *)

Lemma split_comma_cons_comma rest :
  split_comma (String ","%char rest) = EmptyString :: split_comma rest.
Proof. reflexivity. Qed.

Lemma split_comma_cons_other c rest :
  Ascii.eqb c ","%char = false ->
  split_comma (String c rest)
  = String c (hd EmptyString (split_comma rest)) :: tl (split_comma rest).
Proof.
  intro H. simpl. rewrite H.
  pose proof (split_comma_nonempty rest) as Hne.
  destruct (split_comma rest); [contradiction | reflexivity].
Qed.

Lemma concat_comma_cons x y ys :
  String.concat "," (x :: y :: ys)
  = (x ++ String ","%char (String.concat "," (y :: ys)))%string.
Proof. reflexivity. Qed.

Lemma split_comma_joins v : String.concat "," (split_comma v) = v.
Proof.
  induction v as [| c v IH]; [reflexivity |].
  pose proof (split_comma_nonempty v) as Hne.
  destruct (Ascii.eqb c ","%char) eqn:Hc.
  - apply Ascii.eqb_eq in Hc. subst c. rewrite split_comma_cons_comma.
    destruct (split_comma v) as [| y ys]; [contradiction |].
    rewrite concat_comma_cons, IH. reflexivity.
  - rewrite (@split_comma_cons_other _ _ Hc).
    destruct (split_comma v) as [| y [| z zs]]; [contradiction | |].
    + simpl in *. now rewrite IH.
    + cbn [hd tl]. rewrite concat_comma_cons.
      rewrite concat_comma_cons in IH. cbn [append]. now rewrite IH.
Qed.

Lemma split_comma_pieces v :
  Forall (fun piece => has_comma piece = false) (split_comma v).
Proof.
  induction v as [| c v IH]; [repeat constructor |].
  pose proof (split_comma_nonempty v) as Hne.
  destruct (Ascii.eqb c ","%char) eqn:Hc.
  - apply Ascii.eqb_eq in Hc. subst c. rewrite split_comma_cons_comma.
    constructor; [reflexivity | exact IH].
  - rewrite (@split_comma_cons_other _ _ Hc).
    destruct (split_comma v) as [| y ys]; [contradiction |].
    inversion IH as [| ? ? Hy Hys]; subst. constructor; [| exact Hys].
    unfold has_comma in *. cbn [list_ascii_of_string existsb].
    rewrite Ascii.eqb_sym, Hc. exact Hy.
Qed.

Lemma split_comma_count v :
  List.length (split_comma v)
  = S (count_occ ascii_dec (list_ascii_of_string v) ","%char).
Proof.
  induction v as [| c v IH]; [reflexivity |].
  pose proof (split_comma_nonempty v) as Hne.
  destruct (Ascii.eqb c ","%char) eqn:Hc.
  - apply Ascii.eqb_eq in Hc. subst c. rewrite split_comma_cons_comma.
    simpl. rewrite IH. destruct (ascii_dec "," ","); [reflexivity | contradiction].
  - rewrite (@split_comma_cons_other _ _ Hc). apply Ascii.eqb_neq in Hc.
    destruct (split_comma v) as [| y ys]; [contradiction |].
    simpl in *. rewrite IH. destruct (ascii_dec c ","); [contradiction | reflexivity].
Qed.

Lemma split_comma_piece_then x rest :
  has_comma x = false ->
  split_comma (x ++ String ","%char rest) = x :: split_comma rest.
Proof.
  induction x as [| c x IH]; intro H; [reflexivity |].
  unfold has_comma in H. cbn [list_ascii_of_string existsb] in H.
  apply orb_false_iff in H.
  destruct H as [Hc Hx]. rewrite Ascii.eqb_sym in Hc.
  change ((String c x ++ String "," rest)%string)
    with (String c (x ++ String "," rest)).
  rewrite (@split_comma_cons_other _ _ Hc), (IH Hx). reflexivity.
Qed.

Lemma split_comma_piece x : has_comma x = false -> split_comma x = [x].
Proof.
  induction x as [| c x IH]; intro H; [reflexivity |].
  unfold has_comma in H. cbn [list_ascii_of_string existsb] in H.
  apply orb_false_iff in H.
  destruct H as [Hc Hx]. rewrite Ascii.eqb_sym in Hc.
  rewrite (@split_comma_cons_other _ _ Hc), (IH Hx). reflexivity.
Qed.

Lemma split_comma_of_join l :
  l <> [] -> Forall (fun piece => has_comma piece = false) l ->
  split_comma (String.concat "," l) = l.
Proof.
  induction l as [| x [| y ys] IH]; intros Hne Hl; [contradiction | |].
  - inversion Hl; subst. now apply split_comma_piece.
  - inversion Hl as [| ? ? Hx Hrest]; subst.
    rewrite concat_comma_cons, (@split_comma_piece_then _ _ Hx), IH;
      [reflexivity | discriminate | exact Hrest].
Qed.

(** ** The order of the candidates *)

Lemma insert_by_pool_perm x l : Permutation (insert_by_pool x l) (x :: l).
Proof.
  induction l as [| y l IH]; simpl; [reflexivity |].
  destruct (Nat.ltb (List.length (pagePool x)) (List.length (pagePool y)));
    [| reflexivity].
  rewrite IH. apply perm_swap.
Qed.

Lemma sort_by_pool_perm l : Permutation (sort_by_pool l) l.
Proof.
  unfold sort_by_pool. induction l as [| x l IH]; simpl; [reflexivity |].
  rewrite insert_by_pool_perm. now constructor.
Qed.

Lemma insert_by_pool_sorted x l :
  StronglySorted at_least_as_full l ->
  StronglySorted at_least_as_full (insert_by_pool x l).
Proof.
  intro Hl. induction Hl as [| y l Hl IH Hy]; simpl.
  - repeat constructor.
  - destruct (Nat.ltb (List.length (pagePool x)) (List.length (pagePool y)))
      eqn:Hlt.
    + apply Nat.ltb_lt in Hlt. constructor; [exact IH |].
      apply Forall_forall. intros z Hz. apply in_insert_by_pool in Hz.
      destruct Hz as [-> | Hz].
      * unfold at_least_as_full. lia.
      * rewrite Forall_forall in Hy. now apply Hy.
    + apply Nat.ltb_ge in Hlt. constructor; [now constructor |].
      constructor; [exact Hlt |].
      apply Forall_forall. intros z Hz. rewrite Forall_forall in Hy.
      specialize (Hy z Hz). unfold at_least_as_full in *. lia.
Qed.

Lemma sort_by_pool_sorted l : StronglySorted at_least_as_full (sort_by_pool l).
Proof.
  unfold sort_by_pool. induction l as [| x l IH]; simpl; [constructor |].
  now apply insert_by_pool_sorted.
Qed.

Lemma insert_by_pool_filter n x l :
  filter (pool_has n) (insert_by_pool x l) = filter (pool_has n) (x :: l).
Proof.
  induction l as [| y l IH]; [reflexivity |].
  cbn [insert_by_pool].
  destruct (Nat.ltb (List.length (pagePool x)) (List.length (pagePool y)))
    eqn:Hlt; [| reflexivity].
  apply Nat.ltb_lt in Hlt. cbn [filter] in *. rewrite IH.
  destruct (pool_has n y) eqn:Hy; destruct (pool_has n x) eqn:Hx;
    try reflexivity.
  unfold pool_has in Hy, Hx. apply Nat.eqb_eq in Hy, Hx. lia.
Qed.

(** The sort is stable: instances with equally full pools keep their order. *)
Lemma sort_by_pool_stable n l :
  filter (pool_has n) (sort_by_pool l) = filter (pool_has n) l.
Proof.
  unfold sort_by_pool. induction l as [| x l IH]; [reflexivity |].
  cbn [fold_right]. rewrite insert_by_pool_filter. cbn [filter].
  now rewrite IH.
Qed.

(** A first candidate whose pooled head page passes validation is handed
    out at once. *)
Lemma try_instances_first_valid i rest p pool' s :
  pagePool i = p :: pool' ->
  isClosed (world s) p = false ->
  oracle (world s) (calls (world s)) = true ->
  try_instances (i :: rest) s
  = (Ok (Some p),
     mkState (update_instance (browser i) shift_pool (browserInstances s))
             (call_done (EEvaluate p) (world s))).
Proof.
  intros Hpool Hopen Heval. rewrite try_instances_step, Hpool. cbv zeta.
  now rewrite Hopen, Heval.
Qed.

(** ** Shutdown *)

Lemma cleanup_each_run l : forall s,
  cleanup_each l s = (Ok tt, with_world s (shut_down_all l (world s))).
Proof.
  induction l as [| i l IH]; intro s; cbn [cleanup_each shut_down_all].
  - destruct s; reflexivity.
  - unfold bind, try_catch.
    rewrite close_all_run, swallow_browser_close_run, IH. reflexivity.
Qed.

Lemma cleanup_run s :
  cleanup s
  = (Ok tt,
     mkState [] (shut_down_all (values (browserInstances s))
                   (record (ELog LogCleanup) (world s)))).
Proof.
  unfold cleanup, bind, log, emit, modifyWorld, getRegistry, modifyRegistry.
  cbn [fst snd browserInstances world]. rewrite cleanup_each_run. reflexivity.
Qed.

Lemma closing_all_closings l : forall w,
  observe keep_closing (trace (closing_all l w))
  = observe keep_closing (trace w) ++ map ClosingPage l.
Proof.
  induction l as [| p l IH]; intro w; cbn [closing_all map].
  - now rewrite app_nil_r.
  - rewrite IH, trace_close_attempted, observe_app, <- app_assoc. reflexivity.
Qed.

Lemma shut_down_all_closings l : forall w,
  observe keep_closing (trace (shut_down_all l w))
  = observe keep_closing (trace w) ++ flat_map closings_of l.
Proof.
  induction l as [| i l IH]; intro w; cbn [shut_down_all flat_map].
  - now rewrite app_nil_r.
  - rewrite IH. unfold shut_down, closings_of.
    rewrite trace_call_done, observe_app, closing_all_closings.
    rewrite <- !app_assoc. reflexivity.
Qed.

Lemma closing_all_no_error l : forall w,
  observe keep_cleanup_error (trace (closing_all l w))
  = observe keep_cleanup_error (trace w).
Proof.
  induction l as [| p l IH]; intro w; cbn [closing_all]; [reflexivity |].
  rewrite IH, trace_close_attempted, observe_app. apply app_nil_r.
Qed.

Lemma shut_down_all_no_error l : forall w,
  observe keep_cleanup_error (trace (shut_down_all l w))
  = observe keep_cleanup_error (trace w).
Proof.
  induction l as [| i l IH]; intro w; cbn [shut_down_all]; [reflexivity |].
  rewrite IH. unfold shut_down.
  rewrite trace_call_done, observe_app, closing_all_no_error. apply app_nil_r.
Qed.

Lemma calls_close_attempted p w : calls (close_attempted p w) = S (calls w).
Proof. unfold close_attempted. destruct (oracle w (calls w)); reflexivity. Qed.

Lemma calls_closing_all l : forall w,
  calls (closing_all l w) = calls w + List.length l.
Proof.
  induction l as [| p l IH]; intro w; cbn [closing_all List.length]; [lia |].
  rewrite IH, calls_close_attempted. lia.
Qed.

Lemma calls_shut_down_all l : forall w,
  calls (shut_down_all l w)
  = calls w + List.length (flat_map closings_of l).
Proof.
  induction l as [| i l IH]; intro w; cbn [shut_down_all flat_map List.length];
    [lia |].
  rewrite IH. unfold shut_down, closings_of. cbn [calls call_done record count_call].
  rewrite calls_closing_all, !length_app, length_map. cbn [List.length]. lia.
Qed.

Lemma answering_later w w' : answering w -> later w w' -> answering w'.
Proof. intros Ha [Ho Hc] m Hm. rewrite Ho. apply Ha. lia. Qed.

Lemma later_shut_down i w : later w (shut_down i w).
Proof.
  unfold shut_down. eapply later_trans; [apply later_closing_all |].
  split; cbn; auto.
Qed.

(** A closed page stays closed. *)
Lemma isClosed_still_close_attempted p q w :
  isClosed w p = true -> isClosed (close_attempted q w) p = true.
Proof.
  unfold close_attempted, isClosed.
  destruct (oracle w (calls w)); cbn [pages set_pages call_done record count_call];
    [| auto].
  destruct (Nat.eq_dec (pid q) (pid p)) as [-> | Hne].
  - destruct (nth_error (pages w) (pid p)) as [ps |] eqn:Hnth.
    + now rewrite (nth_error_update_nth _ _ _ Hnth).
    + intros _. apply nth_error_None in Hnth.
      rewrite <- (update_nth_length mark_closed (pages w) (pid p)) in Hnth.
      apply nth_error_None in Hnth. now rewrite Hnth.
  - now rewrite nth_error_update_nth_other.
Qed.

Lemma isClosed_still_closing_all p l : forall w,
  isClosed w p = true -> isClosed (closing_all l w) p = true.
Proof.
  induction l as [| q l IH]; intros w H; cbn [closing_all]; [exact H |].
  now apply IH, isClosed_still_close_attempted.
Qed.

Lemma isClosed_still_shut_down_all p l : forall w,
  isClosed w p = true -> isClosed (shut_down_all l w) p = true.
Proof.
  induction l as [| i l IH]; intros w H; cbn [shut_down_all]; [exact H |].
  apply IH. unfold shut_down. now apply isClosed_still_closing_all.
Qed.

(** A close that Playwright carries out leaves the page closed. *)
Lemma isClosed_closed_now p w :
  oracle w (calls w) = true -> isClosed (close_attempted p w) p = true.
Proof.
  intro Ho. unfold close_attempted, isClosed. rewrite Ho.
  cbn [pages set_pages call_done record count_call].
  destruct (nth_error (pages w) (pid p)) as [ps |] eqn:Hnth.
  - now rewrite (nth_error_update_nth _ _ _ Hnth).
  - apply nth_error_None in Hnth.
    rewrite <- (update_nth_length mark_closed (pages w) (pid p)) in Hnth.
    apply nth_error_None in Hnth. now rewrite Hnth.
Qed.

Lemma closing_all_closes p l : forall w,
  answering w -> In p l -> isClosed (closing_all l w) p = true.
Proof.
  induction l as [| q l IH]; intros w Ha Hin; [destruct Hin |].
  cbn [closing_all]. destruct Hin as [-> | Hin].
  - apply isClosed_still_closing_all, isClosed_closed_now. apply Ha. lia.
  - apply IH; [| exact Hin].
    eapply answering_later; [exact Ha | apply later_close_attempted].
Qed.

Lemma shut_down_all_closes p i l : forall w,
  answering w -> In i l -> In p (pagePool i) ->
  isClosed (shut_down_all l w) p = true.
Proof.
  induction l as [| j l IH]; intros w Ha Hi Hp; [destruct Hi |].
  cbn [shut_down_all]. destruct Hi as [-> | Hi].
  - apply isClosed_still_shut_down_all. unfold shut_down, isClosed.
    cbn [pages call_done record count_call].
    now apply closing_all_closes.
  - apply IH; [| exact Hi | exact Hp].
    eapply answering_later; [exact Ha | apply later_shut_down].
Qed.

(** ** Metrics *)

Lemma fold_count_instance l : forall m,
  fold_left count_instance l m
  = Metrics.mk (Metrics.totalInstances m)
               (Metrics.healthyInstances m + List.length (filter healthy l))
               (Metrics.totalPages m
                + List.length (filter healthy l) * PAGE_POOL_SIZE)
               (Metrics.availablePages m + pooled_in_healthy l).
Proof.
  unfold pooled_in_healthy. induction l as [| i l IH]; intro m.
  - destruct m; cbn. f_equal; lia.
  - cbn [fold_left filter]. rewrite IH. unfold count_instance.
    destruct (healthy i); cbn [Metrics.totalInstances Metrics.healthyInstances
      Metrics.totalPages Metrics.availablePages List.length map list_sum fold_right];
      unfold list_sum; f_equal; lia.
Qed.

Lemma pooled_in_healthy_bounded r :
  pool_bounded r ->
  pooled_in_healthy (values r)
  <= List.length (filter healthy (values r)) * PAGE_POOL_SIZE.
Proof.
  unfold pool_bounded, pooled_in_healthy, values.
  generalize PAGE_POOL_SIZE as size. intro size.
  induction 1 as [| kv r Hkv _ IH]; [cbn; lia |].
  cbn [map filter]. destruct (healthy (snd kv)); [| exact IH].
  unfold list_sum in *. cbn [map fold_right List.length] in *. lia.
Qed.

(** ** A coherent registry *)

Lemma coherent_blind : world_blind coherent.
Proof. intros r w w' H; exact H. Qed.

Lemma entry_coherent_map_set e i r :
  entry_coherent (e, i) -> Forall entry_coherent r ->
  Forall entry_coherent (map_set e i r).
Proof.
  intros Hi Hr. induction Hr as [| kv r Hkv Hr IH]; simpl.
  - constructor; [exact Hi | constructor].
  - destruct (String.eqb (fst kv) e); constructor; auto.
Qed.

Lemma registry_coherent_map_set e i r :
  endpoint i = e -> pool_owned i ->
  registry_coherent r -> registry_coherent (map_set e i r).
Proof.
  intros He Hi [Hk Hr]. split.
  - rewrite keys_map_set.
    destruct (in_dec string_dec e (keys r)) as [| Hnew]; [exact Hk |].
    apply NoDup_app; [exact Hk | repeat constructor; intros [] |].
    intros x Hx [<- | []]. contradiction.
  - apply entry_coherent_map_set; [split; assumption | exact Hr].
Qed.

Lemma registry_coherent_map_delete e r :
  registry_coherent r -> registry_coherent (map_delete e r).
Proof.
  intros [Hk Hr]. unfold map_delete. split.
  - clear Hr. unfold keys in *. induction r as [| kv r IH]; simpl; [constructor |].
    inversion Hk as [| ? ? Hnotin Hk']; subst.
    destruct (negb (String.eqb (fst kv) e)); [| auto].
    simpl. constructor; [| auto].
    intro Hin. apply Hnotin. apply in_map_iff in Hin.
    destruct Hin as (kv' & Heq & Hin). apply filter_In in Hin.
    apply in_map_iff. exists kv'. tauto.
  - rewrite Forall_forall in *. intros kv Hin. apply filter_In in Hin.
    now apply Hr.
Qed.

Lemma registry_coherent_update b f r :
  (forall i, browser i = b ->
             endpoint (f i) = endpoint i /\ (pool_owned i -> pool_owned (f i))) ->
  registry_coherent r -> registry_coherent (update_instance b f r).
Proof.
  intros Hf [Hk Hr]. split; [now rewrite keys_update_instance |].
  clear Hk. induction Hr as [| kv r Hkv Hr IH]; simpl; [constructor |].
  destruct (Nat.eqb (browser (snd kv)) b) eqn:Hb.
  - apply Nat.eqb_eq in Hb. destruct (Hf _ Hb) as [He Ho].
    destruct Hkv as [Hke Hko].
    constructor; [| exact Hr]. split; simpl; [congruence | auto].
  - constructor; assumption.
Qed.

Lemma pool_owned_push p i :
  pbrowser p = browser i -> pool_owned i -> pool_owned (push_page p i).
Proof.
  unfold pool_owned, push_page. simpl. intros Hp Hi.
  apply Forall_app. split; [exact Hi | repeat constructor; exact Hp].
Qed.

Lemma pool_owned_shift i : pool_owned i -> pool_owned (shift_pool i).
Proof.
  unfold pool_owned, shift_pool. simpl. intro Hi.
  destruct (pagePool i); [constructor | now inversion Hi].
Qed.

(** The page that [resetPage] gives back is the owner's: the page itself, or
    a replacement made by the owner's browser. *)
Lemma resetPage_page_owner p s instance page' :
  owner_of p (browserInstances s) = Some instance ->
  fst (resetPage p s) = Ok page' ->
  pbrowser page' = browser instance.
Proof.
  intros Ho. rewrite resetPage_run, Ho.
  destruct (reset_owned_cases p instance s) as [[_ ->] | [(_ & _ & ->) | (_ & _ & ->)]];
    simpl; intros [= <-].
  - now apply owner_of_browser with (r := browserInstances s).
  - reflexivity.
Qed.

Ltac keeping_coherent :=
  preserving ltac:(first
    [ apply preserves_modifyWorld; exact coherent_blind
    | apply preserves_external; exact coherent_blind
    | apply preserves_chromium_connect; exact coherent_blind
    | apply preserves_createAndSecurePage; exact coherent_blind
    | apply preserves_validatePage; exact coherent_blind
    | apply preserves_page_close; exact coherent_blind
    | apply preserves_close_all; exact coherent_blind
    | apply preserves_getEndpoints; exact coherent_blind
    | apply preserves_browser_isConnected; exact coherent_blind
    | apply (preserves_modifyRegistry registry_coherent);
      intros ? ?; apply registry_coherent_map_delete; assumption
    | apply (preserves_modifyRegistry registry_coherent);
      intros ? ?; apply registry_coherent_update;
      [ intros ? _; split; [reflexivity | intro; assumption] | assumption ]
    | assumption ]).

Lemma connectToBrowser_coherent e : preserves coherent (connectToBrowser e).
Proof.
  unfold connectToBrowser. apply preserves_try_catch.
  - apply preserves_bind; [keeping_coherent | intro b].
    apply preserves_bind; [keeping_coherent | intro t].
    apply preserves_bind.
    { apply (preserves_modifyRegistry registry_coherent).
      intros r Hr. apply registry_coherent_map_set; [reflexivity | constructor | exact Hr]. }
    intros _.
    apply preserves_bind_val
      with (V := fun pool => Forall (fun p => pbrowser p = b) pool).
    + apply preserves_warm_pool. exact coherent_blind.
    + intros s pool H. apply warm_pool_pages in H. destruct H as (-> & _).
      apply Forall_forall. intros p Hp. apply in_map_iff in Hp.
      now destruct Hp as (k & <- & _).
    + intros pool Hpool. apply preserves_bind; [| intro; keeping_coherent].
      apply (preserves_modifyRegistry registry_coherent).
      intros r Hr. apply registry_coherent_update; [| exact Hr].
      intros i Hi. split; [reflexivity |]. intros _.
      unfold pool_owned. simpl. now rewrite Hi.
  - intro error. keeping_coherent.
Qed.

Lemma connect_each_coherent l : preserves coherent (connect_each l).
Proof.
  induction l as [| e l IH]; simpl; keeping_coherent.
  apply connectToBrowser_coherent.
Qed.

Lemma initializeConnections_coherent : preserves coherent initializeConnections.
Proof.
  unfold initializeConnections. keeping_coherent. apply connect_each_coherent.
Qed.

Lemma reconnect_loop_coherent fuel instance :
  forall attempt, preserves coherent (reconnect_loop fuel instance attempt).
Proof.
  induction fuel as [| fuel IH]; intro attempt; simpl; unfold reconnect_once;
    keeping_coherent.
  - apply connectToBrowser_coherent.
  - apply IH.
Qed.

Lemma attemptRecovery_coherent fuel instance :
  preserves coherent (attemptRecovery fuel instance).
Proof.
  destruct instance as [instance |]; simpl.
  - apply reconnect_loop_coherent.
  - apply initializeConnections_coherent.
Qed.

Lemma try_instances_coherent l : preserves coherent (try_instances l).
Proof.
  induction l as [| instance l IH]; simpl; keeping_coherent.
  apply (preserves_modifyRegistry registry_coherent).
  intros r Hr. apply registry_coherent_update; [| exact Hr].
  intros i _. split; [reflexivity | apply pool_owned_shift].
Qed.

Lemma getAvailablePage_coherent : preserves coherent getAvailablePage.
Proof.
  unfold getAvailablePage. keeping_coherent.
  - apply initializeConnections_coherent.
  - apply try_instances_coherent.
Qed.

Lemma returnPage_coherent p : preserves coherent (returnPage p).
Proof.
  intros s Hs. unfold coherent in *.
  destruct (returnPage_effect p s)
    as [_ [-> | (instance & page' & Ho & _ & Hreset & ->)]]; [exact Hs |].
  apply registry_coherent_update; [| exact Hs].
  intros i Hi. split; [reflexivity |].
  apply pool_owned_push. rewrite Hi.
  eapply resetPage_page_owner; eassumption.
Qed.

Lemma checkBrowserHealth_coherent fuel instance :
  preserves coherent (checkBrowserHealth fuel instance).
Proof.
  unfold checkBrowserHealth. keeping_coherent.
  apply attemptRecovery_coherent.
Qed.

Lemma health_tick_coherent fuel : forall k, preserves coherent (health_tick fuel k).
Proof.
  induction fuel as [| fuel IH]; intro k; simpl; keeping_coherent.
  - apply checkBrowserHealth_coherent.
  - apply IH.
Qed.

Lemma cleanup_each_coherent l : preserves coherent (cleanup_each l).
Proof. induction l as [| i l IH]; simpl; keeping_coherent. Qed.

Lemma cleanup_coherent : preserves coherent cleanup.
Proof.
  unfold cleanup. keeping_coherent.
  - apply cleanup_each_coherent.
  - apply (preserves_modifyRegistry registry_coherent). intros r _.
    split; constructor.
Qed.

(** In a coherent registry a pooled page has an owner, with the browser of
    the instance that pools it. *)
Lemma pooled_page_owner r kv p :
  registry_coherent r -> In kv r -> In p (pagePool (snd kv)) ->
  exists owner, owner_of p r = Some owner /\ browser owner = browser (snd kv).
Proof.
  intros [_ Hr] Hkv Hp.
  rewrite Forall_forall in Hr. destruct (Hr kv Hkv) as [_ Ho].
  unfold pool_owned in Ho. rewrite Forall_forall in Ho. specialize (Ho p Hp).
  unfold owner_of.
  destruct (find (fun instance => Nat.eqb (pbrowser p) (browser instance))
                 (values r)) as [owner |] eqn:Hfind.
  - exists owner. split; [reflexivity |]. apply find_some in Hfind.
    destruct Hfind as [_ Hb]. apply Nat.eqb_eq in Hb. congruence.
  - exfalso.
    assert (Hin : In (snd kv) (values r)) by (unfold values; now apply in_map).
    pose proof (find_none _ _ Hfind (snd kv) Hin) as Hno. cbv beta in Hno.
    rewrite Ho, Nat.eqb_refl in Hno. discriminate.
Qed.

(** ** A connection that fails *)

Lemma map_get_delete_same e r : map_get e (map_delete e r) = None.
Proof.
  unfold map_get, map_delete. induction r as [| kv r IH]; simpl; [reflexivity |].
  destruct (String.eqb (fst kv) e) eqn:He; simpl; [exact IH |].
  now rewrite He.
Qed.

Lemma map_get_delete_other e e' r :
  e' <> e -> map_get e' (map_delete e r) = map_get e' r.
Proof.
  intro Hne. unfold map_get, map_delete.
  induction r as [| kv r IH]; simpl; [reflexivity |].
  destruct (String.eqb (fst kv) e) eqn:He; simpl.
  - apply String.eqb_eq in He.
    destruct (String.eqb (fst kv) e') eqn:He'; [| exact IH].
    apply String.eqb_eq in He'. congruence.
  - destruct (String.eqb (fst kv) e'); [reflexivity | exact IH].
Qed.

Lemma warm_pool_no_closing n b i :
  forall pool, silent keep_closing (warm_pool n b i pool).
Proof.
  induction n as [| n IH]; intros pool L; simpl; unfold_calls; quiet idtac.
  apply IH.
Qed.

(** The error of a failed warm-up is that of a call that failed. *)
Lemma warm_pool_throws n b i : forall pool s error,
  fst (warm_pool n b i pool s) = Throw error ->
  exists c, error = External c /\ calls (world s) <= c /\
            oracle (world s) c = false.
Proof.
  induction n as [| n IH]; intros pool s error; simpl; [discriminate |].
  unfold bind. rewrite createAndSecurePage_run.
  destruct (oracle (world s) (calls (world s))) eqn:Ho.
  - intro H. apply IH in H. destruct H as (c & -> & Hc & Hf).
    simpl in Hc, Hf. exists c. repeat split; [lia | exact Hf].
  - simpl. intros [= <-]. exists (calls (world s)). auto.
Qed.

Lemma connect_failed_closing e error s :
  observed keep_closing (snd (connect_failed e error s))
  = observed keep_closing s
    ++ match map_get e (browserInstances s) with
       | Some instance => [ClosingBrowser (browser instance)]
       | None => []
       end.
Proof.
  unfold connect_failed, observed.
  destruct (map_get e (browserInstances s)) as [instance |]; simpl;
    rewrite !observe_app; simpl; now rewrite ?app_nil_r.
Qed.

Lemma connect_failed_logs e error s :
  trace (world (snd (connect_failed e error s)))
  = (trace (world s)
     ++ match map_get e (browserInstances s) with
        | Some instance =>
            [ECloseBrowser (browser instance)
                           (oracle (world s) (calls (world s)))]
        | None => []
        end)
    ++ [ELog (LogConnectFailed e)].
Proof.
  unfold connect_failed.
  destruct (map_get e (browserInstances s)) as [instance |]; simpl;
    now rewrite ?app_nil_r.
Qed.

(** What a failing [connectToBrowser] throws, closes and logs. *)
Lemma connectToBrowser_failure e s error :
  fst (connectToBrowser e s) = Throw error ->
  (exists c, error = External c /\ calls (world s) <= c /\
             oracle (world s) c = false) /\
  observed keep_closing (snd (connectToBrowser e s))
  = observed keep_closing s
    ++ match closed_on_failure e s with
       | Some b => [ClosingBrowser b]
       | None => []
       end /\
  exists evs,
    trace (world (snd (connectToBrowser e s)))
    = trace (world s) ++ evs ++ [ELog (LogConnectFailed e)].
Proof.
  unfold closed_on_failure. rewrite connectToBrowser_run. cbv zeta.
  destruct (oracle (world s) (calls (world s))) eqn:Ho.
  - set (s1 := mkState _ (browser_connected e (world s))).
    pose proof (@warm_pool_throws PAGE_POOL_SIZE (nextBrowser (world s))
                  (new_instance e (world s)) [] s1) as Hw.
    pose proof (warm_pool_registry PAGE_POOL_SIZE (nextBrowser (world s))
                  (new_instance e (world s)) [] s1) as Hr.
    pose proof (silent_run s1
                  (warm_pool_no_closing PAGE_POOL_SIZE (nextBrowser (world s))
                     (new_instance e (world s)) [])) as Hq.
    destruct (warm_pool_extends PAGE_POOL_SIZE (nextBrowser (world s))
                (new_instance e (world s)) [] s1) as [evs Hevs].
    destruct (warm_pool PAGE_POOL_SIZE (nextBrowser (world s))
                (new_instance e (world s)) [] s1) as [[pool | error' |] s2];
      cbn [fst snd] in *; try discriminate.
    destruct (connect_failed_registry e error' s2) as [Hfst _].
    rewrite Hfst. intros [= ->].
    assert (Hget : map_get e (browserInstances s2)
                   = Some (new_instance e (world s))).
    { rewrite Hr. subst s1. cbn [browserInstances]. apply map_get_set_same. }
    split; [| split].
    + destruct (Hw error eq_refl) as (c & -> & Hc & Hf). subst s1.
      cbn in Hc, Hf. exists c. repeat split; [lia | exact Hf].
    + rewrite connect_failed_closing, Hget, Hq. subst s1. unfold observed.
      cbn [world browser_connected trace new_instance browser].
      rewrite observe_app. cbn [observe keep_closing]. now rewrite app_nil_r.
    + rewrite connect_failed_logs, Hget, Hevs. subst s1.
      cbn [world browser_connected trace new_instance browser].
      exists ([EConnect e true] ++ evs
              ++ [ECloseBrowser (nextBrowser (world s))
                                (oracle (world s2) (calls (world s2)))]).
      rewrite <- !app_assoc. reflexivity.
  - destruct (connect_failed_registry e (External (calls (world s)))
                (with_world s (call_done (EConnect e) (world s)))) as [Hfst _].
    rewrite Hfst. intros [= <-]. split; [| split].
    + exists (calls (world s)). auto.
    + rewrite connect_failed_closing. unfold observed.
      cbn [with_world browserInstances world call_done record trace count_call].
      rewrite observe_app. cbn [observe keep_closing]. rewrite app_nil_r.
      destruct (map_get e (browserInstances s)); reflexivity.
    + rewrite connect_failed_logs.
      cbn [with_world browserInstances world].
      rewrite trace_call_done.
      match goal with |- context [(trace (world s) ++ _) ++ ?closes] =>
        exists ([EConnect e (oracle (world s) (calls (world s)))] ++ closes)
      end.
      rewrite <- !app_assoc. reflexivity.
Qed.

(** ** Checking a page out and returning it *)

Lemma owner_of_instance_at p r : owner_of p r = instance_at (pbrowser p) r.
Proof.
  unfold owner_of, instance_at.
  induction (values r) as [| i l IH]; simpl; [reflexivity |].
  rewrite (Nat.eqb_sym (pbrowser p) (browser i)), IH. reflexivity.
Qed.

(** Among instances with distinct browsers, the instance around the browser
    of a registered instance is that instance. *)
Lemma instance_at_unique i r :
  NoDup (map browser (values r)) -> In i (values r) ->
  instance_at (browser i) r = Some i.
Proof.
  unfold instance_at, values. induction r as [| kv r IH]; simpl; [tauto |].
  intros Hnd Hin. inversion Hnd as [| ? ? Hnotin Hnd']; subst.
  destruct (Nat.eqb (browser (snd kv)) (browser i)) eqn:Hb.
  - destruct Hin as [Heq | Hin]; [now rewrite Heq |].
    apply Nat.eqb_eq in Hb. exfalso. apply Hnotin. rewrite Hb.
    apply in_map with (f := browser) in Hin. exact Hin.
  - destruct Hin as [Heq | Hin]; [| auto].
    rewrite Heq, Nat.eqb_refl in Hb. discriminate.
Qed.

Lemma update_instance_twice b f g r :
  (forall j, browser (f j) = browser j) ->
  update_instance b g (update_instance b f r)
  = update_instance b (fun j => g (f j)) r.
Proof.
  intro Hf. induction r as [| kv r IH]; simpl; [reflexivity |].
  destruct (Nat.eqb (browser (snd kv)) b) eqn:Hb; simpl.
  - now rewrite Hf, Hb.
  - now rewrite Hb, IH.
Qed.

Lemma update_instance_at b f g r i :
  instance_at b r = Some i -> f i = g i ->
  update_instance b f r = update_instance b g r.
Proof.
  unfold instance_at, values. intros Hat Hfg.
  induction r as [| kv r IH]; simpl in *; [reflexivity |].
  destruct (Nat.eqb (browser (snd kv)) b).
  - injection Hat as ->. now rewrite Hfg.
  - now rewrite IH.
Qed.

(** ** A health check that finds the browser well *)

Lemma checkBrowserHealth_answers fuel instance s :
  answers 4 (world s) ->
  checkBrowserHealth fuel instance s
  = (Ok tt,
     mkState (update_instance (browser instance) (revive (clock (world s)))
                (browserInstances s))
             (probed instance (world s))).
Proof.
  intro Ha.
  assert (H0 : oracle (world s) (calls (world s)) = true) by (apply Ha; lia).
  assert (H1 : oracle (world s) (S (calls (world s))) = true) by (apply Ha; lia).
  assert (H2 : oracle (world s) (S (S (calls (world s)))) = true)
    by (apply Ha; lia).
  assert (H3 : oracle (world s) (S (S (S (calls (world s))))) = true)
    by (apply Ha; lia).
  unfold checkBrowserHealth, try_catch.
  unfold bind at 1. rewrite browser_isConnected_run, H0. cbn [fst snd].
  unfold bind at 1. cbn [ret fst snd].
  unfold bind at 1. rewrite createAndSecurePage_run.
  cbn [with_world world browserInstances call_done record count_call oracle calls].
  rewrite H1. cbn [fst snd].
  unfold bind at 1. unfold page_goto. rewrite external_run.
  cbn [with_world world browserInstances page_created set_pages call_done record
       count_call oracle calls].
  rewrite H2. cbn [fst snd].
  unfold bind at 1. rewrite page_close_run.
  cbn [with_world world browserInstances page_created set_pages call_done record
       count_call oracle calls].
  rewrite H3. cbn [fst snd].
  unfold bind, now, getWorld, ret, modifyRegistry. cbn [fst snd].
  unfold probed, close_attempted, test_page.
  cbn [with_world world browserInstances page_created set_pages call_done record
       count_call oracle calls pages clock].
  rewrite H3. reflexivity.
Qed.

Lemma probed_trace instance w :
  answers 4 w ->
  trace (probed instance w)
  = trace w ++ [EIsConnected (browser instance) true;
                ENewPage (browser instance) true;
                EGoto (test_page instance w) None true;
                EClosePage (test_page instance w) true].
Proof.
  intro Ha.
  assert (H0 : oracle w (calls w) = true) by (apply Ha; lia).
  assert (H1 : oracle w (S (calls w)) = true) by (apply Ha; lia).
  assert (H2 : oracle w (S (S (calls w))) = true) by (apply Ha; lia).
  assert (H3 : oracle w (S (S (S (calls w)))) = true) by (apply Ha; lia).
  unfold probed. rewrite trace_close_attempted.
  cbn [page_created set_pages call_done record count_call oracle calls trace].
  rewrite H0, H1, H2, H3, <- !app_assoc. reflexivity.
Qed.

Lemma probed_world instance w :
  answers 4 w ->
  oracle (probed instance w) = oracle w /\
  calls (probed instance w) = calls w + 4 /\
  clock (probed instance w) = clock w /\
  nextBrowser (probed instance w) = nextBrowser w /\
  pages (probed instance w) = pages w ++ [mark_closed new_secured_page].
Proof.
  intro Ha.
  assert (H3 : oracle w (S (S (S (calls w)))) = true) by (apply Ha; lia).
  unfold probed, close_attempted.
  cbn [page_created set_pages call_done record count_call oracle calls].
  rewrite H3.
  cbn [page_created set_pages call_done record count_call oracle calls clock
       nextBrowser pages test_page pid].
  repeat split; try lia.
  induction (pages w) as [| ps l IH]; [reflexivity |].
  cbn [app List.length update_nth]. now rewrite IH.
Qed.
Lemma answers_answering n w : answering w -> answers n w.
Proof. intros Ha m Hm. apply Ha. lia. Qed.

Lemma later_probed instance w : answers 4 w -> later w (probed instance w).
Proof.
  intro Ha. destruct (probed_world instance Ha) as (Ho & Hc & _).
  split; [exact Ho | lia].
Qed.

Lemma browsers_update b f r :
  (forall i, browser (f i) = browser i) ->
  browsers (update_instance b f r) = browsers r.
Proof.
  intro Hf. unfold browsers, values.
  induction r as [| kv r IH]; simpl; [reflexivity |].
  destruct (Nat.eqb (browser (snd kv)) b); simpl; [now rewrite Hf |].
  now rewrite IH.
Qed.

Lemma skipn_nth_error {A} (l : list A) : forall k x,
  nth_error l k = Some x -> skipn k l = x :: skipn (S k) l.
Proof.
  induction l as [| y l IH]; intros [| k] x; simpl; try discriminate.
  - now intros [= ->].
  - intro H. now apply IH.
Qed.

(** A tick in a world that answers: every remaining entry is checked once,
    in order, and found well. *)
Lemma health_tick_answers n : forall fuel k s,
  answering (world s) ->
  List.length (browserInstances s) = k + n -> n < fuel ->
  let s' := snd (health_tick fuel k s) in
  fst (health_tick fuel k s) = Ok tt /\
  browserInstances s'
  = revive_each (clock (world s)) (skipn k (browsers (browserInstances s)))
      (browserInstances s) /\
  observed keep_probe s'
  = observed keep_probe s ++ skipn k (browsers (browserInstances s)) /\
  observed keep_connect s' = observed keep_connect s /\
  calls (world s') = calls (world s) + 4 * n /\
  clock (world s') = clock (world s).
Proof.
  induction n as [| n IH]; intros fuel k s Ha Hlen Hfuel; cbv zeta.
  - destruct fuel as [| fuel]; [lia |].
    assert (Hnone : nth_error (values (browserInstances s)) k = None).
    { apply nth_error_None. unfold values. rewrite length_map. lia. }
    assert (Hrun : health_tick (S fuel) k s = (Ok tt, s)).
    { cbn [health_tick]. unfold bind, getRegistry. cbn [fst snd].
      now rewrite Hnone. }
    rewrite Hrun. cbn [fst snd].
    assert (Hskip : skipn k (browsers (browserInstances s)) = []).
    { apply skipn_all2. unfold browsers, values. rewrite !length_map. lia. }
    rewrite Hskip, app_nil_r. cbn [revive_each fold_left].
    repeat match goal with |- _ /\ _ => split end; try reflexivity; lia.
  - destruct fuel as [| fuel]; [lia |].
    destruct (nth_error (values (browserInstances s)) k) as [instance |] eqn:Hk.
    2: { apply nth_error_None in Hk. unfold values in Hk.
         rewrite length_map in Hk. lia. }
    pose proof (@answers_answering 4 (world s) Ha) as Ha4.
    set (r1 := update_instance (browser instance) (revive (clock (world s)))
                 (browserInstances s)).
    assert (Hb1 : browsers r1 = browsers (browserInstances s)).
    { subst r1. now apply browsers_update. }
    assert (Hkb : nth_error (browsers (browserInstances s)) k
                  = Some (browser instance)).
    { unfold browsers. now rewrite nth_error_map, Hk. }
    assert (Hstay : match nth_error (values r1) k with
                    | Some i => Nat.eqb (browser i) (browser instance)
                    | None => false
                    end = true).
    { pose proof Hkb as Hkb1. rewrite <- Hb1 in Hkb1. unfold browsers in Hkb1.
      rewrite nth_error_map in Hkb1.
      destruct (nth_error (values r1) k) as [i1 |]; [| discriminate].
      cbn in Hkb1. injection Hkb1 as ->. apply Nat.eqb_refl. }
    set (s1 := mkState r1 (probed instance (world s))).
    assert (Hrun : health_tick (S fuel) k s = health_tick fuel (S k) s1).
    { cbn [health_tick]. unfold bind at 1. unfold getRegistry at 1.
      cbn [fst snd]. rewrite Hk. unfold bind at 1.
      rewrite (@checkBrowserHealth_answers fuel instance s Ha4).
      cbn [fst snd]. unfold bind at 1. unfold getRegistry at 1.
      cbn [fst snd browserInstances]. fold r1. rewrite Hstay. reflexivity. }
    rewrite Hrun.
    assert (Ha1 : answering (world s1)).
    { subst s1. cbn [world]. eapply answering_later; [exact Ha |].
      now apply later_probed. }
    assert (Hlen1 : List.length (browserInstances s1) = S k + n).
    { subst s1. cbn [browserInstances].
      assert (Hl : List.length (browsers r1)
                   = List.length (browsers (browserInstances s)))
        by now rewrite Hb1.
      unfold browsers, values in Hl. rewrite !length_map in Hl. lia. }
    destruct (IH fuel (S k) s1 Ha1 Hlen1 ltac:(lia))
      as (Hok & Hreg & Hprobe & Hconn & Hcalls & Hclock).
    destruct (@probed_world instance (world s) Ha4) as (_ & Hc & Hcl & _).
    rewrite Hok, Hreg, Hprobe, Hconn, Hcalls, Hclock.
    subst s1. cbn [world browserInstances]. rewrite Hb1, Hc, Hcl.
    rewrite (skipn_nth_error _ _ Hkb).
    unfold observed. cbn [world]. rewrite (@probed_trace instance (world s) Ha4).
    rewrite !observe_app. cbn [observe keep_probe keep_connect].
    rewrite app_nil_r, <- app_assoc.
    repeat match goal with |- _ /\ _ => split end; try reflexivity; lia.
Qed.

Lemma revive_each_skips t bs kv r :
  ~ In (browser (snd kv)) bs ->
  revive_each t bs (kv :: r) = kv :: revive_each t bs r.
Proof.
  unfold revive_each. revert r. induction bs as [| b bs IH]; intros r Hn;
    [reflexivity |].
  cbn [fold_left update_instance].
  destruct (Nat.eqb (browser (snd kv)) b) eqn:Hb.
  - apply Nat.eqb_eq in Hb. exfalso. apply Hn. now left.
  - apply IH. intro Hin. apply Hn. now right.
Qed.

(** With distinct browsers, every entry is revived, each in its place. *)
Lemma revive_each_all t r :
  NoDup (browsers r) ->
  revive_each t (browsers r) r = map (fun kv => (fst kv, revive t (snd kv))) r.
Proof.
  unfold browsers, values. induction r as [| kv r IH]; [reflexivity |].
  cbn [map]. intro Hnd. inversion Hnd as [| ? ? Hnotin Hnd']; subst.
  unfold revive_each at 1. cbn [fold_left update_instance].
  rewrite Nat.eqb_refl.
  change (fold_left (fun r' b => update_instance b (revive t) r')
            (map browser (map snd r)) ((fst kv, revive t (snd kv)) :: r))
    with (revive_each t (map browser (map snd r))
            ((fst kv, revive t (snd kv)) :: r)).
  rewrite revive_each_skips by exact Hnotin.
  now rewrite IH.
Qed.

(** ** A recovery that finds the browser back *)

Lemma warm_pool_answers n b i : forall pool s,
  answers n (world s) -> exists pool', fst (warm_pool n b i pool s) = Ok pool'.
Proof.
  induction n as [| n IH]; intros pool s Ha; cbn [warm_pool].
  - exists pool. reflexivity.
  - unfold bind. rewrite createAndSecurePage_run.
    assert (H0 : oracle (world s) (calls (world s)) = true) by (apply Ha; lia).
    rewrite H0. cbn [fst snd]. apply IH.
    intros m Hm. cbn in Hm |- *. apply Ha. lia.
Qed.

Lemma connectToBrowser_answers e s :
  answers (S PAGE_POOL_SIZE) (world s) -> fst (connectToBrowser e s) = Ok tt.
Proof.
  intro Ha. rewrite connectToBrowser_run. cbv zeta.
  assert (H0 : oracle (world s) (calls (world s)) = true) by (apply Ha; lia).
  rewrite H0.
  set (s1 := mkState _ (browser_connected e (world s))).
  destruct (@warm_pool_answers PAGE_POOL_SIZE (nextBrowser (world s))
              (new_instance e (world s)) [] s1) as [pool Hpool].
  { intros m Hm. subst s1. cbn in Hm |- *. apply Ha. lia. }
  destruct (warm_pool PAGE_POOL_SIZE (nextBrowser (world s))
              (new_instance e (world s)) [] s1) as [o s2].
  cbn [fst] in Hpool. subst o. reflexivity.
Qed.

(** A successful [connectToBrowser] closes nothing. *)
Lemma connectToBrowser_ok_no_closing e s :
  fst (connectToBrowser e s) = Ok tt ->
  observed keep_closing (snd (connectToBrowser e s)) = observed keep_closing s.
Proof.
  rewrite connectToBrowser_run. cbv zeta.
  destruct (oracle (world s) (calls (world s))).
  - set (s1 := mkState _ (browser_connected e (world s))).
    pose proof (silent_run s1
                  (warm_pool_no_closing PAGE_POOL_SIZE (nextBrowser (world s))
                     (new_instance e (world s)) [])) as Hq.
    destruct (warm_pool PAGE_POOL_SIZE (nextBrowser (world s))
                (new_instance e (world s)) [] s1) as [[pool | error |] s2];
      cbn [fst snd] in *.
    + intros _. unfold observed in *. cbn [world record trace].
      rewrite observe_app. cbn [observe keep_closing]. rewrite app_nil_r, Hq.
      subst s1. cbn [world browser_connected trace].
      rewrite observe_app. cbn [observe keep_closing]. apply app_nil_r.
    + destruct (connect_failed_registry e error s2) as [-> _]. discriminate.
    + discriminate.
  - destruct (connect_failed_registry e (External (calls (world s)))
                (with_world s (call_done (EConnect e) (world s)))) as [-> _].
    discriminate.
Qed.

Lemma later_torn_down instance attempt s :
  later (world s) (world (torn_down instance attempt s)).
Proof.
  unfold torn_down. cbn [world].
  eapply later_trans; [| split; cbn; [reflexivity | apply Nat.le_succ_diag_r]].
  eapply later_trans; [| apply later_closing_all].
  split; cbn; auto.
Qed.

Lemma torn_down_closings instance attempt s :
  observed keep_closing (torn_down instance attempt s)
  = observed keep_closing s ++ closings_of instance.
Proof.
  unfold observed, torn_down, closings_of. cbn [world].
  rewrite trace_call_done, observe_app, closing_all_closings.
  cbn [record trace]. rewrite observe_app. cbn [observe keep_closing].
  rewrite app_nil_r, <- app_assoc. reflexivity.
Qed.

Lemma nextBrowser_closing_all l : forall w,
  nextBrowser (closing_all l w) = nextBrowser w.
Proof.
  induction l as [| p l IH]; intro w; cbn [closing_all]; [reflexivity |].
  rewrite IH. unfold close_attempted.
  destruct (oracle w (calls w)); reflexivity.
Qed.

Lemma map_set_absent e i r :
  map_get e r = None -> map_set e i r = r ++ [(e, i)].
Proof.
  unfold map_get. induction r as [| kv r IH]; simpl; [reflexivity |].
  destruct (String.eqb (fst kv) e); [discriminate |].
  intro H. now rewrite IH.
Qed.

Lemma Forall_map_delete (P : string * BrowserInstance -> Prop) e r :
  Forall P r -> Forall P (map_delete e r).
Proof.
  unfold map_delete. rewrite !Forall_forall. intros H kv Hin.
  apply filter_In in Hin. now apply H.
Qed.

Lemma closing_all_no_connect l : forall w,
  observe keep_connect (trace (closing_all l w)) = observe keep_connect (trace w).
Proof.
  induction l as [| p l IH]; intro w; cbn [closing_all]; [reflexivity |].
  rewrite IH, trace_close_attempted, observe_app. apply app_nil_r.
Qed.

Lemma torn_down_no_connect instance attempt s :
  observed keep_connect (torn_down instance attempt s) = observed keep_connect s.
Proof.
  unfold observed, torn_down. cbn [world].
  rewrite trace_call_done, observe_app, closing_all_no_connect.
  cbn [record trace]. rewrite observe_app. cbn [observe keep_connect].
  now rewrite !app_nil_r.
Qed.

(** ** Returning a page *)

(** A return whose navigation succeeds, to an owner with room: the page is
    pushed onto the owner's pool. *)
Lemma returnPage_pushes p instance s :
  owner_of p (browserInstances s) = Some instance ->
  List.length (pagePool instance) < PAGE_POOL_SIZE ->
  oracle (world s) (calls (world s)) = true ->
  returnPage p s
  = (Ok tt,
     mkState (update_instance (browser instance) (push_page p)
                (browserInstances s))
             (call_done (goto_blank p) (world s))).
Proof.
  intros Ho Hlt Hgoto. rewrite returnPage_run, Ho.
  apply Nat.ltb_lt in Hlt. rewrite Hlt. unfold reset_owned. cbv zeta.
  rewrite Hgoto. reflexivity.
Qed.

(** ** Secured pages *)

Lemma all_secured_modifyRegistry f : preserves all_secured (modifyRegistry f).
Proof. intros s H; exact H. Qed.

Lemma all_secured_modifyWorld f :
  (forall w, pages (f w) = pages w) -> preserves all_secured (modifyWorld f).
Proof.
  intros Hf s H. unfold all_secured in *. cbn [modifyWorld snd world].
  now rewrite Hf.
Qed.

Lemma Forall_update_nth {A} (P : A -> Prop) f (l : list A) : forall n,
  (forall x, P x -> P (f x)) -> Forall P l -> Forall P (update_nth n f l).
Proof.
  induction l as [| x l IH]; intros [| n] Hf Hl; cbn [update_nth];
    try constructor; inversion Hl; subst; auto.
Qed.

Lemma all_secured_page_close p : preserves all_secured (page_close p).
Proof.
  intros s H. rewrite page_close_run. unfold all_secured in *.
  destruct (oracle (world s) (calls (world s))); cbn; [| exact H].
  apply Forall_update_nth; [| exact H].
  intros ps (Hd & Hp & Ht). repeat split; assumption.
Qed.

(** Creating and securing a page is one step as far as failures go: a
    page that was made has been secured. *)
Lemma all_secured_createAndSecurePage b i :
  preserves all_secured (createAndSecurePage b (Some i)).
Proof.
  intros s H. rewrite createAndSecurePage_run. unfold all_secured in *.
  destruct (oracle (world s) (calls (world s))); cbn; [| exact H].
  apply Forall_app. split; [exact H |].
  repeat constructor.
Qed.

Ltac unfold_world_calls :=
  unfold validatePage, page_isClosed, page_evaluate, page_goto, browser_close,
    browser_isConnected, chromium_connect, external, log, emit, now, sleep,
    getEndpoints.

Ltac securing tac :=
  preserving ltac:(first
    [ apply all_secured_modifyRegistry
    | apply all_secured_modifyWorld; intro; reflexivity
    | apply all_secured_createAndSecurePage
    | apply all_secured_page_close
    | tac ]).

Lemma warm_pool_secured n b i :
  forall pool, preserves all_secured (warm_pool n b i pool).
Proof.
  induction n as [| n IH]; intro pool; cbn [warm_pool]; securing idtac.
  apply IH.
Qed.

Lemma close_all_secured l : preserves all_secured (close_all l).
Proof. induction l as [| p l IH]; cbn [close_all]; securing idtac. exact IH. Qed.

Lemma connectToBrowser_secured e : preserves all_secured (connectToBrowser e).
Proof.
  unfold connectToBrowser. unfold_world_calls.
  securing ltac:(apply warm_pool_secured).
Qed.

Lemma connect_each_secured l : preserves all_secured (connect_each l).
Proof.
  induction l as [| e l IH]; cbn [connect_each]; unfold_world_calls;
    securing ltac:(first [apply connectToBrowser_secured | exact IH]).
Qed.

Lemma initializeConnections_secured : preserves all_secured initializeConnections.
Proof.
  unfold initializeConnections. unfold_world_calls.
  securing ltac:(apply connect_each_secured).
Qed.

Lemma reconnect_loop_secured fuel instance :
  forall attempt, preserves all_secured (reconnect_loop fuel instance attempt).
Proof.
  induction fuel as [| fuel IH]; intro attempt; cbn [reconnect_loop];
    unfold reconnect_once; unfold_world_calls;
    securing ltac:(first [ apply close_all_secured
                         | apply connectToBrowser_secured | apply IH ]).
Qed.

Lemma attemptRecovery_secured fuel instance :
  preserves all_secured (attemptRecovery fuel instance).
Proof.
  destruct instance as [instance |]; cbn [attemptRecovery].
  - apply reconnect_loop_secured.
  - apply initializeConnections_secured.
Qed.

Lemma try_instances_secured l : preserves all_secured (try_instances l).
Proof.
  induction l as [| instance l IH]; cbn [try_instances]; unfold_world_calls;
    securing ltac:(exact IH).
Qed.

Lemma getAvailablePage_secured : preserves all_secured getAvailablePage.
Proof.
  unfold getAvailablePage. unfold_world_calls.
  securing ltac:(first [ apply attemptRecovery_secured
                       | apply try_instances_secured ]).
Qed.

Lemma returnPage_secured p : preserves all_secured (returnPage p).
Proof.
  unfold returnPage, resetPage, findInstanceByPage. unfold_world_calls.
  securing idtac.
Qed.

Lemma checkBrowserHealth_secured fuel instance :
  preserves all_secured (checkBrowserHealth fuel instance).
Proof.
  unfold checkBrowserHealth. unfold_world_calls.
  securing ltac:(apply attemptRecovery_secured).
Qed.

Lemma health_tick_secured fuel :
  forall k, preserves all_secured (health_tick fuel k).
Proof.
  induction fuel as [| fuel IH]; intro k; cbn [health_tick];
    securing ltac:(first [apply checkBrowserHealth_secured | apply IH]).
Qed.

Lemma cleanup_each_secured l : preserves all_secured (cleanup_each l).
Proof.
  induction l as [| i l IH]; cbn [cleanup_each]; unfold_world_calls;
    securing ltac:(first [apply close_all_secured | exact IH]).
Qed.

Lemma cleanup_secured : preserves all_secured cleanup.
Proof.
  unfold cleanup. unfold_world_calls.
  securing ltac:(apply cleanup_each_secured).
Qed.

(** A page that [getAvailablePage] hands out is open. *)
Lemma getAvailablePage_open s p :
  fst (getAvailablePage s) = Ok (Some p) ->
  isClosed (world (snd (getAvailablePage s))) p = false.
Proof.
  rewrite getAvailablePage_run.
  destruct (healthyInstances s) as [| i l] eqn:Hcand.
  - destruct (initializeConnections _) as [[[] | e |] s']; discriminate.
  - rewrite <- Hcand. intro H.
    now destruct (@try_instances_handed_out _ _ _ H).
Qed.

(** ** What a checkout leaves of the registry *)

Lemma taken_from_refl i : taken_from i i.
Proof. repeat split; auto. exists 0. reflexivity. Qed.

Lemma taken_from_trans i0 i1 i2 :
  taken_from i0 i1 -> taken_from i1 i2 -> taken_from i0 i2.
Proof.
  intros (Hb & He & Ht & Hh & k & Hk) (Hb' & He' & Ht' & Hh' & k' & Hk').
  repeat split; try congruence; auto.
  exists (k' + k). now rewrite Hk', Hk, skipn_skipn.
Qed.

Lemma only_taken_refl r : only_taken r r.
Proof.
  induction r as [| kv r IH]; constructor; [| exact IH].
  split; [reflexivity | apply taken_from_refl].
Qed.

Lemma only_taken_update b f r0 r :
  (forall i, taken_from i (f i)) ->
  only_taken r0 r -> only_taken r0 (update_instance b f r).
Proof.
  intros Hf H. induction H as [| kv0 kv r0 r [Hk Ht] Hr IH];
    cbn [update_instance]; [constructor |].
  destruct (Nat.eqb (browser (snd kv)) b); constructor; auto.
  split; [exact Hk |]. cbn [snd]. eapply taken_from_trans; [exact Ht | apply Hf].
Qed.

Lemma taken_from_shift i : taken_from i (shift_pool i).
Proof.
  repeat split; auto. exists 1. unfold shift_pool. cbn [pagePool set_pagePool].
  now destruct (pagePool i).
Qed.

Lemma taken_from_unhealthy i : taken_from i (set_healthy false i).
Proof.
  repeat split; try reflexivity; [discriminate |]. exists 0. reflexivity.
Qed.

Lemma try_instances_only_takes r0 l :
  preserves (fun s => only_taken r0 (browserInstances s)) (try_instances l).
Proof.
  assert (Hblind : world_blind (fun s => only_taken r0 (browserInstances s))).
  { intros r w w' H; exact H. }
  induction l as [| instance l IH]; cbn [try_instances];
    preserving ltac:(first
      [ apply preserves_modifyWorld; exact Hblind
      | apply preserves_validatePage; exact Hblind
      | apply preserves_page_close; exact Hblind
      | apply preserves_createAndSecurePage; exact Hblind
      | exact IH ]).
  - apply (preserves_modifyRegistry (only_taken r0)).
    intros r Hr. apply only_taken_update; [apply taken_from_shift | exact Hr].
  - apply (preserves_modifyRegistry (only_taken r0)).
    intros r Hr. apply only_taken_update; [apply taken_from_unhealthy | exact Hr].
Qed.

Lemma only_taken_keys r0 r : only_taken r0 r -> keys r = keys r0.
Proof.
  unfold keys. induction 1 as [| kv0 kv r0 r [Hk _] _ IH]; cbn [map];
    [reflexivity |].
  now rewrite Hk, IH.
Qed.

Lemma only_taken_pooled r0 r :
  only_taken r0 r ->
  pooled_in_healthy (values r) <= pooled_in_healthy (values r0).
Proof.
  unfold pooled_in_healthy, values, list_sum.
  induction 1 as [| kv0 kv r0 r [_ (_ & _ & _ & Hh & k & Hk)] _ IH];
    cbn [map filter fold_right]; [lia |].
  destruct (healthy (snd kv)) eqn:Hkv.
  - rewrite (Hh eq_refl). cbn [map fold_right]. rewrite Hk, length_skipn. lia.
  - destruct (healthy (snd kv0)); cbn [map fold_right]; lia.
Qed.

(** ** Connecting to an endpoint that is registered *)

Lemma keys_map_set_present e i r :
  map_get e r <> None -> keys (map_set e i r) = keys r.
Proof.
  intro H. rewrite keys_map_set.
  destruct (in_dec string_dec e (keys r)) as [| Hn]; [reflexivity |].
  exfalso. apply H. now apply map_get_none_in.
Qed.

Lemma map_get_values e r i : map_get e r = Some i -> In i (values r).
Proof.
  unfold map_get, values. destruct (find _ r) as [kv |] eqn:Hf; [| discriminate].
  intros [= <-]. apply find_some in Hf. now apply in_map.
Qed.

(** Among distinct browsers, the browser of the instance that [map_set]
    replaces is in the registry no more. *)
Lemma replaced_browser_gone e fresh old r :
  NoDup (browsers r) -> map_get e r = Some old ->
  browser fresh <> browser old ->
  ~ In (browser old) (browsers (map_set e fresh r)).
Proof.
  unfold browsers, values, map_get. intros Hnd Hget Hne.
  induction r as [| kv r IH]; cbn [find] in Hget; [discriminate |].
  cbn [map] in Hnd. inversion Hnd as [| ? ? Hnotin Hnd']; subst.
  cbn [map_set]. destruct (String.eqb (fst kv) e).
  - injection Hget as <-. cbn [map snd]. intros [H | H]; [congruence | auto].
  - cbn [map]. intros [H | H].
    + apply Hnotin. rewrite H.
      assert (Hin : In old (values r)).
      { apply map_get_values with (e := e). exact Hget. }
      unfold values in Hin. now apply in_map.
    + now apply IH.
Qed.

Lemma owner_of_absent p r :
  ~ In (pbrowser p) (browsers r) -> owner_of p r = None.
Proof.
  unfold owner_of, browsers. intro H.
  induction (values r) as [| i l IH]; cbn [find]; [reflexivity |].
  destruct (Nat.eqb (pbrowser p) (browser i)) eqn:Hb.
  - apply Nat.eqb_eq in Hb. exfalso. apply H. left. now symmetry.
  - apply IH. intro Hin. apply H. now right.
Qed.

(** The warm-up appends pages and touches none that existed. *)
Lemma warm_pool_old_pages n b i : forall pool s k,
  k < List.length (pages (world s)) ->
  nth_error (pages (world (snd (warm_pool n b i pool s)))) k
  = nth_error (pages (world s)) k.
Proof.
  induction n as [| n IH]; intros pool s k Hk; cbn [warm_pool]; [reflexivity |].
  unfold bind. rewrite createAndSecurePage_run.
  destruct (oracle (world s) (calls (world s))); cbn [fst snd]; [| reflexivity].
  rewrite IH.
  - cbn [with_world world page_created set_pages pages].
    now rewrite nth_error_app1.
  - cbn [with_world world page_created set_pages pages].
    rewrite length_app. lia.
Qed.

(** ** Calls that overlap *)

Lemma resetPage_resume_run p instance s :
  resetPage_resume p instance s = reset_owned p instance s.
Proof.
  unfold resetPage_resume, reset_owned, try_catch at 1, bind at 1, page_goto.
  rewrite external_run. fold (goto_blank p).
  destruct (oracle (world s) (calls (world s))); [reflexivity |].
  unfold try_catch, bind. rewrite swallow_page_close_run.
  rewrite createAndSecurePage_run. simpl.
  match goal with |- context [oracle ?w (calls ?w)] =>
    lazymatch w with close_attempted _ _ => destruct (oracle w (calls w)) end
  end; reflexivity.
Qed.

Lemma resetPage_enter_run p s :
  resetPage_enter p s
  = (match owner_of p (browserInstances s) with
     | None => Throw PageWithoutInstance
     | Some instance => Ok instance
     end, s).
Proof.
  unfold resetPage_enter, bind. rewrite findInstanceByPage_run.
  fold (owner_of p (browserInstances s)).
  destruct (owner_of p (browserInstances s)); reflexivity.
Qed.

Lemma resetPage_splits p s :
  resetPage p s
  = (instance <- resetPage_enter p ;; resetPage_resume p instance) s.
Proof.
  rewrite resetPage_run. unfold bind. rewrite resetPage_enter_run.
  destruct (owner_of p (browserInstances s)); [| reflexivity].
  symmetry. apply resetPage_resume_run.
Qed.

(** Both lookups of a return fall before its first [await]: the guard of
    [resetPage] finds what [returnPage] has just found. *)
Lemma returnPage_enter_run p s :
  returnPage_enter p s
  = (Ok match owner_of p (browserInstances s) with
        | None => ClosingOrphan p
        | Some instance =>
            if Nat.ltb (List.length (pagePool instance)) PAGE_POOL_SIZE
            then Resetting p instance instance
            else ClosingUnpooled p
        end, s).
Proof.
  unfold returnPage_enter, bind at 1. rewrite findInstanceByPage_run.
  fold (owner_of p (browserInstances s)). cbn [fst snd].
  destruct (owner_of p (browserInstances s)) as [instance |] eqn:Ho;
    [| reflexivity].
  destruct (Nat.ltb (List.length (pagePool instance)) PAGE_POOL_SIZE);
    [| reflexivity].
  unfold try_catch, bind. rewrite resetPage_enter_run, Ho. reflexivity.
Qed.

(** A call that nothing interrupts is the call of the sequential model. *)
Lemma returnPage_splits p s :
  returnPage p s = (t <- returnPage_enter p ;; returnPage_resume t) s.
Proof.
  rewrite returnPage_run. unfold bind at 1. rewrite returnPage_enter_run.
  cbn [fst snd].
  destruct (owner_of p (browserInstances s)) as [instance |] eqn:Ho.
  - destruct (Nat.ltb (List.length (pagePool instance)) PAGE_POOL_SIZE).
    + cbn [returnPage_resume]. unfold try_catch at 1. unfold bind at 1.
      rewrite resetPage_resume_run.
      destruct (reset_owned p instance s) as [[page' | e |] s1];
        try reflexivity.
      unfold bind, log, emit, modifyWorld. cbn [fst snd].
      rewrite swallow_page_close_run. reflexivity.
    + cbn [returnPage_resume]. now rewrite swallow_page_close_run.
  - cbn [returnPage_resume]. unfold try_catch, close_attempted.
    rewrite page_close_run.
    destruct (oracle (world s) (calls (world s))); reflexivity.
Qed.

(** A call that is waiting has changed nothing yet. *)
Lemma enter_each_run l : forall s,
  exists ts, enter_each l s = (Ok ts, s) /\ List.length ts = List.length l.
Proof.
  induction l as [| p l IH]; intro s; cbn [enter_each].
  - exists []. split; reflexivity.
  - unfold bind at 1. rewrite returnPage_enter_run. cbn [fst snd].
    destruct (IH s) as (ts & Hrun & Hlen). unfold bind, ret. rewrite Hrun.
    eexists. split; [reflexivity |]. cbn [List.length]. now rewrite Hlen.
Qed.

Lemma pools_bounded_lengths s :
  pools_bounded s -> Forall (fun n => n <= PAGE_POOL_SIZE) (pool_lengths s).
Proof.
  unfold pools_bounded, pool_bounded, pool_lengths, values.
  rewrite map_map, Forall_map. intro H; exact H.
Qed.

(** A close that Playwright rejects leaves every page as it was. *)
Lemma isClosed_close_refused p q w :
  oracle w (calls w) = false ->
  isClosed (close_attempted p w) q = isClosed w q.
Proof. intro Ho. unfold close_attempted. now rewrite Ho. Qed.

(** ** Which endpoints are registered after start-up *)








(** ** What the world keeps

    Properties of the world alone that every step of the manager keeps: the
    value of BROWSER_ENDPOINTS, a lower bound on the next browser. *)

Section WorldKept.
Variable Q : World -> Prop.
Hypothesis Q_record : forall ev w, Q w -> Q (record ev w).
Hypothesis Q_count : forall w, Q w -> Q (count_call w).
Hypothesis Q_pages : forall ps w, Q w -> Q (set_pages ps w).
Hypothesis Q_connect : forall w,
  Q w -> Q (mkWorld (oracle w) (calls w) (S (nextBrowser w)) (pages w)
                    (clock w) (BROWSER_ENDPOINTS w) (trace w)).
Hypothesis Q_sleep : forall ms w,
  Q w -> Q (mkWorld (oracle w) (calls w) (nextBrowser w) (pages w)
                    (clock w + ms) (BROWSER_ENDPOINTS w)
                    (trace w ++ [ESleep ms])).

Lemma kept_modifyRegistry f : preserves (fun s => Q (world s)) (modifyRegistry f).
Proof. intros s H; exact H. Qed.

Lemma kept_modifyWorld f :
  (forall w, Q w -> Q (f w)) -> preserves (fun s => Q (world s)) (modifyWorld f).
Proof. intros Hf s H. cbn [modifyWorld snd world]. now apply Hf. Qed.

Ltac keeping tac :=
  unfold_calls; unfold sleep, getEndpoints, findInstanceByPage, swallow;
  preserving ltac:(first
    [ apply kept_modifyRegistry
    | apply kept_modifyWorld; intros ? ?;
      repeat first [ assumption | apply Q_record | apply Q_count
                   | apply Q_pages | apply Q_connect | apply Q_sleep ]
    | tac ]).

Lemma kept_warm_pool n b i :
  forall pool, preserves (fun s => Q (world s)) (warm_pool n b i pool).
Proof.
  induction n as [| n IH]; intro pool; cbn [warm_pool]; keeping ltac:(apply IH).
Qed.

Lemma kept_close_all l : preserves (fun s => Q (world s)) (close_all l).
Proof. induction l as [| p l IH]; cbn [close_all]; keeping ltac:(exact IH). Qed.

Lemma kept_connectToBrowser e : preserves (fun s => Q (world s)) (connectToBrowser e).
Proof. unfold connectToBrowser. keeping ltac:(apply kept_warm_pool). Qed.



Lemma kept_reconnect_loop fuel instance :
  forall attempt,
    preserves (fun s => Q (world s)) (reconnect_loop fuel instance attempt).
Proof.
  induction fuel as [| fuel IH]; intro attempt; cbn [reconnect_loop];
    unfold reconnect_once;
    keeping ltac:(first [ apply kept_close_all | apply kept_connectToBrowser
                        | apply IH ]).
Qed.







Lemma kept_cleanup_each l : preserves (fun s => Q (world s)) (cleanup_each l).
Proof.
  induction l as [| i l IH]; cbn [cleanup_each];
    keeping ltac:(first [apply kept_close_all | exact IH]).
Qed.

Lemma kept_cleanup : preserves (fun s => Q (world s)) cleanup.
Proof. unfold cleanup. keeping ltac:(apply kept_cleanup_each). Qed.
End WorldKept.



Lemma world_kept_reconnect_loop fuel instance attempt :
  world_kept (reconnect_loop fuel instance attempt).
Proof. intros Q H1 H2 H3 H4 H5. now apply kept_reconnect_loop. Qed.





Lemma world_kept_cleanup : world_kept cleanup.
Proof. intros Q H1 H2 H3 H4 H5. now apply kept_cleanup. Qed.



(** ** Registered endpoints are configured endpoints *)

Section KeysWithin.
Variable L : list string.











End KeysWithin.






(** ** A tick that returns *)

















(** * Properties of the manager *)

(** While calls do not overlap, the pools stay bounded.  After every
    operation of the manager (connectToBrowser with its warm-up,
    initializeConnections, getAvailablePage, returnPage, a health check or a
    whole monitor tick, recovery, shutdown) run to completion from a state in
    which every registered pool holds at most PAGE_POOL_SIZE pages, every
    registered pool still holds at most PAGE_POOL_SIZE pages; a returnPage
    that nothing interrupts changes the registry only by pushing one page
    onto the owner's pool, and only when that pool held strictly fewer than
    PAGE_POOL_SIZE pages; a successful connectToBrowser has created exactly
    PAGE_POOL_SIZE pages and, the new browser being unknown to the registry
    before, left them as the pool of the instance registered under the
    endpoint. *)
Theorem pool_length_at_most_PAGE_POOL_SIZE :
  forall s, pools_bounded s ->
    (forall e, pools_bounded (snd (connectToBrowser e s))) /\
    pools_bounded (snd (initializeConnections s)) /\
    pools_bounded (snd (getAvailablePage s)) /\
    (forall p, pools_bounded (snd (returnPage p s))) /\
    (forall fuel instance, pools_bounded (snd (checkBrowserHealth fuel instance s))) /\
    (forall fuel, pools_bounded (snd (healthCheckTick fuel s))) /\
    (forall fuel instance, pools_bounded (snd (attemptRecovery fuel instance s))) /\
    pools_bounded (snd (cleanup s)) /\
    (forall p,
       browserInstances (snd (returnPage p s)) = browserInstances s \/
       exists instance page',
         owner_of p (browserInstances s) = Some instance /\
         List.length (pagePool instance) < PAGE_POOL_SIZE /\
         browserInstances (snd (returnPage p s))
         = update_instance (browser instance) (push_page page')
             (browserInstances s)) /\
    (forall e,
       fst (connectToBrowser e s) = Ok tt ->
       List.length (warm_pages (world s)) = PAGE_POOL_SIZE /\
       List.length (pages (world (snd (connectToBrowser e s))))
       = List.length (pages (world s)) + PAGE_POOL_SIZE /\
       (Forall (fun kv => browser (snd kv) <> nextBrowser (world s))
               (browserInstances s) ->
        map_get e (browserInstances (snd (connectToBrowser e s)))
        = Some (set_pagePool (warm_pages (world s)) (new_instance e (world s))))).
Proof.
  intros s Hs. repeat match goal with |- _ /\ _ => split end.
  - intro e. now apply connectToBrowser_bounded.
  - now apply initializeConnections_bounded.
  - now apply getAvailablePage_bounded.
  - intro p. now apply returnPage_bounded.
  - intros fuel instance. now apply checkBrowserHealth_bounded.
  - intro fuel. now apply health_tick_bounded.
  - intros fuel instance. now apply attemptRecovery_bounded.
  - now apply cleanup_bounded.
  - intro p. destruct (returnPage_effect p s) as [_ [H | H]]; [left; exact H |].
    right. destruct H as (instance & page' & Ho & Hlt & _ & Hr).
    exists instance, page'. auto.
  - intros e H.
    pose proof (connectToBrowser_registry e s) as Hreg. cbv zeta in Hreg.
    rewrite H in Hreg. destruct Hreg as (Hr & Hlen & _).
    split; [| split].
    + unfold warm_pages. now rewrite length_map, length_seq.
    + exact Hlen.
    + intro Hfresh. rewrite Hr.
      change (nextBrowser (world s)) with (browser (new_instance e (world s))).
      rewrite update_instance_new by exact Hfresh.
      apply map_get_set_same.
Qed.

(** The bound after a return to the started process. *)
Lemma pool_length_at_most_PAGE_POOL_SIZE_witness :
  pools_bounded (snd (returnPage (mkPage 0 0) started)).
Proof.
  assert (H : pools_bounded started).
  { unfold pools_bounded, pool_bounded. vm_compute browserInstances.
    repeat constructor. }
  exact (proj1 (proj2 (proj2 (proj2 (pool_length_at_most_PAGE_POOL_SIZE H))))
           (mkPage 0 0)).
Defined.

(** C1 — The bound on the pools does not survive returns that overlap.
    returnPage tests the length of the pool before it awaits resetPage and
    pushes after it.  With eleven pages out and the pool empty, eleven
    returns that start before any of them resumes all pass the test, all
    navigate their page and all push it: the pool ends with eleven pages,
    one more than PAGE_POOL_SIZE.  The same eleven returns made one after
    the other pool ten pages and close the eleventh. *)
Theorem overlapping_returns_overfill_pool :
  pools_bounded all_out /\
  pool_lengths all_out = [0] /\
  Forall (fun p => exists instance,
            fst (returnPage_enter p all_out) = Ok (Resetting p instance instance))
         pages_out /\
  fst (overlapping_returns pages_out all_out) = Ok tt /\
  pool_lengths (snd (overlapping_returns pages_out all_out)) = [11] /\
  ~ pools_bounded (snd (overlapping_returns pages_out all_out)) /\
  pool_lengths (snd (returns pages_out all_out)) = [10].
Proof.
  assert (H11 : pool_lengths (snd (overlapping_returns pages_out all_out))
                = [11]) by (vm_compute; reflexivity).
  split.
  { unfold pools_bounded, pool_bounded. vm_compute browserInstances.
    repeat constructor. }
  split; [vm_compute; reflexivity |].
  split.
  { unfold pages_out. cbn [seq map].
    repeat constructor; eexists; vm_compute; reflexivity. }
  split; [vm_compute; reflexivity |].
  split; [exact H11 |].
  split; [| vm_compute; reflexivity].
  intro Hb. apply pools_bounded_lengths in Hb. rewrite H11 in Hb.
  inversion Hb as [| ? ? Hle _]; subst. unfold PAGE_POOL_SIZE in Hle. lia.
Qed.

(** C2, as stated, fails twice over.  With the one healthy instance
    exhausted, getAvailablePage returns null but attempts no recovery: no
    connection is attempted, the instance is only marked unhealthy.  With no
    healthy instance left, the next call does run the recovery, and the
    error that initializeConnections throws when it cannot connect either
    comes out of getAvailablePage instead of null. *)
Lemma getAvailablePage_null_counterexample :
  List.length (healthyInstances started_then_dead) = 1 /\
  fst (getAvailablePage started_then_dead) = Ok None /\
  observed keep_connect exhausted = observed keep_connect started_then_dead /\
  map (fun kv => healthy (snd kv)) (browserInstances exhausted) = [false] /\
  healthyInstances exhausted = [] /\
  fst (getAvailablePage exhausted) = Throw AllConnectionsFailed.
Proof. repeat split; vm_compute; reflexivity. Qed.

(** C2 (amended) — With no healthy instance, getAvailablePage logs it and
    runs the recovery, initializeConnections, and returns null when that
    recovery succeeds.  With at least one healthy instance it never throws
    and attempts no connection: when every candidate is exhausted it returns
    null, every candidate having been marked unhealthy, and no recovery has
    been attempted. *)
Theorem getAvailablePage_without_page :
  forall s,
    (healthyInstances s = [] ->
     snd (getAvailablePage s)
     = snd (initializeConnections
              (with_world s (record (ELog LogNoHealthy) (world s)))) /\
     (fst (initializeConnections
             (with_world s (record (ELog LogNoHealthy) (world s)))) = Ok tt ->
      fst (getAvailablePage s) = Ok None)) /\
    (healthyInstances s <> [] ->
     (exists r, fst (getAvailablePage s) = Ok r) /\
     observed keep_connect (snd (getAvailablePage s)) = observed keep_connect s /\
     (fst (getAvailablePage s) = Ok None ->
      forall i, In i (healthyInstances s) ->
        marked_unhealthy (browser i) (snd (getAvailablePage s)))).
Proof.
  intro s. rewrite getAvailablePage_run.
  destruct (healthyInstances s) as [| i0 l] eqn:Hcand.
  - split; [intros _ | congruence].
    destruct (initializeConnections _) as [[[] | e |] s']; simpl;
      split; auto; discriminate.
  - split; [discriminate | intros _]. rewrite <- Hcand.
    split; [apply try_instances_returns |].
    split; [apply silent_run, try_instances_no_connect |].
    intros Hnone i Hi. apply try_instances_none; auto.
    intros i' Hi'. apply in_healthyInstances in Hi'. destruct Hi' as [Hin _].
    now apply instance_at_in.
Qed.

(** The one healthy instance of [started_then_dead], exhausted. *)
Lemma getAvailablePage_without_page_witness :
  (exists r, fst (getAvailablePage started_then_dead) = Ok r) /\
  observed keep_connect (snd (getAvailablePage started_then_dead))
  = observed keep_connect started_then_dead /\
  (fst (getAvailablePage started_then_dead) = Ok None ->
   forall i, In i (healthyInstances started_then_dead) ->
     marked_unhealthy (browser i) (snd (getAvailablePage started_then_dead))).
Proof.
  apply (proj2 (getAvailablePage_without_page started_then_dead)).
  vm_compute. discriminate.
Defined.




(** C4, as stated, fails: the returned page is not always closed.  The
    pool is full and the eleventh page, open, is returned; Playwright rejects
    the close.  The rejection is swallowed: the call returns normally, the
    page is still open and in no pool, and nothing but the rejected close is
    recorded, not even a log line. *)
Lemma returnPage_close_refused_counterexample :
  owner_of eleventh_page (browserInstances pool_full_close_refused)
  = Some (first_instance pool_full_close_refused) /\
  List.length (pagePool (first_instance pool_full_close_refused))
  = PAGE_POOL_SIZE /\
  isClosed (world pool_full_close_refused) eleventh_page = false /\
  fst (returnPage eleventh_page pool_full_close_refused) = Ok tt /\
  isClosed (world (snd (returnPage eleventh_page pool_full_close_refused)))
    eleventh_page = false /\
  browserInstances (snd (returnPage eleventh_page pool_full_close_refused))
  = browserInstances pool_full_close_refused /\
  existsb (fun q => Nat.eqb (pid q) (pid eleventh_page))
          (pagePool (first_instance pool_full_close_refused)) = false /\
  trace (world (snd (returnPage eleventh_page pool_full_close_refused)))
  = trace (world pool_full_close_refused) ++ [EClosePage eleventh_page false].
Proof.
  repeat match goal with |- _ /\ _ => split end; vm_compute; reflexivity.
Qed.

(** C4 (amended) — No call of returnPage lets an exception out.  If the
    owner's pool is full, the call does one thing: it asks Playwright to
    close the returned page; the registry, so the pool and its size, is
    unchanged.  If the page has no owner, the call asks the same, logging a
    rejected close, and leaves the registry unchanged.  If resetPage throws
    inside the return path, the registry is unchanged and the call ends by
    logging the failure and asking Playwright to close the page.  A rejected
    close is swallowed: the page is closed when Playwright carries the close
    out, and is otherwise left as it was.  In every case either the returned
    page itself went back into its owner's pool, or its close was asked for
    during the call. *)
Theorem returnPage_closes_what_it_does_not_pool :
  forall p s,
    fst (returnPage p s) = Ok tt /\
    (forall instance,
       owner_of p (browserInstances s) = Some instance ->
       List.length (pagePool instance) = PAGE_POOL_SIZE ->
       browserInstances (snd (returnPage p s)) = browserInstances s /\
       trace (world (snd (returnPage p s)))
       = trace (world s) ++ [EClosePage p (oracle (world s) (calls (world s)))] /\
       (oracle (world s) (calls (world s)) = true ->
        pid p < List.length (pages (world s)) ->
        isClosed (world (snd (returnPage p s))) p = true) /\
       (oracle (world s) (calls (world s)) = false ->
        isClosed (world (snd (returnPage p s))) p = isClosed (world s) p)) /\
    (owner_of p (browserInstances s) = None ->
       browserInstances (snd (returnPage p s)) = browserInstances s /\
       trace (world (snd (returnPage p s)))
       = trace (world s)
         ++ EClosePage p (oracle (world s) (calls (world s)))
            :: (if oracle (world s) (calls (world s)) then []
                else [ELog LogOrphanClose]) /\
       (oracle (world s) (calls (world s)) = true ->
        pid p < List.length (pages (world s)) ->
        isClosed (world (snd (returnPage p s))) p = true) /\
       (oracle (world s) (calls (world s)) = false ->
        isClosed (world (snd (returnPage p s))) p = isClosed (world s) p)) /\
    (forall instance e,
       owner_of p (browserInstances s) = Some instance ->
       List.length (pagePool instance) < PAGE_POOL_SIZE ->
       fst (resetPage p s) = Throw e ->
       browserInstances (snd (returnPage p s)) = browserInstances s /\
       exists t closed,
         trace (world (snd (returnPage p s)))
         = t ++ [ELog LogReturnFailed; EClosePage p closed] /\
         (closed = true -> pid p < List.length (pages (world s)) ->
          isClosed (world (snd (returnPage p s))) p = true) /\
         (closed = false ->
          isClosed (world (snd (returnPage p s))) p
          = isClosed (world (snd (resetPage p s))) p)) /\
    ((exists instance,
        owner_of p (browserInstances s) = Some instance /\
        browserInstances (snd (returnPage p s))
        = update_instance (browser instance) (push_page p) (browserInstances s)) \/
     (exists evs closed,
        trace (world (snd (returnPage p s))) = trace (world s) ++ evs /\
        In (EClosePage p closed) evs)).
Proof.
  intros p s. split; [apply returnPage_effect |].
  rewrite returnPage_run, resetPage_run.
  destruct (owner_of p (browserInstances s)) as [instance |] eqn:Howner.
  - destruct (Nat.ltb (List.length (pagePool instance)) PAGE_POOL_SIZE) eqn:Hlt.
    + apply Nat.ltb_lt in Hlt.
      repeat match goal with |- _ /\ _ => split end.
      * intros i [= <-] Hfull. lia.
      * discriminate.
      * intros i e [= <-] _ Hthrow.
        destruct (reset_owned_cases p instance s)
          as [[_ Hrun] | [(_ & _ & Hrun) | (_ & _ & Hrun)]];
          rewrite Hrun in Hthrow |- *; try discriminate.
        cbn [fst snd world browserInstances with_world].
        split; [reflexivity |].
        eexists _, _. split; [| split].
        -- rewrite trace_close_attempted. cbn [trace record].
           rewrite <- app_assoc. reflexivity.
        -- intros Hc Hp. apply isClosed_close_attempted; [exact Hc |].
           cbn [pages record call_done count_call].
           rewrite pages_close_attempted. exact Hp.
        -- intro Hc. now rewrite isClosed_close_refused.
      * destruct (reset_owned_cases p instance s)
          as [[_ Hrun] | [(Ho & _ & Hrun) | (Ho & _ & Hrun)]]; rewrite Hrun;
          cbn [fst snd world browserInstances with_world].
        -- left. exists instance. auto.
        -- right. eexists _, _. split.
           ++ rewrite trace_page_created, trace_close_attempted, trace_call_done.
              rewrite <- !app_assoc. reflexivity.
           ++ right. left. reflexivity.
        -- right. eexists _, _. split.
           ++ rewrite trace_close_attempted. cbn [trace record].
              rewrite trace_call_done, trace_close_attempted, trace_call_done.
              rewrite <- !app_assoc. reflexivity.
           ++ right. left. reflexivity.
    + cbn [fst snd world browserInstances with_world].
      repeat match goal with |- _ /\ _ => split end.
      * intros i [= <-] _.
        split; [reflexivity |]. split; [apply trace_close_attempted |].
        split; [apply isClosed_close_attempted |].
        intro Ho. now apply isClosed_close_refused.
      * discriminate.
      * intros i e [= <-] Hroom. apply Nat.ltb_ge in Hlt. lia.
      * right. eexists _, _. split; [apply trace_close_attempted |].
        left. reflexivity.
  - cbn [fst snd world browserInstances with_world].
    repeat match goal with |- _ /\ _ => split end.
    + discriminate.
    + intros _. split; [reflexivity |]. split; [| split].
      * destruct (oracle (world s) (calls (world s))) eqn:Ho.
        -- rewrite trace_close_attempted, Ho. reflexivity.
        -- cbn [trace record]. rewrite trace_close_attempted, Ho.
           rewrite <- app_assoc. reflexivity.
      * intros Ho Hp. rewrite Ho. now apply isClosed_close_attempted.
      * intro Ho. rewrite Ho. unfold isClosed. cbn [pages record].
        now apply isClosed_close_refused.
    + discriminate.
    + right. destruct (oracle (world s) (calls (world s))).
      * eexists _, _. split; [apply trace_close_attempted |]. left. reflexivity.
      * eexists _, _. split.
        -- cbn [trace record]. rewrite trace_close_attempted, <- app_assoc.
           reflexivity.
        -- left. reflexivity.
Qed.

(** The eleventh page returned to a full pool, Playwright carrying the
    close out: the page is closed and the pool is as it was. *)
Lemma returnPage_closes_what_it_does_not_pool_witness :
  owner_of eleventh_page (browserInstances pool_full_one_out)
  = Some (first_instance pool_full_one_out) /\
  List.length (pagePool (first_instance pool_full_one_out)) = PAGE_POOL_SIZE /\
  browserInstances (snd (returnPage eleventh_page pool_full_one_out))
  = browserInstances pool_full_one_out /\
  isClosed (world (snd (returnPage eleventh_page pool_full_one_out)))
    eleventh_page = true.
Proof.
  assert (Ho : owner_of eleventh_page (browserInstances pool_full_one_out)
               = Some (first_instance pool_full_one_out))
    by (vm_compute; reflexivity).
  assert (Hfull : List.length (pagePool (first_instance pool_full_one_out))
                  = PAGE_POOL_SIZE) by (vm_compute; reflexivity).
  assert (Hok : oracle (world pool_full_one_out)
                  (calls (world pool_full_one_out)) = true)
    by (vm_compute; reflexivity).
  assert (Hpid : pid eleventh_page
                 < List.length (pages (world pool_full_one_out)))
    by (vm_compute; lia).
  destruct (proj1 (proj2 (returnPage_closes_what_it_does_not_pool
                            eleventh_page pool_full_one_out))
              (first_instance pool_full_one_out) Ho Hfull)
    as (Hreg & _ & Hclosed & _).
  split; [exact Ho |]. split; [exact Hfull |]. split; [exact Hreg |].
  exact (Hclosed Hok Hpid).
Defined.

(** C5 — In the targeted recovery loop, failed attempt number n (n = 1, 2,
    ...) is followed by a sleep of min(INITIAL_RECONNECT_DELAY * 2^(n-1),
    INITIAL_RECONNECT_DELAY * MAX_RECONNECT_MULTIPLIER) milliseconds, and
    nothing else of the loop sleeps: whatever the world answers, the failures
    and sleeps the loop records are those of attempts 1..k in order, k being
    the number of attempts that failed.  With INITIAL_RECONNECT_DELAY = 1000
    and MAX_RECONNECT_MULTIPLIER = 3, four failed attempts in a row sleep
    1000, 2000, 3000 and 3000 ms. *)
Theorem reconnect_backoff_delays :
  (forall fuel instance s,
     exists k, k <= fuel /\
       observed keep_backoff (snd (attemptRecovery fuel (Some instance) s))
       = observed keep_backoff s
         ++ flat_map
              (fun n =>
                 [FailedAttempt n;
                  Slept (Z.min (INITIAL_RECONNECT_DELAY * 2 ^ (n - 1))
                               (INITIAL_RECONNECT_DELAY * MAX_RECONNECT_MULTIPLIER))])
              (map Z.of_nat (seq 1 k)) /\
       (fst (attemptRecovery fuel (Some instance) s) = Ok tt /\ k < fuel \/
        fst (attemptRecovery fuel (Some instance) s) = OutOfFuel /\ k = fuel)) /\
  INITIAL_RECONNECT_DELAY = 1000%Z /\
  MAX_RECONNECT_MULTIPLIER = 3%Z /\
  map reconnect_delay [1; 2; 3; 4; 5]%Z = [1000; 2000; 3000; 3000; 3000]%Z /\
  observed keep_backoff
    (snd (attemptRecovery 4 (Some (first_instance started_then_dead))
            started_then_dead))
  = [FailedAttempt 1; Slept 1000; FailedAttempt 2; Slept 2000;
     FailedAttempt 3; Slept 3000; FailedAttempt 4; Slept 3000]%Z.
Proof.
  split; [| repeat split; vm_compute; reflexivity].
  intros fuel instance s. simpl.
  destruct (reconnect_loop_backoff fuel instance 1%Z s) as (k & Hk & Hobs & Hout).
  exists k. split; [exact Hk |]. split; [| exact Hout].
  rewrite Hobs. f_equal.
  change 1%Z with (Z.of_nat 1). rewrite attempts_from_seq. reflexivity.
Qed.




(** C7 — Whenever getAvailablePage returns a page, that page's isClosed() is
    false in the world the call ends in.  The page is either the head of the
    pool of a healthy registered instance, handed out right after validatePage
    saw it open and its no-op evaluation succeed (the last recorded call), or
    a page that did not exist before the call, made from a healthy registered
    instance's browser and secured (the last recorded call is that newPage). *)
Theorem getAvailablePage_page_not_closed :
  forall s p,
    fst (getAvailablePage s) = Ok (Some p) ->
    isClosed (world (snd (getAvailablePage s))) p = false /\
    ((exists instance pool' t,
        In instance (values (browserInstances s)) /\ healthy instance = true /\
        pagePool instance = p :: pool' /\
        trace (world (snd (getAvailablePage s))) = t ++ [EEvaluate p true]) \/
     (exists instance t,
        In instance (values (browserInstances s)) /\ healthy instance = true /\
        pbrowser p = browser instance /\
        List.length (pages (world s)) <= pid p /\
        nth_error (pages (world (snd (getAvailablePage s)))) (pid p)
        = Some new_secured_page /\
        trace (world (snd (getAvailablePage s)))
        = t ++ [ENewPage (browser instance) true])).
Proof.
  intros s p. rewrite getAvailablePage_run.
  destruct (healthyInstances s) as [| i l] eqn:Hcand.
  - destruct (initializeConnections _) as [[[] | e |] s']; discriminate.
  - rewrite <- Hcand. intro H.
    destruct (try_instances_handed_out _ _ H) as [Hopen Hprov].
    split; [exact Hopen |].
    destruct Hprov as [(i0 & pool' & t & Hin & Hhd & Htr)
                      | (i0 & t & Hin & Hb & Hnew & Hsec & Htr)];
      apply in_healthyInstances in Hin; destruct Hin as [Hin Hh].
    + left. exists i0, pool', t. auto.
    + right. exists i0, t. repeat split; auto.
Qed.

(** The first checkout of the started process. *)
Lemma getAvailablePage_page_not_closed_witness :
  isClosed (world (snd (getAvailablePage started))) (mkPage 0 0) = false.
Proof.
  assert (H : fst (getAvailablePage started) = Ok (Some (mkPage 0 0))).
  { vm_compute. reflexivity. }
  exact (proj1 (getAvailablePage_page_not_closed started H)).
Defined.



(** C9 — Endpoint parsing gives no endpoint exactly when BROWSER_ENDPOINTS
    is absent, and initializeConnections throws the no-endpoints error
    exactly then.  When the variable is set to the empty string, parsing
    gives the single endpoint [EmptyString]: initializeConnections does not
    throw the no-endpoints error, its first call into the world is a
    connection attempt to the empty endpoint, and if that connectToBrowser
    call fails the failure is logged. *)
Theorem empty_BROWSER_ENDPOINTS_is_one_endpoint :
  forall s,
    (fst (getEndpoints s) = Ok [] <-> BROWSER_ENDPOINTS (world s) = None) /\
    (fst (initializeConnections s) = Throw NoEndpointsConfigured
     <-> BROWSER_ENDPOINTS (world s) = None) /\
    (BROWSER_ENDPOINTS (world s) = Some EmptyString ->
     fst (getEndpoints s) = Ok [EmptyString] /\
     fst (initializeConnections s) <> Throw NoEndpointsConfigured /\
     exists rest,
       trace (world (snd (initializeConnections s)))
       = trace (world s)
         ++ EConnect EmptyString (oracle (world s) (calls (world s))) :: rest /\
       (fst (connectToBrowser EmptyString s) <> Ok tt ->
        In (ELog (LogConnectFailed EmptyString)) rest)).
Proof.
  intro s.
  assert (Hinit : fst (initializeConnections s) = Throw NoEndpointsConfigured
                  <-> endpoints_of (world s) = []).
  { rewrite initializeConnections_run.
    destruct (endpoints_of (world s)) as [| e l]; [tauto |].
    cbv zeta. destruct (browserInstances _); simpl; split; discriminate. }
  split; [| split].
  - rewrite getEndpoints_run, <- endpoints_of_nil. simpl.
    split; [now intros [= ->] | now intros ->].
  - rewrite Hinit. apply endpoints_of_nil.
  - intro Henv.
    assert (Hends : endpoints_of (world s) = [EmptyString]).
    { unfold endpoints_of. now rewrite Henv. }
    split; [now rewrite getEndpoints_run, Hends |].
    split; [rewrite Hinit, Hends; discriminate |].
    rewrite initializeConnections_run, Hends. cbv zeta.
    rewrite connect_each_cons. cbn [connect_each ret snd].
    assert (Hsnd : forall (o1 o2 : Outcome unit) s',
      snd (match browserInstances s' with
           | [] => (o1, s')
           | _ :: _ => (o2, s')
           end) = s').
    { intros o1 o2 s'. destruct (browserInstances s'); reflexivity. }
    rewrite Hsnd. rewrite connect_or_log_run.
    destruct (connectToBrowser_trace EmptyString s) as (rest & Htr & Hlog).
    destruct (connectToBrowser EmptyString s) as [[[] | error |] s'];
      simpl in *.
    + exists rest. auto.
    + exists (rest ++ [ELog (LogConnectFailed EmptyString)]).
      rewrite Htr, <- app_assoc. split; [reflexivity |].
      intros _. apply in_or_app. right. now left.
    + exists rest. auto.
Qed.

(** A process whose BROWSER_ENDPOINTS is the empty string. *)
Lemma empty_BROWSER_ENDPOINTS_is_one_endpoint_witness :
  fst (getEndpoints (fresh_process (fun _ => false) (Some EmptyString)))
  = Ok [EmptyString] /\
  fst (initializeConnections (fresh_process (fun _ => false) (Some EmptyString)))
  <> Throw NoEndpointsConfigured /\
  exists rest,
    trace (world (snd (initializeConnections
                         (fresh_process (fun _ => false) (Some EmptyString)))))
    = trace (world (fresh_process (fun _ => false) (Some EmptyString)))
      ++ EConnect EmptyString false :: rest /\
    (fst (connectToBrowser EmptyString
            (fresh_process (fun _ => false) (Some EmptyString))) <> Ok tt ->
     In (ELog (LogConnectFailed EmptyString)) rest).
Proof.
  exact (proj2 (proj2 (empty_BROWSER_ENDPOINTS_is_one_endpoint
                         (fresh_process (fun _ => false) (Some EmptyString))))
           eq_refl).
Defined.

(** C10 — When a page that exists is returned, its owner's pool has room,
    the navigation of the reset fails and the replacement is created, then
    returnPage closes the returned page (close is called on it between the
    failed navigation and the creation, and the page is closed if Playwright
    carries the close out), and what it pushes is the replacement: a page
    that did not exist before, secured, open, and not the returned page.  The
    owner's pool is its old pool followed by the replacement, one page
    longer. *)
Theorem returnPage_pools_the_replacement :
  forall p s instance,
    owner_of p (browserInstances s) = Some instance ->
    List.length (pagePool instance) < PAGE_POOL_SIZE ->
    pid p < List.length (pages (world s)) ->
    oracle (world s) (calls (world s)) = false ->
    (exists page, fst (resetPage p s) = Ok page) ->
    exists page' closed,
      fst (returnPage p s) = Ok tt /\
      fst (resetPage p s) = Ok page' /\
      page' <> p /\
      pid page' = List.length (pages (world s)) /\
      pbrowser page' = browser instance /\
      nth_error (pages (world (snd (returnPage p s)))) (pid page')
      = Some new_secured_page /\
      isClosed (world (snd (returnPage p s))) page' = false /\
      trace (world (snd (returnPage p s)))
      = trace (world s)
        ++ [EGoto p (Some 500%Z) false; EClosePage p closed;
            ENewPage (browser instance) true] /\
      (closed = true -> isClosed (world (snd (returnPage p s))) p = true) /\
      browserInstances (snd (returnPage p s))
      = update_instance (browser instance) (push_page page') (browserInstances s) /\
      owner_of p (browserInstances (snd (returnPage p s)))
      = Some (push_page page' instance) /\
      pagePool (push_page page' instance) = pagePool instance ++ [page'] /\
      List.length (pagePool (push_page page' instance))
      = S (List.length (pagePool instance)).
Proof.
  intros p s instance Howner Hroom Hexists Hnav [page Hreset].
  rewrite returnPage_run, resetPage_run in *. rewrite Howner in *.
  apply Nat.ltb_lt in Hroom. rewrite Hroom.
  destruct (reset_owned_cases p instance s)
    as [[Ho _] | [(_ & Ho2 & Hrun) | (_ & _ & Hrun)]];
    [congruence | | rewrite Hrun in Hreset; discriminate].
  rewrite Hrun. cbn [fst snd world browserInstances with_world].
  set (w1 := call_done (goto_blank p) (world s)) in *.
  assert (Hlen : List.length (pages (close_attempted p w1))
                 = List.length (pages (world s))).
  { rewrite pages_close_attempted. reflexivity. }
  exists (mkPage (List.length (pages (close_attempted p w1))) (browser instance)),
         (oracle w1 (calls w1)).
  repeat match goal with |- _ /\ _ => split end; try reflexivity.
  - intro Heq. apply (f_equal pid) in Heq. simpl in Heq. lia.
  - exact Hlen.
  - apply page_created_secured.
  - apply isClosed_page_created.
  - rewrite trace_page_created, Ho2, trace_close_attempted.
    subst w1. rewrite trace_call_done, Hnav, <- !app_assoc. reflexivity.
  - intro Hclosed. unfold isClosed, page_created. cbn [pages set_pages call_done record count_call].
    rewrite nth_error_app1 by (rewrite Hlen; exact Hexists).
    apply (isClosed_close_attempted p w1 Hclosed). exact Hexists.
  - apply owner_of_update; [reflexivity | exact Howner].
  - unfold push_page. simpl. rewrite length_app. simpl. lia.
Qed.

(** The first page returned to a browser that fails its navigation. *)
Lemma returnPage_pools_the_replacement_witness :
  exists page' closed,
    fst (returnPage first_page checked_out) = Ok tt /\
    fst (resetPage first_page checked_out) = Ok page' /\
    page' <> first_page /\
    pid page' = List.length (pages (world checked_out)) /\
    pbrowser page' = browser (first_instance checked_out) /\
    nth_error (pages (world (snd (returnPage first_page checked_out)))) (pid page')
    = Some new_secured_page /\
    isClosed (world (snd (returnPage first_page checked_out))) page' = false /\
    trace (world (snd (returnPage first_page checked_out)))
    = trace (world checked_out)
      ++ [EGoto first_page (Some 500%Z) false; EClosePage first_page closed;
          ENewPage (browser (first_instance checked_out)) true] /\
    (closed = true ->
     isClosed (world (snd (returnPage first_page checked_out))) first_page = true) /\
    browserInstances (snd (returnPage first_page checked_out))
    = update_instance (browser (first_instance checked_out)) (push_page page')
        (browserInstances checked_out) /\
    owner_of first_page (browserInstances (snd (returnPage first_page checked_out)))
    = Some (push_page page' (first_instance checked_out)) /\
    pagePool (push_page page' (first_instance checked_out))
    = pagePool (first_instance checked_out) ++ [page'] /\
    List.length (pagePool (push_page page' (first_instance checked_out)))
    = S (List.length (pagePool (first_instance checked_out))).
Proof.
  apply (@returnPage_pools_the_replacement first_page checked_out
           (first_instance checked_out)).
  - vm_compute. reflexivity.
  - vm_compute. lia.
  - vm_compute. lia.
  - vm_compute. reflexivity.
  - exists (mkPage 10 0). vm_compute. reflexivity.
Defined.

(** * Further properties *)

(** X1 — The endpoint list is BROWSER_ENDPOINTS cut at every comma and at
    nothing else: joining the pieces with commas gives the value back, no
    piece holds a comma, and there is one piece more than there are commas
    (empty pieces are kept, nothing is trimmed).  Conversely, a non-empty
    list of comma-free endpoints, joined with commas, is parsed back to that
    very list. *)
Theorem split_comma_inverts_join :
  (forall v,
     String.concat "," (split_comma v) = v /\
     Forall (fun piece => has_comma piece = false) (split_comma v) /\
     List.length (split_comma v)
     = S (count_occ ascii_dec (list_ascii_of_string v) ","%char)) /\
  (forall l s,
     l <> [] -> Forall (fun piece => has_comma piece = false) l ->
     BROWSER_ENDPOINTS (world s) = Some (String.concat "," l) ->
     fst (getEndpoints s) = Ok l).
Proof.
  split.
  - intro v. split; [apply split_comma_joins |].
    split; [apply split_comma_pieces | apply split_comma_count].
  - intros l s Hne Hl Henv. rewrite getEndpoints_run. unfold endpoints_of.
    rewrite Henv. simpl. f_equal. now apply split_comma_of_join.
Qed.

(** Two endpoints, joined and parsed back. *)
Lemma split_comma_inverts_join_witness :
  fst (getEndpoints
         (fresh_process (fun _ => true)
            (Some (String.concat "," [endpoint_a; endpoint_b]))))
  = Ok [endpoint_a; endpoint_b].
Proof.
  apply (proj2 split_comma_inverts_join [endpoint_a; endpoint_b]).
  - discriminate.
  - repeat constructor.
  - reflexivity.
Defined.

(** X2 — The candidates of getAvailablePage are the healthy instances of
    the registry, each once, fullest pool first, instances with equally full
    pools in registry order (the sort is stable).  So the first candidate's
    pool is at least as full as that of any healthy instance, and when the
    page at the head of that pool is open and answers the no-op evaluation,
    that page is what getAvailablePage returns. *)
Theorem candidates_fullest_pool_first :
  forall s,
    Permutation (healthyInstances s)
                (filter healthy (values (browserInstances s))) /\
    StronglySorted at_least_as_full (healthyInstances s) /\
    (forall n,
       filter (pool_has n) (healthyInstances s)
       = filter (pool_has n) (filter healthy (values (browserInstances s)))) /\
    (forall i rest,
       healthyInstances s = i :: rest ->
       (forall j, In j (values (browserInstances s)) -> healthy j = true ->
                  List.length (pagePool j) <= List.length (pagePool i)) /\
       (forall p pool',
          pagePool i = p :: pool' ->
          isClosed (world s) p = false ->
          oracle (world s) (calls (world s)) = true ->
          fst (getAvailablePage s) = Ok (Some p))).
Proof.
  intro s. unfold healthyInstances.
  split; [apply sort_by_pool_perm |].
  split; [apply sort_by_pool_sorted |].
  split; [intro n; apply sort_by_pool_stable |].
  intros i rest Hcand. split.
  - intros j Hj Hh.
    assert (Hin : In j (i :: rest)).
    { rewrite <- Hcand. apply in_sort_by_pool, filter_In. auto. }
    pose proof (sort_by_pool_sorted (filter healthy (values (browserInstances s))))
      as Hsorted.
    rewrite Hcand in Hsorted. inversion Hsorted as [| ? ? _ Hall]; subst.
    destruct Hin as [<- | Hin]; [lia |].
    rewrite Forall_forall in Hall. now apply Hall.
  - intros p pool' Hpool Hopen Heval.
    rewrite getAvailablePage_run. unfold healthyInstances. rewrite Hcand.
    now rewrite (@try_instances_first_valid i rest p pool' s Hpool Hopen Heval).
Qed.

(** Two healthy instances, the first registered with nine pooled pages and
    the second with ten: the second is tried first, and the head of its pool
    is handed out. *)
Lemma candidates_fullest_pool_first_witness :
  map endpoint (healthyInstances one_out_of_two) = [endpoint_b; endpoint_a] /\
  map (fun i => List.length (pagePool i)) (healthyInstances one_out_of_two)
  = [10; 9] /\
  fst (getAvailablePage one_out_of_two) = Ok (Some (mkPage 10 1)).
Proof.
  split; [vm_compute; reflexivity |]. split; [vm_compute; reflexivity |].
  set (i := hd (first_instance one_out_of_two) (healthyInstances one_out_of_two)).
  set (rest := tl (healthyInstances one_out_of_two)).
  assert (Hcand : healthyInstances one_out_of_two = i :: rest)
    by (vm_compute; reflexivity).
  assert (Hpool : pagePool i = mkPage 10 1 :: tl (pagePool i))
    by (vm_compute; reflexivity).
  assert (Hopen : isClosed (world one_out_of_two) (mkPage 10 1) = false)
    by (vm_compute; reflexivity).
  assert (Heval : oracle (world one_out_of_two) (calls (world one_out_of_two))
                  = true) by (vm_compute; reflexivity).
  exact (proj2 (proj2 (proj2 (proj2
           (candidates_fullest_pool_first one_out_of_two))) i rest Hcand)
           (mkPage 10 1) (tl (pagePool i)) Hpool Hopen Heval).
Defined.

(** X3 — cleanup never throws and empties the registry.  On the way it
    asks Playwright to close, instance by instance in registry order, every
    pooled page and then the browser, and nothing else; a failing close is
    swallowed and stops nothing, so the error line of its catch is never
    logged.  If Playwright carries out every call, every page that was pooled
    is closed afterwards.  A second cleanup makes no Playwright call. *)
Theorem cleanup_closes_everything :
  forall s,
    let s' := snd (cleanup s) in
    fst (cleanup s) = Ok tt /\
    browserInstances s' = [] /\
    observed keep_closing s'
    = observed keep_closing s
      ++ flat_map closings_of (values (browserInstances s)) /\
    calls (world s')
    = calls (world s)
      + List.length (flat_map closings_of (values (browserInstances s))) /\
    observed keep_cleanup_error s' = observed keep_cleanup_error s /\
    (answering (world s) ->
     forall instance p,
       In instance (values (browserInstances s)) ->
       In p (pagePool instance) ->
       isClosed (world s') p = true) /\
    calls (world (snd (cleanup s'))) = calls (world s').
Proof.
  intro s. cbv zeta. rewrite !cleanup_run.
  cbn [fst snd browserInstances world values map shut_down_all].
  unfold observed. cbn [world].
  repeat match goal with |- _ /\ _ => split end.
  - reflexivity.
  - reflexivity.
  - rewrite shut_down_all_closings. cbn [trace record].
    rewrite observe_app. cbn [observe keep_closing]. now rewrite app_nil_r.
  - now rewrite calls_shut_down_all.
  - rewrite shut_down_all_no_error. cbn [trace record].
    rewrite observe_app. cbn [observe keep_cleanup_error]. apply app_nil_r.
  - intros Ha i p Hi Hp. apply (@shut_down_all_closes p i); auto.
  - reflexivity.
Qed.

(** After a start that connected one endpoint, with Playwright carrying
    out every call, cleanup closes the ten pooled pages. *)
Lemma cleanup_closes_everything_witness :
  answering (world started) /\
  (forall instance p,
     In instance (values (browserInstances started)) ->
     In p (pagePool instance) ->
     isClosed (world (snd (cleanup started))) p = true).
Proof.
  assert (Ha : answering (world started)) by (intros m _; reflexivity).
  split; [exact Ha |].
  exact (proj1 (proj2 (proj2 (proj2 (proj2 (proj2
           (cleanup_closes_everything started)))))) Ha).
Defined.

(** X4 — getMetrics changes nothing and never throws.  It reports the
    number of registered instances, how many of them are healthy (never more
    than are registered), PAGE_POOL_SIZE nominal pages for each healthy
    instance, and the pages in the pools of the healthy instances; pages
    pooled by an unhealthy instance are not counted.  While no pool exceeds
    PAGE_POOL_SIZE, the available pages never exceed the total pages. *)
Theorem getMetrics_counts_healthy_pools :
  forall s,
  exists m,
    getMetrics s = (Ok m, s) /\
    Metrics.totalInstances m = List.length (browserInstances s) /\
    Metrics.healthyInstances m
    = List.length (filter healthy (values (browserInstances s))) /\
    Metrics.healthyInstances m <= Metrics.totalInstances m /\
    Metrics.totalPages m = Metrics.healthyInstances m * PAGE_POOL_SIZE /\
    Metrics.availablePages m
    = pooled_in_healthy (values (browserInstances s)) /\
    (pools_bounded s -> Metrics.availablePages m <= Metrics.totalPages m).
Proof.
  intro s. unfold getMetrics, bind, getRegistry, ret. cbn [fst snd].
  rewrite fold_count_instance. eexists. split; [reflexivity |].
  cbn [Metrics.totalInstances Metrics.healthyInstances Metrics.totalPages
       Metrics.availablePages].
  repeat match goal with |- _ /\ _ => split end; try reflexivity.
  - pose proof (filter_length_le healthy (values (browserInstances s))) as H.
    unfold values in H at 2. rewrite length_map in H. exact H.
  - intro Hb. now apply pooled_in_healthy_bounded.
Qed.

(** After a start that connected one endpoint: one healthy instance, ten
    pages, all of them available. *)
Lemma getMetrics_counts_healthy_pools_witness :
  pools_bounded started /\
  exists m,
    getMetrics started = (Ok m, started) /\
    Metrics.availablePages m <= Metrics.totalPages m.
Proof.
  assert (Hb : pools_bounded started).
  { unfold pools_bounded, pool_bounded. vm_compute. repeat constructor. }
  split; [exact Hb |].
  destruct (getMetrics_counts_healthy_pools started)
    as (m & Hrun & _ & _ & _ & _ & _ & Hle).
  exists m. split; [exact Hrun | exact (Hle Hb)].
Defined.

(** X5 — The registry stays coherent: if no endpoint is registered twice,
    every instance sits under the endpoint it was connected to, and every
    pooled page was made by the browser of the instance that pools it, then
    the same holds after every operation of the manager (connectToBrowser,
    initializeConnections, getAvailablePage, returnPage of any page, a health
    check or a whole monitor tick, recovery, shutdown), however the operation
    ends.  In such a registry findInstanceByPage finds, for every pooled page,
    an instance with the browser of the one that pools it, so a pooled page
    is never taken for an orphan. *)
Theorem registry_stays_coherent :
  forall s, coherent s ->
    (forall e, coherent (snd (connectToBrowser e s))) /\
    coherent (snd (initializeConnections s)) /\
    coherent (snd (getAvailablePage s)) /\
    (forall p, coherent (snd (returnPage p s))) /\
    (forall fuel instance, coherent (snd (checkBrowserHealth fuel instance s))) /\
    (forall fuel, coherent (snd (healthCheckTick fuel s))) /\
    (forall fuel instance, coherent (snd (attemptRecovery fuel instance s))) /\
    coherent (snd (cleanup s)) /\
    (forall kv p,
       In kv (browserInstances s) -> In p (pagePool (snd kv)) ->
       exists owner,
         fst (findInstanceByPage p s) = Ok (Some owner) /\
         browser owner = browser (snd kv)).
Proof.
  intros s Hs. repeat match goal with |- _ /\ _ => split end.
  - intro e. now apply connectToBrowser_coherent.
  - now apply initializeConnections_coherent.
  - now apply getAvailablePage_coherent.
  - intro p. now apply returnPage_coherent.
  - intros fuel instance. now apply checkBrowserHealth_coherent.
  - intro fuel. now apply health_tick_coherent.
  - intros fuel instance. now apply attemptRecovery_coherent.
  - now apply cleanup_coherent.
  - intros kv p Hkv Hp. rewrite findInstanceByPage_run. cbn [fst].
    destruct (@pooled_page_owner _ kv p Hs Hkv Hp) as (owner & Ho & Hb).
    exists owner. split; [| exact Hb]. unfold owner_of in Ho. now rewrite Ho.
Qed.

(** A process that has not connected yet has an empty registry, which is
    coherent; so is every state reached from it. *)
Lemma registry_stays_coherent_witness :
  coherent (fresh_process (fun _ => true) (Some endpoint_a)) /\
  coherent started.
Proof.
  assert (H0 : coherent (fresh_process (fun _ => true) (Some endpoint_a))).
  { split; constructor. }
  split; [exact H0 |].
  exact (proj1 (proj2 (@registry_stays_coherent _ H0))).
Defined.

(** X6 — connectToBrowser always comes back, and when it throws, it has
    cleaned up after itself: the error is that of the Playwright call that
    failed; the registry is the one before the call without the entry of the
    endpoint, so nothing is registered under the endpoint (an instance that
    was registered there before is dropped too) and every other endpoint
    keeps its entry; the only close call is that of one browser, the browser
    just connected if the connection was made, else the one that was
    registered under the endpoint, if any; and the last thing recorded is the
    failure line of the endpoint. *)
Theorem connectToBrowser_failure_unregisters :
  forall e s,
    fst (connectToBrowser e s) <> OutOfFuel /\
    (forall error,
       fst (connectToBrowser e s) = Throw error ->
       let s' := snd (connectToBrowser e s) in
       (exists c, error = External c /\ calls (world s) <= c /\
                  oracle (world s) c = false) /\
       browserInstances s' = map_delete e (browserInstances s) /\
       map_get e (browserInstances s') = None /\
       (forall e', e' <> e ->
          map_get e' (browserInstances s') = map_get e' (browserInstances s)) /\
       observed keep_closing s'
       = observed keep_closing s
         ++ match closed_on_failure e s with
            | Some b => [ClosingBrowser b]
            | None => []
            end /\
       exists evs,
         trace (world s')
         = trace (world s) ++ evs ++ [ELog (LogConnectFailed e)]).
Proof.
  intros e s.
  pose proof (connectToBrowser_registry e s) as Hreg. cbv zeta in Hreg.
  split; [intro H; rewrite H in Hreg; exact Hreg |].
  intros error Hthrow. cbv zeta. rewrite Hthrow in Hreg.
  destruct (connectToBrowser_failure e s Hthrow) as (Herr & Hclose & Hlog).
  split; [exact Herr |]. split; [exact Hreg |].
  split; [rewrite Hreg; apply map_get_delete_same |].
  split; [intros e' Hne; rewrite Hreg; now apply map_get_delete_other |].
  split; [exact Hclose | exact Hlog].
Qed.

(** Reconnecting to the endpoint of a running instance when Playwright has
    stopped answering drops that instance. *)
Lemma connectToBrowser_failure_unregisters_witness :
  fst (connectToBrowser endpoint_a started_then_dead) = Throw (External 11) /\
  map_get endpoint_a (browserInstances started_then_dead) <> None /\
  map_get endpoint_a
    (browserInstances (snd (connectToBrowser endpoint_a started_then_dead)))
  = None.
Proof.
  assert (H : fst (connectToBrowser endpoint_a started_then_dead)
              = Throw (External 11)) by (vm_compute; reflexivity).
  split; [exact H |]. split; [vm_compute; discriminate |].
  exact (proj1 (proj2 (proj2
           (proj2 (connectToBrowser_failure_unregisters endpoint_a
                     started_then_dead) _ H)))).
Defined.

(** X7 — Checking a page out and returning it rotates the pool.  In a
    coherent registry with bounded pools and distinct browsers, when the head
    page of the first candidate's pool is open and Playwright carries out the
    no-op evaluation of the checkout and the navigation of the reset, then
    getAvailablePage hands out that page and returnPage of it puts the same
    page at the back of the same pool: the registry afterwards is the one
    before with that pool rotated by one (same length, nothing else changed),
    exactly two Playwright calls were made (the evaluation and the
    navigation to about:blank with a timeout of 500 ms), no page was made or
    closed, and the page is still open. *)
Theorem checkout_then_return_rotates_pool :
  forall s i rest p pool',
    coherent s -> pools_bounded s -> distinct_browsers s ->
    healthyInstances s = i :: rest ->
    pagePool i = p :: pool' ->
    isClosed (world s) p = false ->
    oracle (world s) (calls (world s)) = true ->
    oracle (world s) (S (calls (world s))) = true ->
    let s1 := snd (getAvailablePage s) in
    let s2 := snd (returnPage p s1) in
    fst (getAvailablePage s) = Ok (Some p) /\
    fst (returnPage p s1) = Ok tt /\
    browserInstances s2
    = update_instance (browser i) (set_pagePool (pool' ++ [p]))
        (browserInstances s) /\
    instance_at (browser i) (browserInstances s2)
    = Some (set_pagePool (pool' ++ [p]) i) /\
    trace (world s2)
    = trace (world s) ++ [EEvaluate p true; EGoto p (Some 500%Z) true] /\
    calls (world s2) = calls (world s) + 2 /\
    pages (world s2) = pages (world s) /\
    isClosed (world s2) p = false.
Proof.
  intros s i rest p pool' Hco Hbd Hdb Hcand Hpool Hopen Heval Hgoto. cbv zeta.
  assert (Hin : In i (values (browserInstances s))).
  { apply (proj1 (in_healthyInstances i s)). rewrite Hcand. now left. }
  pose proof (instance_at_unique i (browserInstances s) Hdb Hin) as Hat.
  assert (Hown : pbrowser p = browser i).
  { unfold values in Hin. apply in_map_iff in Hin.
    destruct Hin as (kv & <- & Hkv). destruct Hco as [_ Hall].
    rewrite Forall_forall in Hall. destruct (Hall kv Hkv) as [_ Hpo].
    unfold pool_owned in Hpo. rewrite Forall_forall in Hpo. apply Hpo.
    rewrite Hpool. now left. }
  assert (Hlen : List.length pool' < PAGE_POOL_SIZE).
  { unfold values in Hin. apply in_map_iff in Hin.
    destruct Hin as (kv & Heq & Hkv). unfold pools_bounded, pool_bounded in Hbd.
    rewrite Forall_forall in Hbd. specialize (Hbd kv Hkv).
    rewrite Heq, Hpool in Hbd. cbn [List.length] in Hbd. lia. }
  assert (Hget : getAvailablePage s
                 = (Ok (Some p),
                    mkState (update_instance (browser i) shift_pool
                               (browserInstances s))
                            (call_done (EEvaluate p) (world s)))).
  { rewrite getAvailablePage_run, Hcand.
    exact (@try_instances_first_valid i rest p pool' s Hpool Hopen Heval). }
  rewrite Hget. cbn [fst snd].
  set (s1 := mkState _ (call_done (EEvaluate p) (world s))).
  assert (Howner : owner_of p (browserInstances s1) = Some (shift_pool i)).
  { rewrite owner_of_instance_at, Hown. subst s1. cbn [browserInstances].
    rewrite instance_at_update by reflexivity.
    now rewrite Nat.eqb_refl, Hat. }
  rewrite returnPage_run, Howner.
  assert (Hroom : Nat.ltb (List.length (pagePool (shift_pool i))) PAGE_POOL_SIZE
                  = true).
  { apply Nat.ltb_lt. unfold shift_pool. cbn [pagePool set_pagePool].
    now rewrite Hpool. }
  rewrite Hroom. unfold reset_owned. cbv zeta.
  assert (Hgoto' : oracle (world s1) (calls (world s1)) = true) by exact Hgoto.
  rewrite Hgoto'. cbn [fst snd with_world browserInstances world].
  assert (Hreg :
    update_instance (browser (shift_pool i)) (push_page p) (browserInstances s1)
    = update_instance (browser i) (set_pagePool (pool' ++ [p]))
        (browserInstances s)).
  { subst s1. cbn [browserInstances shift_pool browser set_pagePool].
    rewrite update_instance_twice by reflexivity.
    apply update_instance_at with (i := i); [exact Hat |].
    unfold push_page, shift_pool, set_pagePool. cbn [pagePool browser endpoint
      healthy lastHealthCheck markedForShutdown]. now rewrite Hpool. }
  rewrite Hreg.
  repeat match goal with |- _ /\ _ => split end; try reflexivity.
  - rewrite instance_at_update by reflexivity.
    now rewrite Nat.eqb_refl, Hat.
  - subst s1. unfold goto_blank, call_done. cbn [world trace record count_call
      oracle calls]. rewrite Heval, Hgoto, <- app_assoc. reflexivity.
  - subst s1. cbn. lia.
  - exact Hopen.
Qed.

(** After a start-up that connected one endpoint, the first page of the
    pool is checked out and returned: it is pooled again, behind the nine
    others. *)
Lemma checkout_then_return_rotates_pool_witness :
  fst (getAvailablePage started) = Ok (Some first_page) /\
  instance_at 0
    (browserInstances (snd (returnPage first_page
                                 (snd (getAvailablePage started)))))
  = Some (set_pagePool (tl (pagePool (first_instance started)) ++ [first_page])
                       (first_instance started)).
Proof.
  assert (Hco : coherent started).
  { apply initializeConnections_coherent. split; constructor. }
  assert (Hbd : pools_bounded started).
  { unfold pools_bounded, pool_bounded. vm_compute. repeat constructor. }
  assert (Hdb : distinct_browsers started).
  { unfold distinct_browsers. vm_compute. repeat constructor. intros []. }
  assert (Hcand : healthyInstances started = first_instance started :: [])
    by (vm_compute; reflexivity).
  assert (Hpool : pagePool (first_instance started)
                  = first_page :: tl (pagePool (first_instance started)))
    by (vm_compute; reflexivity).
  assert (Hopen : isClosed (world started) first_page = false)
    by (vm_compute; reflexivity).
  destruct (@checkout_then_return_rotates_pool started (first_instance started)
              [] first_page (tl (pagePool (first_instance started)))
              Hco Hbd Hdb Hcand Hpool Hopen eq_refl eq_refl)
    as (H1 & _ & _ & H4 & _).
  split; [exact H1 | exact H4].
Defined.

(** X8 — A health check whose four Playwright calls succeed (connected?,
    new test page, navigation to about:blank without a timeout, close of the
    test page) makes exactly these four calls, in this order, and returns;
    it writes healthy = true and the time of the check to the instance it
    checked, whatever its health flag was before, and changes nothing else in
    the registry (no pool, no key); the test page is the only page made and
    it is closed again; no connection is attempted and nothing is logged. *)
Theorem checkBrowserHealth_revives :
  forall fuel instance s,
    answers 4 (world s) ->
    let s' := snd (checkBrowserHealth fuel instance s) in
    fst (checkBrowserHealth fuel instance s) = Ok tt /\
    browserInstances s'
    = update_instance (browser instance) (revive (clock (world s)))
        (browserInstances s) /\
    (forall j,
       instance_at (browser instance) (browserInstances s) = Some j ->
       exists j',
         instance_at (browser instance) (browserInstances s') = Some j' /\
         healthy j' = true /\
         lastHealthCheck j' = clock (world s) /\
         pagePool j' = pagePool j /\ endpoint j' = endpoint j) /\
    trace (world s')
    = trace (world s)
      ++ [EIsConnected (browser instance) true;
          ENewPage (browser instance) true;
          EGoto (test_page instance (world s)) None true;
          EClosePage (test_page instance (world s)) true] /\
    pages (world s') = pages (world s) ++ [mark_closed new_secured_page] /\
    isClosed (world s') (test_page instance (world s)) = true.
Proof.
  intros fuel instance s Ha. cbv zeta.
  rewrite (@checkBrowserHealth_answers fuel instance s Ha). cbn [fst snd
    browserInstances world].
  destruct (@probed_world instance (world s) Ha) as (_ & _ & _ & _ & Hpages).
  repeat match goal with |- _ /\ _ => split end.
  - reflexivity.
  - reflexivity.
  - intros j Hj. exists (revive (clock (world s)) j).
    rewrite instance_at_update by reflexivity.
    rewrite Nat.eqb_refl, Hj. repeat split.
  - now apply probed_trace.
  - exact Hpages.
  - unfold isClosed, test_page. rewrite Hpages. cbn [pid].
    rewrite nth_error_app2 by lia. now rewrite Nat.sub_diag.
Qed.

(** After start-up, with Playwright carrying out every call, a health check
    of the first instance returns and leaves it healthy. *)
Lemma checkBrowserHealth_revives_witness :
  answers 4 (world started) /\
  fst (checkBrowserHealth 0 (first_instance started) started) = Ok tt.
Proof.
  assert (Ha : answers 4 (world started)) by (intros m _; reflexivity).
  split; [exact Ha |].
  exact (proj1 (@checkBrowserHealth_revives 0 (first_instance started)
                  started Ha)).
Defined.

(** X9 — A monitor tick in a world that carries out every call checks
    every registered instance once, in registry order, and returns (given
    fuel for one round per entry and one more): four Playwright calls per
    instance, no connection attempted, no sleep.  If the registered browsers
    are distinct, the registry afterwards is the one before with every
    instance marked healthy and stamped with the time of the tick: same
    endpoints in the same order, same pools. *)
Theorem healthCheckTick_revives_all :
  forall fuel s,
    answering (world s) ->
    List.length (browserInstances s) < fuel ->
    let s' := snd (healthCheckTick fuel s) in
    fst (healthCheckTick fuel s) = Ok tt /\
    observed keep_probe s'
    = observed keep_probe s ++ browsers (browserInstances s) /\
    observed keep_connect s' = observed keep_connect s /\
    calls (world s') = calls (world s) + 4 * List.length (browserInstances s) /\
    clock (world s') = clock (world s) /\
    (distinct_browsers s ->
     browserInstances s'
     = map (fun kv => (fst kv, revive (clock (world s)) (snd kv)))
           (browserInstances s)).
Proof.
  intros fuel s Ha Hfuel. cbv zeta. unfold healthCheckTick.
  destruct (@health_tick_answers (List.length (browserInstances s)) fuel 0 s
              Ha eq_refl Hfuel)
    as (Hok & Hreg & Hprobe & Hconn & Hcalls & Hclock).
  cbn [skipn] in Hreg, Hprobe.
  repeat match goal with |- _ /\ _ => split end; try assumption.
  intro Hdb. rewrite Hreg. now apply revive_each_all.
Qed.

(** An instance marked unhealthy by a checkout that found the browser
    failing is healthy again after a tick in which the browser answers. *)
Lemma healthCheckTick_revives_all_witness :
  answering (world marked_then_well) /\
  map healthy (values (browserInstances marked_then_well)) = [false] /\
  map healthy
    (values (browserInstances (snd (healthCheckTick 2 marked_then_well))))
  = [true].
Proof.
  assert (Hcalls : calls (world marked_then_well) = 14)
    by (vm_compute; reflexivity).
  assert (Horacle : oracle (world marked_then_well)
                    = fun n => negb (Nat.eqb n 11 || Nat.eqb n 13))
    by (vm_compute; reflexivity).
  assert (Ha : answering (world marked_then_well)).
  { intros m Hm. rewrite Hcalls in Hm. rewrite Horacle.
    destruct (Nat.eqb_spec m 11); [lia |].
    destruct (Nat.eqb_spec m 13); [lia | reflexivity]. }
  assert (Hfuel : List.length (browserInstances marked_then_well) < 2)
    by (vm_compute; lia).
  assert (Hdb : distinct_browsers marked_then_well).
  { unfold distinct_browsers. vm_compute. repeat constructor. intros []. }
  split; [exact Ha |]. split; [vm_compute; reflexivity |].
  destruct (@healthCheckTick_revives_all 2 marked_then_well Ha Hfuel)
    as (_ & _ & _ & _ & _ & Hreg).
  rewrite (Hreg Hdb). vm_compute. reflexivity.
Defined.

(** X10 — A recovery of an instance in a world that carries out every call
    succeeds at the first attempt, without sleeping: the old instance is torn
    down (close asked of each of its pooled pages, in pool order, then of its
    browser, and of nothing else), its endpoint is taken out of the registry,
    and a new instance is registered under the same endpoint at the end of
    the registry: healthy, around the newly connected browser, with a pool
    of PAGE_POOL_SIZE pages of that browser.  The other endpoints keep their
    entries and their order. *)
Theorem attemptRecovery_replaces_instance :
  forall fuel instance s,
    answering (world s) ->
    Forall (fun kv => browser (snd kv) <> nextBrowser (world s))
           (browserInstances s) ->
    let e := endpoint instance in
    let s' := snd (attemptRecovery (S fuel) (Some instance) s) in
    fst (attemptRecovery (S fuel) (Some instance) s) = Ok tt /\
    (exists fresh,
       browserInstances s' = map_delete e (browserInstances s) ++ [(e, fresh)] /\
       endpoint fresh = e /\
       browser fresh = nextBrowser (world s) /\
       healthy fresh = true /\
       List.length (pagePool fresh) = PAGE_POOL_SIZE /\
       pool_owned fresh) /\
    observed keep_closing s' = observed keep_closing s ++ closings_of instance /\
    observed keep_connect s' = observed keep_connect s ++ [(e, true)] /\
    observed keep_backoff s' = observed keep_backoff s.
Proof.
  intros fuel instance s Ha Hfresh. cbv zeta.
  cbn [attemptRecovery reconnect_loop]. unfold bind.
  set (s0 := torn_down instance 1 s).
  assert (Ha0 : answering (world s0)).
  { eapply answering_later; [exact Ha | apply later_torn_down]. }
  pose proof (@connectToBrowser_answers (endpoint instance) s0
                (@answers_answering _ _ Ha0)) as Hok.
  pose proof (connectToBrowser_registry (endpoint instance) s0) as Hreg.
  pose proof (@connectToBrowser_ok_no_closing (endpoint instance) s0 Hok)
    as Hclose.
  pose proof (connectToBrowser_connects_once (endpoint instance) s0) as Hconn.
  pose proof (silent_run s0 (connectToBrowser_no_backoff (endpoint instance)))
    as Hback.
  cbv zeta in Hreg. rewrite Hok in Hreg. destruct Hreg as (Hreg & _ & _).
  rewrite reconnect_once_run. fold s0.
  destruct (connectToBrowser (endpoint instance) s0) as [o s1].
  cbn [fst snd] in Hok, Hreg, Hclose, Hconn, Hback. subst o.
  unfold ret. cbn [fst snd].
  assert (Hnb : nextBrowser (world s0) = nextBrowser (world s)).
  { subst s0. unfold torn_down. cbn [world call_done record count_call nextBrowser].
    now rewrite nextBrowser_closing_all. }
  assert (Hr0 : browserInstances s0
                = map_delete (endpoint instance) (browserInstances s))
    by reflexivity.
  split; [reflexivity |].
  split; [| split; [| split]].
  - exists (set_pagePool (warm_pages (world s0))
              (new_instance (endpoint instance) (world s0))).
    cbn [with_world browserInstances]. rewrite Hreg, Hr0.
    change (nextBrowser (world s0))
      with (browser (new_instance (endpoint instance) (world s0))) at 1.
    rewrite update_instance_new.
    2: { apply Forall_map_delete. cbn [new_instance browser]. now rewrite Hnb. }
    rewrite map_set_absent by apply map_get_delete_same.
    split; [reflexivity |]. split; [reflexivity |].
    split; [exact Hnb |]. split; [reflexivity |].
    split.
    + cbn [pagePool set_pagePool]. unfold warm_pages.
      now rewrite length_map, length_seq.
    + unfold pool_owned. cbn [pagePool set_pagePool browser new_instance].
      unfold warm_pages. apply Forall_forall. intros p Hp.
      apply in_map_iff in Hp. now destruct Hp as (k & <- & _).
  - unfold observed in *. cbn [with_world world record trace].
    rewrite observe_app. cbn [observe keep_closing]. rewrite app_nil_r, Hclose.
    apply torn_down_closings.
  - unfold observed in *. cbn [with_world world record trace].
    rewrite observe_app. cbn [observe keep_connect]. rewrite app_nil_r, Hconn.
    assert (Ho : oracle (world s0) (calls (world s0)) = true)
      by (apply Ha0; lia).
    rewrite Ho. f_equal. apply torn_down_no_connect.
  - unfold observed in *. cbn [with_world world record trace].
    rewrite observe_app. cbn [observe keep_backoff]. rewrite app_nil_r, Hback.
    apply torn_down_no_backoff.
Qed.

(** Two endpoints, both connected: a recovery of the first instance moves
    its endpoint behind the other. *)
Lemma attemptRecovery_replaces_instance_witness :
  answering (world one_out_of_two) /\
  keys (browserInstances one_out_of_two) = [endpoint_a; endpoint_b] /\
  fst (attemptRecovery 1 (Some (first_instance one_out_of_two)) one_out_of_two)
  = Ok tt /\
  keys (browserInstances
          (snd (attemptRecovery 1 (Some (first_instance one_out_of_two))
                  one_out_of_two)))
  = [endpoint_b; endpoint_a].
Proof.
  assert (Ha : answering (world one_out_of_two)) by (intros m _; reflexivity).
  assert (Hfresh : Forall (fun kv => browser (snd kv)
                                     <> nextBrowser (world one_out_of_two))
                          (browserInstances one_out_of_two)).
  { vm_compute. repeat constructor; discriminate. }
  split; [exact Ha |]. split; [vm_compute; reflexivity |].
  destruct (@attemptRecovery_replaces_instance 0
              (first_instance one_out_of_two) one_out_of_two Ha Hfresh)
    as (Hok & (fresh & Hreg & _) & _).
  split; [exact Hok |].
  rewrite Hreg. unfold keys. rewrite map_app. vm_compute. reflexivity.
Defined.

(** X11 — returnPage does not look whether the page is already pooled.
    When the same page is returned twice, its owner's pool has room for two
    more pages and both navigations to about:blank succeed, the page is
    pushed onto the pool twice: the owner's pool ends with two copies of it,
    nothing else in the registry changes, and the two navigations are the
    only Playwright calls. *)
Theorem returnPage_twice_pools_twice :
  forall s p instance,
    owner_of p (browserInstances s) = Some instance ->
    List.length (pagePool instance) + 2 <= PAGE_POOL_SIZE ->
    answers 2 (world s) ->
    let s2 := snd (returnPage p (snd (returnPage p s))) in
    fst (returnPage p s) = Ok tt /\
    fst (returnPage p (snd (returnPage p s))) = Ok tt /\
    browserInstances s2
    = update_instance (browser instance)
        (set_pagePool (pagePool instance ++ [p; p])) (browserInstances s) /\
    owner_of p (browserInstances s2)
    = Some (set_pagePool (pagePool instance ++ [p; p]) instance) /\
    trace (world s2)
    = trace (world s)
      ++ [EGoto p (Some 500%Z) true; EGoto p (Some 500%Z) true].
Proof.
  intros s p instance Ho Hroom Ha. cbv zeta.
  assert (H0 : oracle (world s) (calls (world s)) = true) by (apply Ha; lia).
  assert (H1 : oracle (world s) (S (calls (world s))) = true) by (apply Ha; lia).
  pose proof (owner_of_browser _ _ Ho) as Hb.
  assert (Hat : instance_at (browser instance) (browserInstances s)
                = Some instance).
  { rewrite <- Hb, <- owner_of_instance_at. exact Ho. }
  rewrite (@returnPage_pushes p instance s Ho ltac:(lia) H0). cbn [fst snd].
  set (s1 := mkState _ (call_done (goto_blank p) (world s))).
  assert (Ho1 : owner_of p (browserInstances s1) = Some (push_page p instance)).
  { subst s1. cbn [browserInstances]. now apply owner_of_update. }
  assert (Hroom1 : List.length (pagePool (push_page p instance))
                   < PAGE_POOL_SIZE).
  { unfold push_page. cbn [pagePool set_pagePool]. rewrite length_app.
    cbn [List.length]. lia. }
  rewrite (@returnPage_pushes p (push_page p instance) s1 Ho1 Hroom1 H1).
  cbn [fst snd browserInstances world].
  assert (Hreg :
    update_instance (browser (push_page p instance)) (push_page p)
      (browserInstances s1)
    = update_instance (browser instance)
        (set_pagePool (pagePool instance ++ [p; p])) (browserInstances s)).
  { subst s1. cbn [browserInstances push_page browser set_pagePool].
    rewrite update_instance_twice by reflexivity.
    apply update_instance_at with (i := instance); [exact Hat |].
    unfold push_page, set_pagePool. cbn [pagePool browser endpoint healthy
      lastHealthCheck markedForShutdown]. now rewrite <- app_assoc. }
  rewrite Hreg.
  repeat match goal with |- _ /\ _ => split end; try reflexivity.
  - rewrite owner_of_instance_at, Hb.
    rewrite instance_at_update by reflexivity.
    now rewrite Nat.eqb_refl, Hat.
  - subst s1. unfold goto_blank, call_done.
    cbn [world trace record count_call oracle calls].
    rewrite H0, H1, <- app_assoc. reflexivity.
Qed.

(** Two pages of the started process are checked out, then the first is
    returned twice: the pool, which held eight pages, now ends with two
    copies of it. *)
Lemma returnPage_twice_pools_twice_witness :
  owner_of first_page (browserInstances (snd (checkouts 2 started))) <> None /\
  map pid
    (List.concat
       (map pagePool
          (values
             (browserInstances
                (snd (returnPage first_page
                        (snd (returnPage first_page
                                (snd (checkouts 2 started))))))))))
  = [2; 3; 4; 5; 6; 7; 8; 9; 0; 0].
Proof.
  set (s := snd (checkouts 2 started)).
  set (i := hd (first_instance s) (values (browserInstances s))).
  assert (Ho : owner_of first_page (browserInstances s) = Some i)
    by (vm_compute; reflexivity).
  assert (Hroom : List.length (pagePool i) + 2 <= PAGE_POOL_SIZE)
    by (vm_compute; lia).
  assert (Ha : answers 2 (world s)) by (intros m _; reflexivity).
  split; [rewrite Ho; discriminate |].
  destruct (@returnPage_twice_pools_twice s first_page i Ho Hroom Ha)
    as (_ & _ & Hreg & _).
  rewrite Hreg. vm_compute. reflexivity.
Defined.

(** X12 — The manager never leaves an unsecured page behind.  If every
    page that Playwright holds dismisses dialogs, closes popups and has the
    default timeout DEFAULT_PAGE_TIMEOUT, the same holds after every operation
    of the manager, however it ends: a page is made only by
    createAndSecurePage, which secures it before anything else can fail, and
    closing a page leaves its handlers in place.  So every page that
    getAvailablePage hands out, pooled or new, is open and secured. *)
Theorem pages_stay_secured :
  forall s, all_secured s ->
    (forall e, all_secured (snd (connectToBrowser e s))) /\
    all_secured (snd (initializeConnections s)) /\
    all_secured (snd (getAvailablePage s)) /\
    (forall p, all_secured (snd (returnPage p s))) /\
    (forall fuel instance, all_secured (snd (checkBrowserHealth fuel instance s))) /\
    (forall fuel, all_secured (snd (healthCheckTick fuel s))) /\
    (forall fuel instance, all_secured (snd (attemptRecovery fuel instance s))) /\
    all_secured (snd (cleanup s)) /\
    (forall p,
       fst (getAvailablePage s) = Ok (Some p) ->
       exists ps,
         nth_error (pages (world (snd (getAvailablePage s)))) (pid p) = Some ps /\
         closed ps = false /\ secured ps).
Proof.
  intros s Hs. repeat match goal with |- _ /\ _ => split end.
  - intro e. now apply connectToBrowser_secured.
  - now apply initializeConnections_secured.
  - now apply getAvailablePage_secured.
  - intro p. now apply returnPage_secured.
  - intros fuel instance. now apply checkBrowserHealth_secured.
  - intro fuel. now apply health_tick_secured.
  - intros fuel instance. now apply attemptRecovery_secured.
  - now apply cleanup_secured.
  - intros p Hp. pose proof (@getAvailablePage_open s p Hp) as Hopen.
    pose proof (@getAvailablePage_secured s Hs) as Hsec.
    unfold isClosed in Hopen. unfold all_secured in Hsec.
    destruct (nth_error (pages (world (snd (getAvailablePage s)))) (pid p))
      as [ps |] eqn:Hnth; [| discriminate].
    exists ps. repeat split; try exact Hopen.
    all: rewrite Forall_forall in Hsec;
      apply nth_error_In in Hnth; apply (Hsec ps Hnth).
Qed.

(** A fresh process holds no page; after start-up and a checkout the page
    handed out is secured. *)
Lemma pages_stay_secured_witness :
  all_secured (fresh_process (fun _ => true) (Some endpoint_a)) /\
  all_secured started /\
  exists ps,
    nth_error (pages (world (snd (getAvailablePage started)))) (pid first_page)
    = Some ps /\ closed ps = false /\ secured ps.
Proof.
  assert (H0 : all_secured (fresh_process (fun _ => true) (Some endpoint_a)))
    by constructor.
  pose proof (proj1 (proj2 (@pages_stay_secured _ H0))) as H1.
  split; [exact H0 |]. split; [exact H1 |].
  apply (proj2 (proj2 (proj2 (proj2 (proj2 (proj2 (proj2 (proj2
           (@pages_stay_secured started H1))))))))).
  vm_compute. reflexivity.
Defined.

(** X13 — With a healthy instance registered, getAvailablePage only takes:
    entry by entry, the registry afterwards has the same endpoint, browser
    and time of last check, a pool that is what is left of the old pool after
    some pages were taken off its front, and a health flag that is set only
    if it was set before.  So the endpoints and their order are unchanged, no
    instance is revived, no page is added to a pool, and the pages pooled by
    healthy instances (availablePages of getMetrics) do not increase. *)
Theorem getAvailablePage_only_takes :
  forall s,
    healthyInstances s <> [] ->
    let r' := browserInstances (snd (getAvailablePage s)) in
    only_taken (browserInstances s) r' /\
    keys r' = keys (browserInstances s) /\
    pooled_in_healthy (values r')
    <= pooled_in_healthy (values (browserInstances s)).
Proof.
  intros s Hcand. cbv zeta.
  assert (H : only_taken (browserInstances s)
                (browserInstances (snd (getAvailablePage s)))).
  { rewrite getAvailablePage_run.
    destruct (healthyInstances s) as [| i l] eqn:Hc; [congruence |].
    rewrite <- Hc.
    apply (@try_instances_only_takes (browserInstances s) (healthyInstances s) s).
    apply only_taken_refl. }
  split; [exact H |]. split.
  - now apply only_taken_keys.
  - now apply only_taken_pooled.
Qed.

(** A checkout from the started process takes one page: nine of the ten
    pooled pages are left. *)
Lemma getAvailablePage_only_takes_witness :
  healthyInstances started <> [] /\
  pooled_in_healthy (values (browserInstances started)) = 10 /\
  pooled_in_healthy (values (browserInstances (snd (getAvailablePage started))))
  <= pooled_in_healthy (values (browserInstances started)).
Proof.
  assert (Hc : healthyInstances started <> []) by (vm_compute; discriminate).
  split; [exact Hc |]. split; [vm_compute; reflexivity |].
  exact (proj2 (proj2 (@getAvailablePage_only_takes started Hc))).
Defined.

(** X14 — connectToBrowser does not look whether the endpoint is already
    registered.  When it succeeds for an endpoint that holds an instance (the
    new browser being unknown to the registry), the new instance takes the
    place of the old one under the same key, and nothing is closed: no close
    is asked of the old browser or of its pooled pages, and every page that
    existed is as open or closed as it was.  If the registered browsers were
    distinct, the old browser is no longer registered, so a page of the old
    instance has no owner any more. *)
Theorem connectToBrowser_replaces_without_closing :
  forall e s old,
    map_get e (browserInstances s) = Some old ->
    Forall (fun kv => browser (snd kv) <> nextBrowser (world s))
           (browserInstances s) ->
    fst (connectToBrowser e s) = Ok tt ->
    let s' := snd (connectToBrowser e s) in
    keys (browserInstances s') = keys (browserInstances s) /\
    (exists fresh,
       map_get e (browserInstances s') = Some fresh /\
       browser fresh = nextBrowser (world s) /\
       browser fresh <> browser old /\
       healthy fresh = true /\
       List.length (pagePool fresh) = PAGE_POOL_SIZE) /\
    observed keep_closing s' = observed keep_closing s /\
    (forall p, pid p < List.length (pages (world s)) ->
               isClosed (world s') p = isClosed (world s) p) /\
    (distinct_browsers s ->
     forall p, pbrowser p = browser old ->
               owner_of p (browserInstances s') = None).
Proof.
  intros e s old Hget Hfresh Hok. cbv zeta.
  pose proof (connectToBrowser_registry e s) as Hreg. cbv zeta in Hreg.
  rewrite Hok in Hreg. destruct Hreg as (Hreg & _ & _).
  pose proof (@connectToBrowser_ok_no_closing e s Hok) as Hclose.
  assert (Hold : browser old <> nextBrowser (world s)).
  { apply map_get_values in Hget. unfold values in Hget.
    apply in_map_iff in Hget. destruct Hget as (kv & <- & Hin).
    rewrite Forall_forall in Hfresh. now apply Hfresh. }
  assert (Hr' : browserInstances (snd (connectToBrowser e s))
                = map_set e (set_pagePool (warm_pages (world s))
                               (new_instance e (world s)))
                    (browserInstances s)).
  { rewrite Hreg.
    change (nextBrowser (world s))
      with (browser (new_instance e (world s))) at 1.
    now apply update_instance_new. }
  split; [| split; [| split; [| split]]].
  - rewrite Hr'. apply keys_map_set_present. congruence.
  - exists (set_pagePool (warm_pages (world s)) (new_instance e (world s))).
    rewrite Hr', map_get_set_same.
    cbn [browser healthy pagePool set_pagePool new_instance].
    repeat match goal with |- _ /\ _ => split end; try congruence.
    unfold warm_pages. now rewrite length_map, length_seq.
  - exact Hclose.
  - intros p Hp. revert Hok. rewrite connectToBrowser_run. cbv zeta.
    destruct (oracle (world s) (calls (world s))).
    + set (s1 := mkState _ (browser_connected e (world s))).
      pose proof (@warm_pool_old_pages PAGE_POOL_SIZE (nextBrowser (world s))
                    (new_instance e (world s)) [] s1 (pid p) Hp) as Hw.
      destruct (warm_pool PAGE_POOL_SIZE (nextBrowser (world s))
                  (new_instance e (world s)) [] s1) as [[pool | error |] s2];
        cbn [fst snd] in *.
      * intros _. unfold isClosed. cbn [world record pages]. now rewrite Hw.
      * destruct (connect_failed_registry e error s2) as [-> _]. discriminate.
      * discriminate.
    + destruct (connect_failed_registry e (External (calls (world s)))
                  (with_world s (call_done (EConnect e) (world s)))) as [-> _].
      discriminate.
  - intros Hdb p Hp. rewrite Hr'. apply owner_of_absent. rewrite Hp.
    apply replaced_browser_gone; [exact Hdb | exact Hget |].
    cbn [browser set_pagePool new_instance]. congruence.
Qed.

(** The started process connects to its endpoint once more: the instance
    around the first browser is replaced, nothing is closed, and the first
    page, still open, has lost its owner. *)
Lemma connectToBrowser_replaces_without_closing_witness :
  map_get endpoint_a (browserInstances started)
  = Some (first_instance started) /\
  fst (connectToBrowser endpoint_a started) = Ok tt /\
  observed keep_closing (snd (connectToBrowser endpoint_a started)) = [] /\
  isClosed (world (snd (connectToBrowser endpoint_a started))) first_page
  = false /\
  owner_of first_page
    (browserInstances (snd (connectToBrowser endpoint_a started))) = None.
Proof.
  assert (Hget : map_get endpoint_a (browserInstances started)
                 = Some (first_instance started)) by (vm_compute; reflexivity).
  assert (Hfresh : Forall (fun kv => browser (snd kv)
                                     <> nextBrowser (world started))
                          (browserInstances started)).
  { vm_compute. repeat constructor; discriminate. }
  assert (Hok : fst (connectToBrowser endpoint_a started) = Ok tt)
    by (vm_compute; reflexivity).
  assert (Hdb : distinct_browsers started).
  { unfold distinct_browsers. vm_compute. repeat constructor. intros []. }
  destruct (@connectToBrowser_replaces_without_closing endpoint_a started
              (first_instance started) Hget Hfresh Hok)
    as (_ & _ & Hclose & Hpages & Horphan).
  split; [exact Hget |]. split; [exact Hok |].
  split; [rewrite Hclose; vm_compute; reflexivity |].
  split.
  - rewrite (Hpages first_page) by (vm_compute; lia). vm_compute. reflexivity.
  - apply (Horphan Hdb). vm_compute. reflexivity.
Defined.
